(** * Resilience layer of the library-catalog service

    A shallow embedding of [app/core/circuit_breaker.py] and
    [app/core/advanced_caching.py], and of the merge step of
    [app/services/external_apis.py], followed by the properties of the
    design document that concern them.

    Conventions of the embedding.
    - Python [int] and the [float] readings of [time.time()] are integers
      ([Z]); a duration is a number of clock units.  A function that reads
      the clock takes the reading as an argument: the circuit breaker one
      argument for each reading, in the order of the source; an operation
      of the cache a single one, the clock standing still while the
      operation runs.
    - A Python [dict] is an association list in insertion order ([dict]),
      because [sorted] is stable and the eviction order of the cache
      depends on the order of [items()].
    - A function that may raise returns a [result]; a mutated object is
      returned next to the result.
    - An awaited callable is given by its outcome, and the calls that are
      really made are written to a list of [event]s. *)

From Stdlib Require Import String Ascii ZArith List Bool Lia QArith.
From Stdlib.Strings Require Import Byte.
Import ListNotations.
Local Open Scope string_scope.
Local Open Scope list_scope.
Local Open Scope Z_scope.
#[local] Set Warnings "-register-all".

(** ** Exceptions, results, events *)

Inductive exn : Type :=
| IndexError
| KeyError (k : string)
| TypeError
| EOFError
| BadGzipFile
| UnpicklingError
| AsyncioTimeoutError
| CircuitBreakerOpenException (msg : string)
| CircuitBreakerTimeoutException (seconds : Z)
| UpstreamError (cls : string).

Inductive result (A : Type) : Type :=
| Ok (a : A)
| Raise (e : exn).
Arguments Ok {A} a.
Arguments Raise {A} e.

(** What an awaited operation does under [asyncio.wait_for]. *)
Inductive outcome (A : Type) : Type :=
| Returns (a : A)
| Raises (e : exn)
| TimesOut.
Arguments Returns {A} a.
Arguments Raises {A} e.
Arguments TimesOut {A}.

Inductive event : Type :=
| EvFunc       (* the wrapped operation was invoked *)
| EvFallback.  (* the fallback was invoked *)

Definition is_EvFunc (e : event) : bool :=
  match e with EvFunc => true | EvFallback => false end.

(** How many times the wrapped operation was invoked. *)
Definition invocations (evs : list event) : nat :=
  length (filter is_EvFunc evs).

(** [len(l)] as a Python integer. *)
Definition len {A : Type} (l : list A) : Z := Z.of_nat (length l).

(** The last [n] elements of a list. *)
Definition lastn {A : Type} (n : nat) (l : list A) : list A :=
  skipn (length l - n) l.

Definition count_true (l : list bool) : Z :=
  len (filter (fun b => b) l).

Definition count_false (l : list bool) : Z :=
  len (filter negb l).

(** ** circuit_breaker.py *)

Module Breaker.

Inductive CircuitState : Type := CLOSED | OPEN | HALF_OPEN.

Definition CircuitState_eqb (a b : CircuitState) : bool :=
  match a, b with
  | CLOSED, CLOSED | OPEN, OPEN | HALF_OPEN, HALF_OPEN => true
  | _, _ => false
  end.

(** [expected_exception] is the class (or tuple of classes) given to
    [except]; it is the predicate "the exception is an instance of it". *)
Record CircuitBreakerConfig : Type := {
  failure_threshold : Z;
  recovery_timeout : Z;
  success_threshold : Z;
  timeout : Z;
  expected_exception : exn -> bool
}.

(** [CircuitBreakerConfig()]: the dataclass defaults;
    [expected_exception = Exception] matches every exception. *)
Definition default_config : CircuitBreakerConfig :=
  {| failure_threshold := 5;
     recovery_timeout := 60;
     success_threshold := 3;
     timeout := 30;
     expected_exception := fun _ => true |}.

Record CircuitBreakerStats : Type := {
  window_size : Z;
  requests : list bool;
  failure_count : Z;
  success_count : Z;
  last_failure_time : option Z
}.

(** [CircuitBreakerStats.__init__] *)
Definition new_stats (window_size : Z) : CircuitBreakerStats :=
  {| window_size := window_size;
     requests := [];
     failure_count := 0;
     success_count := 0;
     last_failure_time := None |}.

(** [_add_request]: [self.requests.pop(0)] raises [IndexError] on an
    empty list, before anything is changed. *)
Definition _add_request (success : bool) (s : CircuitBreakerStats)
  : result CircuitBreakerStats :=
  if window_size s <=? len (requests s) then
    match requests s with
    | [] => Raise IndexError
    | removed :: rest =>
        Ok {| window_size := window_size s;
              requests := rest ++ [success];
              failure_count :=
                if removed then failure_count s else failure_count s - 1;
              success_count :=
                if removed then success_count s - 1 else success_count s;
              last_failure_time := last_failure_time s |}
    end
  else
    Ok {| window_size := window_size s;
          requests := requests s ++ [success];
          failure_count := failure_count s;
          success_count := success_count s;
          last_failure_time := last_failure_time s |}.

Definition record_success (s : CircuitBreakerStats)
  : result CircuitBreakerStats :=
  match _add_request true s with
  | Raise e => Raise e
  | Ok s1 =>
      Ok {| window_size := window_size s1;
            requests := requests s1;
            failure_count := failure_count s1;
            success_count := success_count s1 + 1;
            last_failure_time := last_failure_time s1 |}
  end.

Definition record_failure (now : Z) (s : CircuitBreakerStats)
  : result CircuitBreakerStats :=
  match _add_request false s with
  | Raise e => Raise e
  | Ok s1 =>
      Ok {| window_size := window_size s1;
            requests := requests s1;
            failure_count := failure_count s1 + 1;
            success_count := success_count s1;
            last_failure_time := Some now |}
  end.

Definition total_requests (s : CircuitBreakerStats) : Z := len (requests s).

(** [failure_rate]: the true division of two integers, as a rational. *)
Definition failure_rate (s : CircuitBreakerStats) : Q :=
  let total := len (requests s) in
  if total =? 0 then 0%Q
  else (inject_Z (failure_count s) / inject_Z total)%Q.

(** One recording operation of the statistics: [(true, _)] is
    [record_success()], [(false, t)] is [record_failure()] with the clock
    at [t]. *)
Definition record (op : bool * Z) (s : CircuitBreakerStats)
  : result CircuitBreakerStats :=
  if fst op then record_success s else record_failure (snd op) s.

Fixpoint record_all (ops : list (bool * Z)) (s : CircuitBreakerStats)
  : result CircuitBreakerStats :=
  match ops with
  | [] => Ok s
  | op :: rest =>
      match record op s with
      | Raise e => Raise e
      | Ok s1 => record_all rest s1
      end
  end.

(** The state of the statistics after the outcomes [h] were recorded in a
    window of capacity [N]. *)
Definition window_inv (N : Z) (h : list bool) (s : CircuitBreakerStats)
  : Prop :=
  window_size s = N /\
  requests s = lastn (Z.to_nat N) h /\
  success_count s = count_true (requests s) /\
  failure_count s = count_false (requests s).

Section WithValue.

(** The type of the arguments of a call and of the values the wrapped
    operation returns. *)
Variables A V : Type.

(** [fallback], when there is one, maps the arguments of the call to what
    the fallback returns or raises. *)
Record CircuitBreaker : Type := {
  name : string;
  config : CircuitBreakerConfig;
  fallback : option (A -> result V);
  state : CircuitState;
  stats : CircuitBreakerStats;
  last_state_change : Z;
  half_open_success_count : Z
}.

(** [CircuitBreaker.__init__], the clock reading [now]. *)
Definition new_breaker (name : string) (config : CircuitBreakerConfig)
    (fallback : option (A -> result V)) (now : Z) : CircuitBreaker :=
  {| name := name;
     config := config;
     fallback := fallback;
     state := CLOSED;
     stats := new_stats 100;
     last_state_change := now;
     half_open_success_count := 0 |}.

Definition with_state (cb : CircuitBreaker) (st : CircuitState)
    (changed : Z) (half_open : Z) : CircuitBreaker :=
  {| name := name cb;
     config := config cb;
     fallback := fallback cb;
     state := st;
     stats := stats cb;
     last_state_change := changed;
     half_open_success_count := half_open |}.

Definition with_stats (cb : CircuitBreaker) (s : CircuitBreakerStats)
  : CircuitBreaker :=
  {| name := name cb;
     config := config cb;
     fallback := fallback cb;
     state := state cb;
     stats := s;
     last_state_change := last_state_change cb;
     half_open_success_count := half_open_success_count cb |}.

Definition _check_state_transition (now : Z) (cb : CircuitBreaker)
  : CircuitBreaker :=
  match state cb with
  | OPEN =>
      if recovery_timeout (config cb) <=? now - last_state_change cb
      then with_state cb HALF_OPEN now 0
      else cb
  | CLOSED =>
      if (failure_threshold (config cb) <=? failure_count (stats cb))
         && (failure_threshold (config cb) <=? total_requests (stats cb))
      then with_state cb OPEN now (half_open_success_count cb)
      else cb
  | HALF_OPEN => cb
  end.

(** [_on_success]; [t] is the clock read when the circuit closes. *)
Definition _on_success (t : Z) (cb : CircuitBreaker) : result CircuitBreaker :=
  match record_success (stats cb) with
  | Raise e => Raise e
  | Ok s1 =>
      let cb1 := with_stats cb s1 in
      match state cb1 with
      | HALF_OPEN =>
          let n := half_open_success_count cb1 + 1 in
          if success_threshold (config cb1) <=? n
          then Ok (with_state cb1 CLOSED t 0)
          else Ok (with_state cb1 HALF_OPEN (last_state_change cb1) n)
      | _ => Ok cb1
      end
  end.

(** [_on_failure]; [t1] is the clock read by [record_failure], [t2] the
    one read when the circuit re-opens. *)
Definition _on_failure (t1 t2 : Z) (cb : CircuitBreaker)
  : result CircuitBreaker :=
  match record_failure t1 (stats cb) with
  | Raise e => Raise e
  | Ok s1 =>
      let cb1 := with_stats cb s1 in
      match state cb1 with
      | HALF_OPEN => Ok (with_state cb1 OPEN t2 0)
      | _ => Ok cb1
      end
  end.

(** [_execute_fallback]: the fallback's result or exception, as it is. *)
Definition _execute_fallback (fb : A -> result V) (args : A) : result V :=
  fb args.

(** The [except] clauses of [call], in their order, for an exception [e]
    raised inside the [try] block. *)
Definition handle_exception (t1 t2 : Z) (e : exn) (cb : CircuitBreaker)
  : result V * CircuitBreaker :=
  if expected_exception (config cb) e then
    match _on_failure t1 t2 cb with
    | Ok cb1 => (Raise e, cb1)
    | Raise e1 => (Raise e1, cb)
    end
  else
    match e with
    | AsyncioTimeoutError =>
        match _on_failure t1 t2 cb with
        | Ok cb1 =>
            (Raise (CircuitBreakerTimeoutException (timeout (config cb))), cb1)
        | Raise e1 => (Raise e1, cb)
        end
    | _ => (Raise e, cb)
    end.

(** [call]: [now] is the clock at the state check, [t1] and [t2] the
    later readings; [func] is what the wrapped operation does when it is
    awaited on [args] under [wait_for]. *)
Definition call (now t1 t2 : Z) (func : outcome V) (args : A)
    (cb : CircuitBreaker) : result V * CircuitBreaker * list event :=
  let cb1 := _check_state_transition now cb in
  match state cb1 with
  | OPEN =>
      match fallback cb1 with
      | Some fb => (_execute_fallback fb args, cb1, [EvFallback])
      | None =>
          (Raise (CircuitBreakerOpenException
                    ("Circuit breaker " ++ name cb1 ++ " is open")%string),
           cb1, [])
      end
  | _ =>
      match func with
      | Returns v =>
          match _on_success t1 cb1 with
          | Ok cb2 => (Ok v, cb2, [EvFunc])
          | Raise e => (handle_exception t1 t2 e cb1, [EvFunc])
          end
      | Raises e => (handle_exception t1 t2 e cb1, [EvFunc])
      | TimesOut => (handle_exception t1 t2 AsyncioTimeoutError cb1, [EvFunc])
      end
  end.

(** One call: its clock readings, the behaviour of its operation and its
    arguments. *)
Record a_call : Type := {
  at_check : Z;
  at_record : Z;
  at_change : Z;
  operation : outcome V;
  arguments : A
}.

(** A sequence of calls on one breaker. *)
Fixpoint call_all (calls : list a_call) (cb : CircuitBreaker)
  : list (result V) * CircuitBreaker * list event :=
  match calls with
  | [] => ([], cb, [])
  | c :: rest =>
      let '(r, cb1, ev) :=
        call (at_check c) (at_record c) (at_change c)
          (operation c) (arguments c) cb in
      let '(rs, cb2, evs) := call_all rest cb1 in
      (r :: rs, cb2, ev ++ evs)
  end.

(** [_on_success] after each of a run of successful operations in a row;
    [ts] are the clock readings. *)
Fixpoint on_success_all (ts : list Z) (cb : CircuitBreaker)
  : result CircuitBreaker :=
  match ts with
  | [] => Ok cb
  | t :: rest =>
      match _on_success t cb with
      | Raise e => Raise e
      | Ok cb1 => on_success_all rest cb1
      end
  end.

(** A failing call: the operation raises a classified exception or times
    out. *)
Definition classified_failure (c : CircuitBreakerConfig)
    (call : a_call) : Prop :=
  match operation call with
  | Returns _ => False
  | Raises e => expected_exception c e = true
  | TimesOut => True
  end.

(** What a call on [args] answers while the circuit is open. *)
Definition open_answer (cb : CircuitBreaker) (args : A) : result V :=
  match fallback cb with
  | Some fb => fb args
  | None =>
      Raise (CircuitBreakerOpenException
               ("Circuit breaker " ++ name cb ++ " is open")%string)
  end.

Definition open_events (cb : CircuitBreaker) : list event :=
  match fallback cb with
  | Some _ => [EvFallback]
  | None => []
  end.

End WithValue.

Arguments name {A V} _.
Arguments config {A V} _.
Arguments fallback {A V} _.
Arguments state {A V} _.
Arguments stats {A V} _.
Arguments last_state_change {A V} _.
Arguments half_open_success_count {A V} _.
Arguments new_breaker {A V} _ _ _ _.
Arguments with_state {A V} _ _ _ _.
Arguments with_stats {A V} _ _.
Arguments _check_state_transition {A V} _ _.
Arguments _on_success {A V} _ _.
Arguments _on_failure {A V} _ _ _.
Arguments handle_exception {A V} _ _ _ _.
Arguments call {A V} _ _ _ _ _ _.
Arguments at_check {A V} _.
Arguments at_record {A V} _.
Arguments at_change {A V} _.
Arguments operation {A V} _.
Arguments arguments {A V} _.
Arguments Build_a_call {A V} _ _ _ _ _.
Arguments call_all {A V} _ _.
Arguments on_success_all {A V} _ _.
Arguments open_answer {A V} _ _.
Arguments open_events {A V} _.
Arguments classified_failure {A V} _ _.


(** [expected_exception=(httpx.HTTPError, httpx.TimeoutException)]: the
    exceptions of the HTTP client, named by their class. *)
Definition httpx_errors (e : exn) : bool :=
  match e with
  | UpstreamError cls =>
      String.eqb cls "HTTPError" || String.eqb cls "TimeoutException"
  | _ => false
  end.

(** The configuration of [google_books_cb]. *)
Definition google_books_config : CircuitBreakerConfig :=
  {| failure_threshold := 3;
     recovery_timeout := 30;
     success_threshold := 3;
     timeout := 10;
     expected_exception := httpx_errors |}.

(** The configuration of [openlibrary_cb]. *)
Definition openlibrary_config : CircuitBreakerConfig :=
  {| failure_threshold := 5;
     recovery_timeout := 60;
     success_threshold := 3;
     timeout := 15;
     expected_exception := httpx_errors |}.

(** A breaker with the Google Books configuration and a fallback that
    returns its argument, after three failing calls at times 1, 2 and 3. *)
Definition breaker_after_three_failures : CircuitBreaker Z Z :=
  snd (fst (call_all
              [Build_a_call 1 1 1 (Raises (UpstreamError "HTTPError")) 0;
               Build_a_call 2 2 2 (Raises (UpstreamError "TimeoutException")) 0;
               Build_a_call 3 3 3 (Raises (UpstreamError "HTTPError")) 0]
              (new_breaker "google_books" google_books_config
                 (Some (fun isbn => Ok isbn)) 0))).

(** The same breaker once the call at time 4 has opened the circuit. *)
Definition opened_breaker : CircuitBreaker Z Z :=
  _check_state_transition 4 breaker_after_three_failures.

(** Three failing calls at times 1, 2 and 3. *)
Definition three_failing_calls : list (a_call Z Z) :=
  [Build_a_call 1 1 1 (Raises (UpstreamError "HTTPError")) 0;
   Build_a_call 2 2 2 TimesOut 0;
   Build_a_call 3 3 3 (Raises (UpstreamError "TimeoutException")) 0].

(** [n] calls at times [from + 1], ..., [from + n], each behaving as
    [func]. *)
Definition calls_from (from : Z) (n : nat) (func : outcome Z)
  : list (a_call Z Z) :=
  map (fun i => let t := from + Z.of_nat i in Build_a_call t t t func 0)
      (seq 1 n).

(** A configuration whose threshold is one more than the 100 outcomes the
    window of a breaker holds. *)
Definition config_above_window : CircuitBreakerConfig :=
  {| failure_threshold := 101;
     recovery_timeout := 60;
     success_threshold := 3;
     timeout := 30;
     expected_exception := fun _ => true |}.

(** A new breaker with that configuration and a fallback that returns its
    argument. *)
Definition breaker_above_window : CircuitBreaker Z Z :=
  new_breaker "above_window" config_above_window (Some (fun isbn => Ok isbn)) 0.

(** 101 failing calls in a row, at times 1 to 101. *)
Definition failing_calls_101 : list (a_call Z Z) :=
  calls_from 0 101 (Raises (UpstreamError "HTTPError")).

(** A breaker with the Google Books configuration whose window is full:
    97 successes, three failures, a call at time 101 that opens the
    circuit, and after the recovery timeout two successful probes.  It is
    HALF_OPEN, one success short of closing, and its window holds 97
    successes and the three failures. *)
Definition full_window_breaker : CircuitBreaker Z Z :=
  snd (fst (call_all
              (calls_from 0 97 (Returns 1)
               ++ calls_from 97 3 (Raises (UpstreamError "HTTPError"))
               ++ [Build_a_call 101 101 101 (Returns 1) 0;
                   Build_a_call 131 131 131 (Returns 1) 0;
                   Build_a_call 132 132 132 (Returns 1) 0])
              (new_breaker "google_books" google_books_config
                 (Some (fun isbn => Ok isbn)) 0))).

End Breaker.

(** ** Python values and dictionaries *)

(** The values the cache stores and the upstream sources return. *)
Inductive pyval : Type :=
| VNone
| VBool (b : bool)
| VInt (z : Z)
| VStr (s : string)
| VBytes (b : list byte)
| VList (l : list pyval)
| VDict (d : list (string * pyval)).

(** Truth value of an object in a condition. *)
Definition truthy (v : pyval) : bool :=
  match v with
  | VNone => false
  | VBool b => b
  | VInt z => negb (z =? 0)
  | VStr s => negb (String.eqb s "")
  | VBytes b => match b with [] => false | _ => true end
  | VList l => match l with [] => false | _ => true end
  | VDict d => match d with [] => false | _ => true end
  end.

Definition is_None (v : pyval) : bool :=
  match v with VNone => true | _ => false end.

(** A [dict] with string keys, its items in insertion order. *)
Definition dict (V : Type) : Type := list (string * V).

Definition keys {V : Type} (d : dict V) : list string := map fst d.

(** [d.get(k)] *)
Fixpoint dict_get {V : Type} (k : string) (d : dict V) : option V :=
  match d with
  | [] => None
  | (k', v) :: rest => if String.eqb k' k then Some v else dict_get k rest
  end.

(** [k in d] *)
Definition dict_mem {V : Type} (k : string) (d : dict V) : bool :=
  match dict_get k d with Some _ => true | None => false end.

(** [d[k] = v]: an existing key keeps its place, a new one goes last. *)
Fixpoint dict_set {V : Type} (k : string) (v : V) (d : dict V) : dict V :=
  match d with
  | [] => [(k, v)]
  | (k', v') :: rest =>
      if String.eqb k' k then (k, v) :: rest
      else (k', v') :: dict_set k v rest
  end.

(** [del d[k]], for a key that is present. *)
Fixpoint dict_del {V : Type} (k : string) (d : dict V) : dict V :=
  match d with
  | [] => []
  | (k', v') :: rest =>
      if String.eqb k' k then rest else (k', v') :: dict_del k rest
  end.

(** [d.update(other)] *)
Definition dict_update {V : Type} (d other : dict V) : dict V :=
  fold_left (fun acc kv => dict_set (fst kv) (snd kv) acc) other d.

(** [k in l] and [l.remove(k)] on a list of keys. *)
Definition list_mem (k : string) (l : list string) : bool :=
  existsb (String.eqb k) l.

Fixpoint list_remove (k : string) (l : list string) : list string :=
  match l with
  | [] => []
  | x :: rest => if String.eqb x k then rest else x :: list_remove k rest
  end.

(** The slice [l[:n]]; a negative [n] counts from the end. *)
Definition slice_to {T : Type} (n : Z) (l : list T) : list T :=
  if 0 <=? n then firstn (Z.to_nat n) l
  else firstn (length l - Z.to_nat (- n)) l.

(** [sorted(l, key=key)]: a stable sort, by insertion from the right. *)
Fixpoint insert_sorted {T : Type} (key : T -> Z) (x : T) (l : list T)
  : list T :=
  match l with
  | [] => [x]
  | y :: rest =>
      if key x <=? key y then x :: y :: rest
      else y :: insert_sorted key x rest
  end.

Definition sorted {T : Type} (key : T -> Z) (l : list T) : list T :=
  fold_right (insert_sorted key) [] l.

Arguments keys : simpl never.
Arguments dict_mem : simpl never.
Arguments list_mem : simpl never.
Arguments len : simpl never.

(** ** The merge step of the two enrichment services *)

Module Enrichment.

(** The results that [ResilientBookEnrichmentService.enrich_book_data]
    keeps from its awaited tasks: a task that raised is skipped, and so is
    an empty result. *)
Definition collect (tasks : list (result (dict pyval)))
  : list (dict pyval) :=
  flat_map (fun r => match r with
                     | Ok d => match d with [] => [] | _ => [d] end
                     | Raise _ => []
                     end) tasks.

(** Its consolidation loop: [consolidated.update(result)] for each result
    in turn. *)
Definition consolidate (results : list (dict pyval)) : dict pyval :=
  fold_left dict_update results [].

Record ResilientBookEnrichmentService : Type := {
  google_books_cb : Breaker.CircuitBreaker string (dict pyval);
  openlibrary_cb : Breaker.CircuitBreaker string (dict pyval)
}.

Definition _google_books_fallback (isbn : string) : result (dict pyval) :=
  Ok [("title", VStr ("Livro ISBN " ++ isbn)%string);
      ("description",
       VStr "Informações não disponíveis temporariamente");
      ("source", VStr "fallback_google")].

Definition _openlibrary_fallback (isbn : string) : result (dict pyval) :=
  Ok [("subjects", VList [VStr "Literatura"]);
      ("source", VStr "fallback_openlibrary")].

(** [ResilientBookEnrichmentService.__init__] *)
Definition new_service (now : Z) : ResilientBookEnrichmentService :=
  {| google_books_cb :=
       Breaker.new_breaker "google_books" Breaker.google_books_config
         (Some _google_books_fallback) now;
     openlibrary_cb :=
       Breaker.new_breaker "openlibrary" Breaker.openlibrary_config
         (Some _openlibrary_fallback) now |}.

(** The clock readings of the two protected calls. *)
Record readings : Type := {
  g_check : Z; g_record : Z; g_change : Z;
  o_check : Z; o_record : Z; o_change : Z
}.

(** [ResilientBookEnrichmentService.enrich_book_data]; [google] and
    [openlib] are what [_fetch_google_books] and [_fetch_openlibrary] do
    for this ISBN.  The tasks are awaited one after the other. *)
Definition enrich_book_data (clk : readings) (isbn : option string)
    (google openlib : outcome (dict pyval))
    (svc : ResilientBookEnrichmentService)
  : dict pyval * ResilientBookEnrichmentService :=
  match isbn with
  | None => ([], svc)
  | Some i =>
      if String.eqb i "" then ([], svc)
      else
        let '(r1, g, _) :=
          Breaker.call (g_check clk) (g_record clk) (g_change clk)
            google i (google_books_cb svc) in
        let '(r2, o, _) :=
          Breaker.call (o_check clk) (o_record clk) (o_change clk)
            openlib i (openlibrary_cb svc) in
        (consolidate (collect [r1; r2]),
         {| google_books_cb := g; openlibrary_cb := o |})
  end.

(** The merge loop of [BookEnrichmentService.enrich_book_data] in
    [services/external_apis.py]: a value is taken when it is non-empty and
    the field is absent or empty so far. *)
Definition merge_item (enriched : dict pyval) (kv : string * pyval)
  : dict pyval :=
  let (key, value) := kv in
  if truthy value
     && (negb (dict_mem key enriched)
         || negb (match dict_get key enriched with
                  | Some old => truthy old
                  | None => false
                  end))
  then dict_set key value enriched
  else enriched.

Definition merge_results (results : list (dict pyval)) : dict pyval :=
  fold_left (fun enriched result => fold_left merge_item result enriched)
    results [].

(** Every field of [d] is non-empty. *)
Definition all_truthy (d : dict pyval) : Prop :=
  forall k v, dict_get k d = Some v -> truthy v = true.

(** The first non-empty value of field [k] in the results, in their
    order: what the merge policy of the design keeps. *)
Fixpoint first_non_empty (k : string) (results : list (dict pyval))
  : option pyval :=
  match results with
  | [] => None
  | r :: rest =>
      match dict_get k r with
      | Some v => if truthy v then Some v else first_non_empty k rest
      | None => first_non_empty k rest
      end
  end.

(** Two answers for one ISBN: Google Books knows the title and the
    publisher, OpenLibrary has the record but neither of them. *)
Definition google_answer : dict pyval :=
  [("title", VStr "Dune");
   ("authors", VList [VStr "Frank Herbert"]);
   ("description", VNone);
   ("cover_url", VNone);
   ("page_count", VInt 612);
   ("publisher", VStr "Ace");
   ("published_date", VStr "1965");
   ("source", VStr "google_books")].

Definition openlibrary_answer : dict pyval :=
  [("title", VNone);
   ("authors", VList []);
   ("publisher", VNone);
   ("publish_date", VStr "1965");
   ("subjects", VList []);
   ("source", VStr "openlibrary")].

(** One enrichment at time [t] in which the Google Books fetch fails with
    an HTTP error and OpenLibrary answers. *)
Definition failing_round (t : Z) (svc : ResilientBookEnrichmentService)
  : ResilientBookEnrichmentService :=
  snd (enrich_book_data (Build_readings t t t t t t) (Some "9780441013593")
         (Raises (UpstreamError "HTTPError")) (Returns openlibrary_answer)
         svc).

(** A service whose Google Books circuit has opened: three failing rounds,
    and a fourth that trips the state check. *)
Definition service_with_open_google : ResilientBookEnrichmentService :=
  failing_round 4
    (failing_round 3 (failing_round 2 (failing_round 1 (new_service 0)))).

End Enrichment.

(** ** advanced_caching.py *)

(** [pickle.dumps], [pickle.loads], [gzip.compress] and [gzip.decompress]:
    library code, taken as given. *)
Class Serializer : Type := {
  pickle_dumps : pyval -> list byte;
  pickle_loads : list byte -> result pyval;
  gzip_compress : list byte -> list byte;
  gzip_decompress : list byte -> result (list byte)
}.

Module Cache.

Inductive CacheStrategy : Type :=
| LRU | LFU | TTL | WRITE_THROUGH | WRITE_BEHIND.

Record CacheEntry : Type := {
  value : pyval;
  created_at : Z;
  accessed_at : Z;
  access_count : Z;
  ttl : option Z
}.

(** [is_expired], the clock at [now]. *)
Definition is_expired (now : Z) (e : CacheEntry) : bool :=
  match ttl e with
  | None => false
  | Some d => d <? now - created_at e
  end.

Record SmartCacheManager : Type := {
  max_size : Z;
  default_ttl : option Z;
  strategy : CacheStrategy;
  enable_compression : bool;
  cache : dict CacheEntry;
  access_order : list string;
  frequency_counter : dict Z;
  hits : Z;
  misses : Z;
  evictions : Z;
  compressions : Z
}.

(** [SmartCacheManager.__init__] *)
Definition new_cache (max_size : Z) (default_ttl : option Z)
    (strategy : CacheStrategy) (enable_compression : bool)
  : SmartCacheManager :=
  {| max_size := max_size;
     default_ttl := default_ttl;
     strategy := strategy;
     enable_compression := enable_compression;
     cache := [];
     access_order := [];
     frequency_counter := [];
     hits := 0;
     misses := 0;
     evictions := 0;
     compressions := 0 |}.

(** Assignments to the attributes of the manager. *)
Definition with_cache (cm : SmartCacheManager) (c : dict CacheEntry)
  : SmartCacheManager :=
  {| max_size := max_size cm; default_ttl := default_ttl cm;
     strategy := strategy cm; enable_compression := enable_compression cm;
     cache := c;
     access_order := access_order cm;
     frequency_counter := frequency_counter cm;
     hits := hits cm; misses := misses cm; evictions := evictions cm;
     compressions := compressions cm |}.

Definition with_access_order (cm : SmartCacheManager) (l : list string)
  : SmartCacheManager :=
  {| max_size := max_size cm; default_ttl := default_ttl cm;
     strategy := strategy cm; enable_compression := enable_compression cm;
     cache := cache cm;
     access_order := l;
     frequency_counter := frequency_counter cm;
     hits := hits cm; misses := misses cm; evictions := evictions cm;
     compressions := compressions cm |}.

Definition with_frequency_counter (cm : SmartCacheManager) (f : dict Z)
  : SmartCacheManager :=
  {| max_size := max_size cm; default_ttl := default_ttl cm;
     strategy := strategy cm; enable_compression := enable_compression cm;
     cache := cache cm;
     access_order := access_order cm;
     frequency_counter := f;
     hits := hits cm; misses := misses cm; evictions := evictions cm;
     compressions := compressions cm |}.

Definition with_counters (cm : SmartCacheManager) (h m e c : Z)
  : SmartCacheManager :=
  {| max_size := max_size cm; default_ttl := default_ttl cm;
     strategy := strategy cm; enable_compression := enable_compression cm;
     cache := cache cm;
     access_order := access_order cm;
     frequency_counter := frequency_counter cm;
     hits := h; misses := m; evictions := e; compressions := c |}.

Definition add_hit (cm : SmartCacheManager) : SmartCacheManager :=
  with_counters cm (hits cm + 1) (misses cm) (evictions cm) (compressions cm).

Definition add_miss (cm : SmartCacheManager) : SmartCacheManager :=
  with_counters cm (hits cm) (misses cm + 1) (evictions cm) (compressions cm).

Definition add_eviction (cm : SmartCacheManager) : SmartCacheManager :=
  with_counters cm (hits cm) (misses cm) (evictions cm + 1) (compressions cm).

Definition add_compression (cm : SmartCacheManager) : SmartCacheManager :=
  with_counters cm (hits cm) (misses cm) (evictions cm) (compressions cm + 1).

Definition is_LRU (s : CacheStrategy) : bool :=
  match s with LRU => true | _ => false end.

Definition is_LFU (s : CacheStrategy) : bool :=
  match s with LFU => true | _ => false end.

(** [delete] *)
Definition delete (key : string) (cm : SmartCacheManager)
  : bool * SmartCacheManager :=
  if negb (dict_mem key (cache cm)) then (false, cm)
  else
    let cm1 := with_cache cm (dict_del key (cache cm)) in
    let cm2 :=
      if list_mem key (access_order cm1)
      then with_access_order cm1 (list_remove key (access_order cm1))
      else cm1 in
    let cm3 :=
      if dict_mem key (frequency_counter cm2)
      then with_frequency_counter cm2 (dict_del key (frequency_counter cm2))
      else cm2 in
    (true, cm3).

(** One round of the LRU loop of [_evict_entries]. *)
Definition evict_lru_step (cm : SmartCacheManager) : SmartCacheManager :=
  match access_order cm with
  | [] => cm
  | oldest_key :: rest =>
      let cm1 := with_access_order cm rest in
      if dict_mem oldest_key (cache cm1)
      then add_eviction (with_cache cm1 (dict_del oldest_key (cache cm1)))
      else cm1
  end.

(** One round of its LFU loop. *)
Definition evict_lfu_step (cm : SmartCacheManager) (key : string)
  : SmartCacheManager :=
  if dict_mem key (cache cm)
  then
    add_eviction
      (with_frequency_counter
         (with_cache cm (dict_del key (cache cm)))
         (dict_del key (frequency_counter cm)))
  else cm.

(** One round of its two TTL loops. *)
Definition evict_ttl_step (cm : SmartCacheManager) (key : string)
  : SmartCacheManager :=
  add_eviction (snd (delete key cm)).

(** [_evict_entries], the clock at [now]. *)
Definition _evict_entries (now : Z) (count : Z) (cm : SmartCacheManager)
  : SmartCacheManager :=
  match strategy cm with
  | LRU =>
      Nat.iter (Z.to_nat (Z.min count (len (access_order cm))))
        evict_lru_step cm
  | LFU =>
      match frequency_counter cm with
      | [] => cm
      | _ =>
          let sorted_by_freq := sorted snd (frequency_counter cm) in
          fold_left evict_lfu_step
            (map fst (slice_to count sorted_by_freq)) cm
      end
  | TTL =>
      let expired_keys :=
        map fst (filter (fun kv => is_expired now (snd kv)) (cache cm)) in
      let cm1 :=
        fold_left evict_ttl_step (slice_to count expired_keys) cm in
      let remaining := count - len expired_keys in
      if 0 <? remaining then
        let oldest_entries :=
          sorted (fun kv => created_at (snd kv)) (cache cm1) in
        fold_left evict_ttl_step
          (map fst (slice_to remaining oldest_entries)) cm1
      else cm1
  | WRITE_THROUGH | WRITE_BEHIND => cm
  end.

(** [cleanup_expired], the clock at [now]; the number of deleted entries
    is only logged. *)
Definition cleanup_expired (now : Z) (cm : SmartCacheManager)
  : SmartCacheManager :=
  let expired_keys :=
    map fst (filter (fun kv => is_expired now (snd kv)) (cache cm)) in
  fold_left (fun cm key => snd (delete key cm)) expired_keys cm.

(** [ttl or self.default_ttl]: a [ttl] of [None] or of zero is false. *)
Definition ttl_or_default (ttl default_ttl : option Z) : option Z :=
  match ttl with
  | None => default_ttl
  | Some d => if d =? 0 then default_ttl else Some d
  end.

Section WithSerializer.

Context {serializer : Serializer}.

(** [_compress_if_needed] *)
Definition _compress_if_needed (v : pyval) (cm : SmartCacheManager)
  : pyval * SmartCacheManager :=
  if negb (enable_compression cm) then (v, cm)
  else
    let serialized := pickle_dumps v in
    if 1024 <? len serialized then
      let compressed := gzip_compress serialized in
      (VDict [("_compressed", VBool true); ("_data", VBytes compressed)],
       add_compression cm)
    else (v, cm).

(** [_decompress_if_needed]; [value["_data"]] raises [KeyError] when the
    key is missing.  [gzip.decompress(None)] is [b''], on which
    [pickle.loads] raises [EOFError]; on any other value that is not
    bytes [gzip.decompress] raises [TypeError]. *)
Definition _decompress_if_needed (v : pyval) : result pyval :=
  match v with
  | VDict d =>
      if match dict_get "_compressed" d with
         | Some flag => truthy flag
         | None => false
         end
      then
        match dict_get "_data" d with
        | None => Raise (KeyError "_data")
        | Some (VBytes data) =>
            match gzip_decompress data with
            | Raise e => Raise e
            | Ok decompressed_data => pickle_loads decompressed_data
            end
        | Some VNone => Raise EOFError
        | Some _ => Raise TypeError
        end
      else Ok v
  | _ => Ok v
  end.

(** [get], the clock at [now]. *)
Definition get (now : Z) (key : string) (cm : SmartCacheManager)
  : result pyval * SmartCacheManager :=
  match dict_get key (cache cm) with
  | None => (Ok VNone, add_miss cm)
  | Some entry =>
      if is_expired now entry then
        (Ok VNone, add_miss (snd (delete key cm)))
      else
        let entry1 :=
          {| value := value entry;
             created_at := created_at entry;
             accessed_at := now;
             access_count := access_count entry + 1;
             ttl := ttl entry |} in
        let cm1 := with_cache cm (dict_set key entry1 (cache cm)) in
        let cm2 :=
          if is_LRU (strategy cm1) then
            with_access_order cm1
              ((if list_mem key (access_order cm1)
                then list_remove key (access_order cm1)
                else access_order cm1) ++ [key])
          else cm1 in
        let cm3 :=
          if is_LFU (strategy cm2) then
            with_frequency_counter cm2
              (dict_set key
                 (match dict_get key (frequency_counter cm2) with
                  | Some n => n
                  | None => 0
                  end + 1)
                 (frequency_counter cm2))
          else cm2 in
        (_decompress_if_needed (value entry1), add_hit cm3)
  end.

(** [set], the clock at [now]; both branches on [force] evict. *)
Definition set (now : Z) (key : string) (v : pyval) (ttl : option Z)
    (force : bool) (cm : SmartCacheManager) : bool * SmartCacheManager :=
  let cm0 :=
    if (max_size cm <=? len (cache cm)) && negb (dict_mem key (cache cm))
    then
      if negb force then _evict_entries now 1 cm
      else _evict_entries now 1 cm
    else cm in
  let '(compressed_value, cm1) := _compress_if_needed v cm0 in
  let entry :=
    {| value := compressed_value;
       created_at := now;
       accessed_at := now;
       access_count := 1;
       ttl := ttl_or_default ttl (default_ttl cm1) |} in
  let was_update := dict_mem key (cache cm1) in
  let cm2 := with_cache cm1 (dict_set key entry (cache cm1)) in
  let cm3 :=
    if is_LRU (strategy cm2) then
      with_access_order cm2
        ((if list_mem key (access_order cm2)
          then list_remove key (access_order cm2)
          else access_order cm2) ++ [key])
    else cm2 in
  let cm4 :=
    if is_LFU (strategy cm3) then
      if negb was_update
      then with_frequency_counter cm3 (dict_set key 1 (frequency_counter cm3))
      else cm3
    else cm3 in
  (true, cm4).

(** The first step of [set]: the state after the eviction, when there is
    one. *)
Definition before_store (now : Z) (key : string) (cm : SmartCacheManager)
  : SmartCacheManager :=
  if (max_size cm <=? len (cache cm)) && negb (dict_mem key (cache cm))
  then _evict_entries now 1 cm
  else cm.

(** The entry that [set] builds in that state. *)
Definition stored_entry (now : Z) (v : pyval) (ttl : option Z)
    (cm0 : SmartCacheManager) : CacheEntry :=
  {| value := fst (_compress_if_needed v cm0);
     created_at := now;
     accessed_at := now;
     access_count := 1;
     ttl := ttl_or_default ttl (default_ttl cm0) |}.

(** The operations of the public interface, with their clock reading. *)
Inductive operation : Type :=
| OpSet (now : Z) (key : string) (v : pyval) (ttl : option Z) (force : bool)
| OpGet (now : Z) (key : string)
| OpDelete (key : string).

Definition run_op (op : operation) (cm : SmartCacheManager)
  : SmartCacheManager :=
  match op with
  | OpSet now key v ttl force => snd (set now key v ttl force cm)
  | OpGet now key => snd (get now key cm)
  | OpDelete key => snd (delete key cm)
  end.

Definition run_ops (ops : list operation) (cm : SmartCacheManager)
  : SmartCacheManager :=
  fold_left (fun cm op => run_op op cm) ops cm.

(** The key an operation is about, and the kind of the operation. *)
Definition op_key (op : operation) : string :=
  match op with
  | OpSet _ key _ _ _ => key
  | OpGet _ key => key
  | OpDelete key => key
  end.

Definition is_set (op : operation) : bool :=
  match op with OpSet _ _ _ _ _ => true | _ => false end.

Definition is_get (op : operation) : bool :=
  match op with OpGet _ _ => true | _ => false end.

(** The [wrapper] that [cached(key_func, ttl, cache_manager)] puts around
    a function: [cache_key] is the key computed from the arguments,
    [func] what the function returns or raises when it is awaited, [now]
    and [later] the clock at the [get] and at the [set]. *)
Definition cached_wrapper (ttl : option Z) (cache_key : string)
    (now later : Z) (func : result pyval) (cm : SmartCacheManager)
  : result pyval * SmartCacheManager * list event :=
  match get now cache_key cm with
  | (Raise e, cm1) => (Raise e, cm1, [])
  | (Ok cached_result, cm1) =>
      if negb (is_None cached_result) then (Ok cached_result, cm1, [])
      else
        match func with
        | Raise e => (Raise e, cm1, [EvFunc])
        | Ok r =>
            let cm2 := snd (set later cache_key r ttl false cm1) in
            (Ok r, cm2, [EvFunc])
        end
  end.

(** The second half of the wrapper, after [get] has answered [None]: the
    function is executed and what it returns is stored. *)
Definition after_none (ttl : option Z) (cache_key : string) (later : Z)
    (func : result pyval) (cm1 : SmartCacheManager)
  : result pyval * SmartCacheManager * list event :=
  match func with
  | Raise e => (Raise e, cm1, [EvFunc])
  | Ok r => (Ok r, snd (set later cache_key r ttl false cm1), [EvFunc])
  end.

End WithSerializer.

(** The size of the key-to-entry mapping. *)
Definition size (cm : SmartCacheManager) : Z := len (cache cm).

(** The strategies for which [_evict_entries] has a branch. *)
Definition evicting (s : CacheStrategy) : bool :=
  match s with
  | LRU | LFU | TTL => true
  | WRITE_THROUGH | WRITE_BEHIND => false
  end.

(** [l1] lists, once each, the keys of [l2]. *)
Definition same_keys (l1 l2 : list string) : Prop :=
  NoDup l1 /\ forall k, In k l1 <-> In k l2.

(** The bookkeeping of a manager agrees with its mapping: under LRU the
    recency order lists the stored keys, under LFU the frequency counter
    has the stored keys. *)
Definition consistent (cm : SmartCacheManager) : Prop :=
  NoDup (keys (cache cm)) /\
  (strategy cm = LRU -> same_keys (access_order cm) (keys (cache cm))) /\
  (strategy cm = LFU ->
   same_keys (keys (frequency_counter cm)) (keys (cache cm))).

(** A dictionary with a true ["_compressed"] entry: what
    [_decompress_if_needed] takes for the wrapper of a compressed value. *)
Definition wrapper_like (v : pyval) : bool :=
  match v with
  | VDict d =>
      match dict_get "_compressed" d with
      | Some flag => truthy flag
      | None => false
      end
  | _ => false
  end.

(** The entry stored with [stored_ttl] at time [created] has not expired
    at time [now]. *)
Definition fresh (stored_ttl : option Z) (created now : Z) : Prop :=
  match stored_ttl with
  | None => True
  | Some d => now - created <= d
  end.

(** A consistent manager within its capacity. *)
Definition bounded (cm : SmartCacheManager) : Prop :=
  consistent cm /\ size cm <= max_size cm.

(** Two states of one manager: the constructor's arguments are the same. *)
Definition same_config (cm cm' : SmartCacheManager) : Prop :=
  max_size cm' = max_size cm /\
  default_ttl cm' = default_ttl cm /\
  strategy cm' = strategy cm /\
  enable_compression cm' = enable_compression cm.

End Cache.

(** ** A serializer to run the cache on *)

(** A small self-delimiting byte format for [pyval], with a parser, and a
    stored-block compression that only adds the two magic bytes of gzip.
    The model of the cache is independent of it. *)
Module SampleSerializer.

(** A length, in unary. *)
Fixpoint nat_bytes (n : nat) : list byte :=
  match n with
  | O => [x00]
  | S m => x01 :: nat_bytes m
  end.

Definition str_bytes (s : string) : list byte :=
  nat_bytes (String.length s) ++ list_byte_of_string s.

Fixpoint dumps (v : pyval) : list byte :=
  match v with
  | VNone => [x4e]
  | VBool b => [if b then x54 else x46]
  | VInt z => x49 :: (if z <? 0 then x2d else x2b) :: nat_bytes (Z.abs_nat z)
  | VStr s => x53 :: str_bytes s
  | VBytes b => x42 :: nat_bytes (length b) ++ b
  | VList l => x4c :: nat_bytes (length l) ++ flat_map dumps l
  | VDict d =>
      x44 :: nat_bytes (length d)
      ++ flat_map (fun kv : string * pyval =>
                    let (k, x) := kv in str_bytes k ++ dumps x) d
  end.

Fixpoint read_nat (bs : list byte) : option (nat * list byte) :=
  match bs with
  | [] => None
  | b :: rest =>
      if Byte.eqb b x00 then Some (O, rest)
      else if Byte.eqb b x01 then
        match read_nat rest with
        | Some (n, rest') => Some (S n, rest')
        | None => None
        end
      else None
  end.

Definition read_bytes (bs : list byte) : option (list byte * list byte) :=
  match read_nat bs with
  | Some (n, rest) =>
      if (length rest <? n)%nat then None
      else Some (firstn n rest, skipn n rest)
  | None => None
  end.

Fixpoint parse (fuel : nat) (bs : list byte) : option (pyval * list byte) :=
  match fuel with
  | O => None
  | S fuel' =>
      match bs with
      | [] => None
      | tag :: rest =>
          if Byte.eqb tag x4e then Some (VNone, rest)
          else if Byte.eqb tag x54 then Some (VBool true, rest)
          else if Byte.eqb tag x46 then Some (VBool false, rest)
          else if Byte.eqb tag x49 then
            match rest with
            | sign :: digits =>
                match read_nat digits with
                | Some (n, rest') =>
                    Some (VInt (if Byte.eqb sign x2d then - Z.of_nat n
                                else Z.of_nat n), rest')
                | None => None
                end
            | [] => None
            end
          else if Byte.eqb tag x53 then
            match read_bytes rest with
            | Some (s, rest') => Some (VStr (string_of_list_byte s), rest')
            | None => None
            end
          else if Byte.eqb tag x42 then
            match read_bytes rest with
            | Some (b, rest') => Some (VBytes b, rest')
            | None => None
            end
          else if Byte.eqb tag x4c then
            match read_nat rest with
            | Some (n, rest') =>
                match
                  (fix items (n : nat) (bs : list byte)
                     : option (list pyval * list byte) :=
                     match n with
                     | O => Some ([], bs)
                     | S m =>
                         match parse fuel' bs with
                         | Some (x, bs') =>
                             match items m bs' with
                             | Some (xs, bs'') => Some (x :: xs, bs'')
                             | None => None
                             end
                         | None => None
                         end
                     end) n rest'
                with
                | Some (xs, rest'') => Some (VList xs, rest'')
                | None => None
                end
            | None => None
            end
          else if Byte.eqb tag x44 then
            match read_nat rest with
            | Some (n, rest') =>
                match
                  (fix items (n : nat) (bs : list byte)
                     : option (list (string * pyval) * list byte) :=
                     match n with
                     | O => Some ([], bs)
                     | S m =>
                         match read_bytes bs with
                         | Some (k, bs1) =>
                             match parse fuel' bs1 with
                             | Some (x, bs') =>
                                 match items m bs' with
                                 | Some (xs, bs'') =>
                                     Some ((string_of_list_byte k, x) :: xs,
                                           bs'')
                                 | None => None
                                 end
                             | None => None
                             end
                         | None => None
                         end
                     end) n rest'
                with
                | Some (xs, rest'') => Some (VDict xs, rest'')
                | None => None
                end
            | None => None
            end
          else None
      end
  end.

Definition loads (bs : list byte) : result pyval :=
  match parse (S (length bs)) bs with
  | Some (v, []) => Ok v
  | _ => Raise UnpicklingError
  end.

Definition compress (bs : list byte) : list byte := x1f :: x8b :: bs.

Definition decompress (bs : list byte) : result (list byte) :=
  match bs with
  | m1 :: m2 :: rest =>
      if Byte.eqb m1 x1f && Byte.eqb m2 x8b then Ok rest
      else Raise BadGzipFile
  | _ => Raise BadGzipFile
  end.

Definition serializer : Serializer :=
  {| pickle_dumps := dumps;
     pickle_loads := loads;
     gzip_compress := compress;
     gzip_decompress := decompress |}.

(** A value of 2000 bytes. *)
Definition large_value : pyval := VBytes (repeat x2a 2000).

(** A small dictionary that looks like the wrapper of a compressed value,
    here of the compressed number 42. *)
Definition wrapper_like_value : pyval :=
  VDict [("_compressed", VBool true);
         ("_data", VBytes (compress (dumps (VInt 42))))].

(** Operations on three keys, with reads and a deletion in between. *)
Definition sample_ops : list Cache.operation :=
  [Cache.OpSet 0 "a" (VInt 1) None false;
   Cache.OpSet 1 "b" large_value (Some 5) true;
   Cache.OpGet 2 "a";
   Cache.OpSet 3 "c" (VInt 3) None false;
   Cache.OpGet 9 "b";
   Cache.OpDelete "a";
   Cache.OpSet 10 "d" VNone (Some 0) false;
   Cache.OpSet 11 "e" (VStr "x") None false].

(** An LFU cache of capacity 2 in which "a" was read twice and "b"
    once. *)
Definition lfu_sample : Cache.SmartCacheManager :=
  Cache.run_ops (serializer := serializer)
    [Cache.OpSet 0 "a" (VInt 1) None false;
     Cache.OpSet 1 "b" (VInt 2) None false;
     Cache.OpGet 2 "a"; Cache.OpGet 3 "a"; Cache.OpGet 4 "b"]
    (Cache.new_cache 2 (Some 3600) Cache.LFU true).

(** A TTL cache of capacity 3 in which "b" lives for 5 units. *)
Definition ttl_sample : Cache.SmartCacheManager :=
  Cache.run_ops (serializer := serializer)
    [Cache.OpSet 0 "a" (VInt 1) (Some 100) false;
     Cache.OpSet 1 "b" (VInt 2) (Some 5) false;
     Cache.OpSet 2 "c" (VInt 3) None false]
    (Cache.new_cache 3 (Some 3600) Cache.TTL false).

(** Four [set]s of distinct keys. *)
Definition four_sets : list Cache.operation :=
  [Cache.OpSet 0 "a" (VInt 1) None false;
   Cache.OpSet 1 "b" (VInt 2) None false;
   Cache.OpSet 2 "c" (VInt 3) None true;
   Cache.OpSet 3 "d" (VInt 4) (Some 7) false].

(** A cache in which the key "k" holds [None]. *)
Definition cache_with_none : Cache.SmartCacheManager :=
  snd (Cache.set (serializer := serializer) 0 "k" VNone None false
         (Cache.new_cache 10 (Some 3600) Cache.LRU true)).

End SampleSerializer.

(** * Properties *)

(** ** The failure-statistics window *)

Section WindowFacts.
Import Breaker.

Lemma skipn_S_tl {A : Type} (k : nat) (l : list A) :
  skipn (S k) l = tl (skipn k l).
Proof.
  revert l; induction k as [|k IH]; intros [|x l]; simpl; auto.
  rewrite <- IH. reflexivity.
Qed.

Lemma length_lastn {A : Type} (n : nat) (l : list A) :
  length (lastn n l) = Nat.min n (length l).
Proof. unfold lastn. rewrite length_skipn. lia. Qed.

Lemma lastn_short {A : Type} (n : nat) (l : list A) :
  (length l <= n)%nat -> lastn n l = l.
Proof.
  intros H. unfold lastn.
  replace (length l - n)%nat with 0%nat by lia. reflexivity.
Qed.

(** Pushing on a window that is not full keeps everything. *)
Lemma lastn_snoc_room {A : Type} (n : nat) (l : list A) (x : A) :
  (length (lastn n l) < n)%nat -> lastn n (l ++ [x]) = lastn n l ++ [x].
Proof.
  intros H. rewrite length_lastn in H.
  rewrite (lastn_short n l) by lia.
  apply lastn_short. rewrite length_app. simpl. lia.
Qed.

(** Pushing on a full window drops its first element. *)
Lemma lastn_snoc_full {A : Type} (n : nat) (l : list A) (x : A) :
  (1 <= n)%nat -> (n <= length (lastn n l))%nat ->
  lastn n (l ++ [x]) = tl (lastn n l) ++ [x].
Proof.
  intros Hn H. rewrite length_lastn in H.
  unfold lastn. rewrite length_app. simpl.
  replace (length l + 1 - n)%nat with (S (length l - n)) by lia.
  rewrite skipn_app.
  replace (S (length l - n) - length l)%nat with 0%nat by lia.
  simpl skipn at 2. rewrite skipn_S_tl. reflexivity.
Qed.

Lemma count_true_snoc (l : list bool) (b : bool) :
  count_true (l ++ [b]) = count_true l + (if b then 1 else 0).
Proof.
  unfold count_true, len. rewrite filter_app, length_app.
  destruct b; simpl; lia.
Qed.

Lemma count_false_snoc (l : list bool) (b : bool) :
  count_false (l ++ [b]) = count_false l + (if b then 0 else 1).
Proof.
  unfold count_false, len. rewrite filter_app, length_app.
  destruct b; simpl; lia.
Qed.

Lemma count_true_cons (b : bool) (l : list bool) :
  count_true (b :: l) = (if b then 1 else 0) + count_true l.
Proof.
  unfold count_true, len. destruct b; cbn [filter length negb]; lia.
Qed.

Lemma count_false_cons (b : bool) (l : list bool) :
  count_false (b :: l) = (if b then 0 else 1) + count_false l.
Proof.
  unfold count_false, len. destruct b; cbn [filter length negb]; lia.
Qed.

Lemma count_true_false (l : list bool) :
  count_true l + count_false l = len l.
Proof.
  unfold count_true, count_false, len.
  rewrite <- Nat2Z.inj_add. f_equal.
  induction l as [|[|] l IH]; simpl; lia.
Qed.

Lemma count_false_bounds (l : list bool) : 0 <= count_false l <= len l.
Proof.
  pose proof (count_true_false l).
  unfold count_true, count_false, len in *. lia.
Qed.

Lemma record_preserves (N : Z) (h : list bool) (s : CircuitBreakerStats)
    (op : bool * Z) :
  1 <= N -> window_inv N h s ->
  exists s', record op s = Ok s' /\ window_inv N (h ++ [fst op]) s'.
Proof.
  intros HN (Hw & Hr & Hs & Hf).
  assert (Hlen : (length (requests s) <= Z.to_nat N)%nat).
  { rewrite Hr, length_lastn. lia. }
  destruct op as [b t]. unfold record, record_success, record_failure,
    _add_request. simpl fst; simpl snd.
  rewrite Hw. unfold len.
  destruct (N <=? Z.of_nat (length (requests s))) eqn:Hfull.
  - apply Z.leb_le in Hfull.
    assert (Hsnoc : lastn (Z.to_nat N) (h ++ [b])
                    = tl (requests s) ++ [b]).
    { rewrite Hr. apply lastn_snoc_full; [lia|]. rewrite <- Hr. lia. }
    destruct (requests s) as [|removed rest] eqn:Hreq.
    + simpl in Hfull. lia.
    + simpl in Hsnoc.
      destruct b; eexists; (split; [reflexivity|]);
        unfold window_inv; simpl; rewrite Hsnoc;
        rewrite count_true_snoc, count_false_snoc;
        repeat split; auto;
        rewrite ?Hs, ?Hf, ?count_true_cons, ?count_false_cons;
        destruct removed; lia.
  - apply Z.leb_gt in Hfull.
    assert (Hsnoc : lastn (Z.to_nat N) (h ++ [b]) = requests s ++ [b]).
    { rewrite Hr. apply lastn_snoc_room. rewrite <- Hr. lia. }
    destruct b; eexists; (split; [reflexivity|]);
      unfold window_inv; simpl; rewrite Hsnoc;
      rewrite count_true_snoc, count_false_snoc;
      repeat split; auto; rewrite ?Hs, ?Hf; lia.
Qed.

Lemma record_all_preserves (N : Z) (ops : list (bool * Z)) :
  1 <= N -> forall h s, window_inv N h s ->
  exists s', record_all ops s = Ok s' /\ window_inv N (h ++ map fst ops) s'.
Proof.
  intros HN. induction ops as [|op ops IH]; intros h s Hinv; simpl.
  - exists s. rewrite app_nil_r. auto.
  - destruct (record_preserves N h s op HN Hinv) as (s1 & E1 & Hinv1).
    rewrite E1. destruct (IH _ _ Hinv1) as (s2 & E2 & Hinv2).
    exists s2. split; auto. rewrite <- app_assoc in Hinv2. exact Hinv2.
Qed.

Lemma failure_rate_bounds (s : CircuitBreakerStats) :
  failure_count s = count_false (requests s) ->
  (0 <= failure_rate s)%Q /\ (failure_rate s <= 1)%Q.
Proof.
  intros Hf. unfold failure_rate.
  pose proof (count_false_bounds (requests s)) as [H0 H1].
  destruct (len (requests s) =? 0) eqn:E.
  - split; [apply Qle_refl | discriminate].
  - apply Z.eqb_neq in E.
    assert (Hpos : (0 < inject_Z (len (requests s)))%Q).
    { rewrite <- (Zlt_Qlt 0). lia. }
    split.
    + apply Qle_shift_div_l; auto. rewrite Qmult_0_l.
      rewrite <- (Zle_Qle 0). lia.
    + apply Qle_shift_div_r; auto. rewrite Qmult_1_l.
      rewrite <- Zle_Qle. lia.
Qed.

(** C7: in a window of capacity [N >= 1], after any sequence of
    [record_success] and [record_failure] the window holds the last [N]
    outcomes (at most [N] of them, the oldest dropped first), both running
    counters equal the number of successes and of failures in the window,
    and [failure_rate] is [failure_count] over the window length, between
    0 and 1. *)
Theorem C7_failure_window_invariant (N : Z) (ops : list (bool * Z)) :
  1 <= N ->
  exists s,
    record_all ops (new_stats N) = Ok s /\
    requests s = lastn (Z.to_nat N) (map fst ops) /\
    total_requests s <= N /\
    success_count s = count_true (requests s) /\
    failure_count s = count_false (requests s) /\
    (0 <= failure_rate s)%Q /\ (failure_rate s <= 1)%Q /\
    (total_requests s <> 0 ->
     failure_rate s
     = (inject_Z (failure_count s) / inject_Z (total_requests s))%Q).
Proof.
  intros HN.
  assert (Hinit : window_inv N [] (new_stats N)).
  { unfold window_inv, new_stats; simpl. repeat split; auto. }
  destruct (record_all_preserves N ops HN [] _ Hinit)
    as (s & E & Hw & Hr & Hs & Hf).
  simpl in Hr. exists s. split; [exact E|]. split; [exact Hr|].
  split.
  { unfold total_requests, len. rewrite Hr, length_lastn. lia. }
  split; [exact Hs|]. split; [exact Hf|].
  destruct (failure_rate_bounds s Hf) as [Hlo Hhi].
  split; [exact Hlo|]. split; [exact Hhi|].
  intros Hne. unfold failure_rate, total_requests in *.
  destruct (len (requests s) =? 0) eqn:E0; [|reflexivity].
  apply Z.eqb_eq in E0. contradiction.
Qed.

(** A window of capacity 3 after four failures and one success. *)
Lemma C7_failure_window_invariant_witness :
  exists s,
    record_all [(false, 1); (false, 2); (true, 3); (false, 4); (false, 5)]
      (new_stats 3) = Ok s /\
    requests s = [true; false; false] /\
    failure_count s = 2 /\ success_count s = 1.
Proof.
  destruct (C7_failure_window_invariant 3
    [(false, 1); (false, 2); (true, 3); (false, 4); (false, 5)])
    as (s & E & Hr & _ & Hs & Hf & _); [lia|].
  exists s. split; [exact E|]. rewrite Hs, Hf, Hr.
  repeat split; reflexivity.
Defined.

End WindowFacts.

(** ** The circuit breaker *)

Section BreakerFacts.
Import Breaker.

Variables A V : Type.

(** In a window of capacity at least 1 recording never raises. *)
Lemma add_request_ok (b : bool) (s : CircuitBreakerStats) :
  1 <= window_size s ->
  exists s', _add_request b s = Ok s' /\ window_size s' = window_size s /\
             len (requests s') <= Z.max (len (requests s)) (window_size s) /\
             (len (requests s) < window_size s ->
              requests s' = requests s ++ [b] /\
              failure_count s' = failure_count s /\
              success_count s' = success_count s).
Proof.
  intros Hw. unfold _add_request.
  destruct (window_size s <=? len (requests s)) eqn:E.
  - apply Z.leb_le in E. destruct (requests s) as [|r rest] eqn:Hr.
    + unfold len in E; simpl in E; lia.
    + eexists; split; [reflexivity|]. simpl. split; [reflexivity|].
      split; [|lia]. unfold len in *. rewrite length_app. simpl length. lia.
  - apply Z.leb_gt in E. eexists; split; [reflexivity|]. simpl.
    split; [reflexivity|]. split; [|auto].
    unfold len in *. rewrite length_app. simpl length. lia.
Qed.

Lemma record_success_ok (s : CircuitBreakerStats) :
  1 <= window_size s ->
  exists s', record_success s = Ok s' /\ window_size s' = window_size s.
Proof.
  intros Hw. unfold record_success.
  destruct (add_request_ok true s Hw) as (s1 & E & Hw1 & _).
  rewrite E. eexists; split; [reflexivity|]. exact Hw1.
Qed.

Lemma record_failure_ok (t : Z) (s : CircuitBreakerStats) :
  1 <= window_size s ->
  exists s', record_failure t s = Ok s' /\ window_size s' = window_size s /\
             (len (requests s) < window_size s ->
              requests s' = requests s ++ [false] /\
              failure_count s' = failure_count s + 1).
Proof.
  intros Hw. unfold record_failure.
  destruct (add_request_ok false s Hw) as (s1 & E & Hw1 & _ & Hroom).
  rewrite E. eexists; split; [reflexivity|]. simpl. split; [exact Hw1|].
  intros Hlt. destruct (Hroom Hlt) as (Hr & Hf & _). rewrite Hr, Hf. auto.
Qed.

(** A call that finds the circuit open after the state check answers with
    the fallback or the open-circuit error, changes nothing and does not
    invoke the operation. *)
Lemma call_while_open (now t1 t2 : Z) (func : outcome V) (args : A)
    (cb : CircuitBreaker A V) :
  state cb = OPEN ->
  now - last_state_change cb < recovery_timeout (config cb) ->
  call now t1 t2 func args cb = (open_answer cb args, cb, open_events cb).
Proof.
  intros Hst Hlt. unfold call, _check_state_transition. rewrite Hst.
  apply Z.leb_gt in Hlt. rewrite Hlt. rewrite Hst.
  unfold open_answer, open_events, _execute_fallback.
  destruct (fallback cb); reflexivity.
Qed.

Lemma call_all_while_open (calls : list (a_call A V))
    (cb : CircuitBreaker A V) :
  state cb = OPEN ->
  Forall (fun c => at_check c - last_state_change cb
                   < recovery_timeout (config cb)) calls ->
  call_all calls cb
  = (map (fun c => open_answer cb (arguments c)) calls, cb,
     flat_map (fun _ => open_events cb) calls).
Proof.
  intros Hst. induction 1 as [|c calls Hc _ IH].
  - reflexivity.
  - simpl. rewrite (call_while_open _ _ _ _ _ cb Hst Hc), IH. reflexivity.
Qed.

Lemma open_events_no_invocation (cb : CircuitBreaker A V)
    (calls : list (a_call A V)) :
  invocations (flat_map (fun _ => open_events cb) calls) = 0%nat.
Proof.
  unfold invocations, open_events.
  induction calls as [|c calls IH]; simpl; auto.
  rewrite filter_app, length_app, IH.
  destruct (fallback cb); reflexivity.
Qed.

(** A CLOSED breaker whose two counts have reached the threshold is opened
    by the state check of the next call; that call and every later call
    made before [recovery_timeout] has elapsed answer with the fallback or
    the open-circuit error, and none invokes the operation. *)
Lemma threshold_reached_opens_circuit (cb : CircuitBreaker A V)
    (now t1 t2 : Z) (func : outcome V) (args : A)
    (later : list (a_call A V)) :
  state cb = CLOSED ->
  failure_threshold (config cb) <= failure_count (stats cb) ->
  failure_threshold (config cb) <= total_requests (stats cb) ->
  Forall (fun c => at_check c - now < recovery_timeout (config cb)) later ->
  let cb1 := _check_state_transition now cb in
  state cb1 = OPEN /\
  last_state_change cb1 = now /\
  call now t1 t2 func args cb
  = (open_answer cb args, cb1, open_events cb) /\
  invocations (open_events cb) = 0%nat /\
  (exists evs,
     call_all later cb1
     = (map (fun c => open_answer cb (arguments c)) later, cb1, evs) /\
     invocations evs = 0%nat).
Proof.
  intros Hst Hf Ht Hlater cb1.
  assert (Hcb1 : cb1 = with_state cb OPEN now (half_open_success_count cb)).
  { unfold cb1, _check_state_transition. rewrite Hst.
    apply Z.leb_le in Hf, Ht. rewrite Hf, Ht. reflexivity. }
  assert (Hopen : state cb1 = OPEN) by (rewrite Hcb1; reflexivity).
  assert (Hchg : last_state_change cb1 = now) by (rewrite Hcb1; reflexivity).
  assert (Hans : open_answer cb1 = open_answer cb)
    by (rewrite Hcb1; reflexivity).
  assert (Hevs : open_events cb1 = open_events cb)
    by (rewrite Hcb1; reflexivity).
  split; [exact Hopen|]. split; [exact Hchg|]. split.
  { unfold call. fold cb1. rewrite Hopen. rewrite <- Hans, <- Hevs.
    unfold open_answer, open_events, _execute_fallback.
    destruct (fallback cb1); reflexivity. }
  split.
  { unfold invocations, open_events. destruct (fallback cb); reflexivity. }
  exists (flat_map (fun _ => open_events cb1) later). split.
  - rewrite <- Hans. apply call_all_while_open; [exact Hopen|].
    rewrite Hchg. replace (config cb1) with (config cb)
      by (rewrite Hcb1; reflexivity).
    exact Hlater.
  - apply open_events_no_invocation.
Qed.

(** A window that ends with [k] failures counts at least [k] failures
    among at least [k] outcomes. *)
Lemma trailing_failures_counted (pre : list bool) (k : nat) :
  Z.of_nat k <= count_false (pre ++ repeat false k) /\
  Z.of_nat k <= len (pre ++ repeat false k).
Proof.
  assert (H : filter negb (repeat false k) = repeat false k).
  { induction k as [|k IH]; simpl; congruence. }
  unfold count_false, len.
  rewrite filter_app, !length_app, H, repeat_length. lia.
Qed.

(** Recording a failure in a window that ends with [k] failures, [k] below
    the capacity, gives a window that ends with [k + 1] failures: what is
    dropped from a full window lies before them. *)
Lemma record_failure_trailing (t : Z) (s : CircuitBreakerStats) (k : nat) :
  total_requests s <= window_size s ->
  failure_count s = count_false (requests s) ->
  (exists pre, requests s = pre ++ repeat false k) ->
  Z.of_nat k < window_size s ->
  exists s',
    record_failure t s = Ok s' /\
    window_size s' = window_size s /\
    total_requests s' <= window_size s' /\
    failure_count s' = count_false (requests s') /\
    exists pre', requests s' = pre' ++ repeat false (S k).
Proof.
  intros Hle Hfc (pre & Hpre) Hk.
  assert (Hsnoc : forall l : list bool,
            (l ++ repeat false k) ++ [false] = l ++ repeat false (S k)).
  { intros l. rewrite <- app_assoc. f_equal. symmetry. apply repeat_cons. }
  unfold record_failure, _add_request, total_requests in *.
  destruct (window_size s <=? len (requests s)) eqn:E.
  - apply Z.leb_le in E. destruct pre as [|removed pre'].
    + exfalso. rewrite Hpre in E. unfold len in E.
      cbn [app] in E. rewrite repeat_length in E. lia.
    + rewrite Hpre. cbn [app]. eexists. split; [reflexivity|].
      cbn [window_size requests failure_count].
      split; [reflexivity|].
      assert (Hlen : len ((pre' ++ repeat false k) ++ [false])
                     = len (requests s)).
      { rewrite Hpre. unfold len. cbn [app length].
        rewrite length_app. cbn [length]. lia. }
      split; [lia|]. split.
      * rewrite count_false_snoc, Hfc, Hpre. cbn [app].
        rewrite count_false_cons. destruct removed; lia.
      * exists pre'. apply Hsnoc.
  - apply Z.leb_gt in E. eexists. split; [reflexivity|].
    cbn [window_size requests failure_count].
    split; [reflexivity|]. split.
    { unfold len in *. rewrite length_app. cbn [length]. lia. }
    split.
    + rewrite count_false_snoc, Hfc. lia.
    + exists pre. rewrite Hpre. apply Hsnoc.
Qed.

(** Recording a failure adds at most one to [failure_count]. *)
Lemma record_failure_count_le (t : Z) (s : CircuitBreakerStats) :
  1 <= window_size s ->
  exists s',
    record_failure t s = Ok s' /\
    window_size s' = window_size s /\
    failure_count s <= failure_count s' <= failure_count s + 1.
Proof.
  intros Hw. unfold record_failure, _add_request.
  destruct (window_size s <=? len (requests s)) eqn:E.
  - apply Z.leb_le in E. destruct (requests s) as [|removed rest] eqn:Hr.
    + unfold len in E. cbn [length] in E. lia.
    + eexists. split; [reflexivity|].
      cbn [window_size failure_count]. split; [reflexivity|].
      destruct removed; lia.
  - eexists. split; [reflexivity|].
    cbn [window_size failure_count]. split; [reflexivity|]. lia.
Qed.

(** A call never changes the configuration. *)
Lemma call_keeps_config (now t1 t2 : Z) (func : outcome V) (args : A)
    (cb : CircuitBreaker A V) :
  config (snd (fst (call now t1 t2 func args cb))) = config cb.
Proof.
  assert (Hchk : config (_check_state_transition now cb) = config cb).
  { unfold _check_state_transition.
    destruct (state cb); repeat match goal with
      | |- context [if ?c then _ else _] => destruct c end; reflexivity. }
  assert (Hfail : forall cb1 cb2 : CircuitBreaker A V,
            _on_failure t1 t2 cb1 = Ok cb2 -> config cb2 = config cb1).
  { intros cb1 cb2. unfold _on_failure.
    destruct (record_failure t1 (stats cb1)) as [s1|]; [|discriminate].
    destruct (state (with_stats cb1 s1)); intros H; inversion H; reflexivity. }
  assert (Hexc : forall (e : exn) (cb1 : CircuitBreaker A V),
            config (snd (handle_exception t1 t2 e cb1)) = config cb1).
  { intros e cb1. unfold handle_exception.
    destruct (expected_exception (config cb1) e).
    - destruct (_on_failure t1 t2 cb1) as [cb2|] eqn:E; [|reflexivity].
      exact (Hfail _ _ E).
    - destruct e; try reflexivity.
      destruct (_on_failure t1 t2 cb1) as [cb2|] eqn:E; [|reflexivity].
      exact (Hfail _ _ E). }
  unfold call. set (cb1 := _check_state_transition now cb) in *.
  assert (Hok : forall cb2 : CircuitBreaker A V,
            _on_success t1 cb1 = Ok cb2 -> config cb2 = config cb1).
  { intros cb2. unfold _on_success.
    destruct (record_success (stats cb1)) as [s1|]; [|discriminate].
    cbn [state with_stats config half_open_success_count].
    destruct (state cb1);
      try (intros H; inversion H; reflexivity).
    destruct (success_threshold (config cb1)
              <=? half_open_success_count cb1 + 1);
      intros H; inversion H; reflexivity. }
  destruct (state cb1).
  - destruct func as [v|e|]; cbn [fst snd].
    + destruct (_on_success t1 cb1) as [cb2|]; cbn [fst snd].
      * rewrite (Hok _ eq_refl). exact Hchk.
      * rewrite Hexc. exact Hchk.
    + rewrite Hexc. exact Hchk.
    + rewrite Hexc. exact Hchk.
  - destruct (fallback cb1); cbn [fst snd]; exact Hchk.
  - destruct func as [v|e|]; cbn [fst snd].
    + destruct (_on_success t1 cb1) as [cb2|]; cbn [fst snd].
      * rewrite (Hok _ eq_refl). exact Hchk.
      * rewrite Hexc. exact Hchk.
    + rewrite Hexc. exact Hchk.
    + rewrite Hexc. exact Hchk.
Qed.

(** A failure in HALF_OPEN never closes the circuit. *)
Lemma on_failure_not_closed (t1 t2 : Z) (e : exn)
    (cb : CircuitBreaker A V) :
  state cb = HALF_OPEN ->
  (expected_exception (config cb) e = true \/ e = AsyncioTimeoutError) ->
  state (snd (handle_exception t1 t2 e cb)) <> CLOSED.
Proof.
  intros Hst He.
  assert (Hfail : forall cb2 : CircuitBreaker A V,
            _on_failure t1 t2 cb = Ok cb2 -> state cb2 = OPEN).
  { intros cb2. unfold _on_failure.
    destruct (record_failure t1 (stats cb)) as [s1|]; [|discriminate].
    cbn [state with_stats]. rewrite Hst.
    intros H; inversion H; reflexivity. }
  unfold handle_exception.
  destruct (expected_exception (config cb) e) eqn:Hexp.
  - destruct (_on_failure t1 t2 cb) as [cb2|]; cbn [snd].
    + rewrite (Hfail _ eq_refl). discriminate.
    + rewrite Hst. discriminate.
  - destruct He as [He|He]; [discriminate|]. subst e.
    destruct (_on_failure t1 t2 cb) as [cb2|]; cbn [snd].
    + rewrite (Hfail _ eq_refl). discriminate.
    + rewrite Hst. discriminate.
Qed.

(** A failing call on a breaker that is not CLOSED leaves it so: it is
    rejected, or it is a probe that fails and re-opens the circuit. *)
Lemma failing_call_not_closed (c : a_call A V) (cb : CircuitBreaker A V) :
  state cb <> CLOSED ->
  classified_failure (config cb) c ->
  state (snd (fst (call (at_check c) (at_record c) (at_change c)
                     (operation c) (arguments c) cb))) <> CLOSED.
Proof.
  intros Hst Hc. unfold classified_failure in Hc. unfold call.
  set (cb1 := _check_state_transition (at_check c) cb).
  assert (Hcb1 : state cb1 = OPEN \/
                 (state cb1 = HALF_OPEN /\ config cb1 = config cb)).
  { unfold cb1, _check_state_transition.
    destruct (state cb) eqn:E; [contradiction| |].
    - destruct (recovery_timeout (config cb)
                <=? at_check c - last_state_change cb).
      + right. split; reflexivity.
      + left. exact E.
    - right. split; [exact E | reflexivity]. }
  destruct Hcb1 as [Hopen | [Hhalf Hcfg]].
  - rewrite Hopen. destruct (fallback cb1); cbn [fst snd];
      rewrite Hopen; discriminate.
  - rewrite Hhalf. destruct (operation c) as [v|e|]; [contradiction| |];
      cbn [fst snd]; apply on_failure_not_closed; auto.
    left. rewrite Hcfg. exact Hc.
Qed.

Lemma failing_calls_not_closed (calls : list (a_call A V)) :
  forall cb : CircuitBreaker A V,
  state cb <> CLOSED ->
  Forall (classified_failure (config cb)) calls ->
  state (snd (fst (call_all calls cb))) <> CLOSED.
Proof.
  induction calls as [|c calls IH]; intros cb Hst Hall.
  - exact Hst.
  - inversion Hall as [|c' cs Hc Hrest]; subst.
    pose proof (failing_call_not_closed c cb Hst Hc) as Hst1.
    pose proof (call_keeps_config (at_check c) (at_record c) (at_change c)
                  (operation c) (arguments c) cb) as Hcfg1.
    cbn [call_all].
    destruct (call (at_check c) (at_record c) (at_change c)
                (operation c) (arguments c) cb) as [[r cb1] ev].
    cbn [fst snd] in Hst1, Hcfg1.
    rewrite <- Hcfg1 in Hrest. specialize (IH cb1 Hst1 Hrest).
    destruct (call_all calls cb1) as [[rs cb2] evs].
    exact IH.
Qed.

(** A failing call on a CLOSED breaker: the state check opens the circuit
    and the call is rejected, or the operation is invoked and its failure
    recorded with the circuit still CLOSED. *)
Lemma failing_call_closed (c : a_call A V) (cb : CircuitBreaker A V) :
  state cb = CLOSED ->
  1 <= window_size (stats cb) ->
  classified_failure (config cb) c ->
  let out := call (at_check c) (at_record c) (at_change c)
               (operation c) (arguments c) cb in
  (failure_threshold (config cb) <= failure_count (stats cb) /\
   state (snd (fst out)) = OPEN) \/
  (state (snd (fst out)) = CLOSED /\
   snd out = [EvFunc] /\
   record_failure (at_record c) (stats cb) = Ok (stats (snd (fst out)))).
Proof.
  intros Hst Hw Hc. unfold classified_failure in Hc. cbv zeta.
  unfold call, _check_state_transition. rewrite Hst.
  destruct ((failure_threshold (config cb) <=? failure_count (stats cb))
            && (failure_threshold (config cb) <=? total_requests (stats cb)))
    eqn:Eopen.
  - left. apply andb_true_iff in Eopen. destruct Eopen as [Ef _].
    apply Z.leb_le in Ef. split; [exact Ef|].
    cbn [state with_state fallback]. destruct (fallback cb); reflexivity.
  - right. rewrite Hst.
    destruct (record_failure_count_le (at_record c) (stats cb) Hw)
      as (s1 & E & _).
    assert (Hfail : _on_failure (at_record c) (at_change c) cb
                    = Ok (with_stats cb s1)).
    { unfold _on_failure. rewrite E. cbn [state with_stats].
      rewrite Hst. reflexivity. }
    destruct (operation c) as [v|e|]; [contradiction| |];
      unfold handle_exception.
    + rewrite Hc, Hfail. cbn. rewrite Hst, E. auto.
    + rewrite Hfail.
      destruct (expected_exception (config cb) AsyncioTimeoutError);
        cbn; rewrite Hst, E; auto.
Qed.

(** Failing calls that leave the circuit CLOSED were all let through and
    recorded: the window ends with one more failure for each of them, as
    long as they fit in the window. *)
Lemma failing_run_recorded (calls : list (a_call A V)) :
  forall (cb0 : CircuitBreaker A V) (k : nat)
         (rs : list (result V)) (cb : CircuitBreaker A V)
         (evs : list event),
  total_requests (stats cb0) <= window_size (stats cb0) ->
  failure_count (stats cb0) = count_false (requests (stats cb0)) ->
  (exists pre, requests (stats cb0) = pre ++ repeat false k) ->
  Z.of_nat (k + length calls) <= window_size (stats cb0) ->
  Forall (classified_failure (config cb0)) calls ->
  call_all calls cb0 = (rs, cb, evs) ->
  state cb = CLOSED ->
  config cb = config cb0 /\
  invocations evs = length calls /\
  failure_count (stats cb) = count_false (requests (stats cb)) /\
  exists pre, requests (stats cb) = pre ++ repeat false (k + length calls).
Proof.
  induction calls as [|c calls IH];
    intros cb0 k rs cb evs Hle Hfc Hpre Hroom Hall Hcall Hst.
  - cbn [call_all] in Hcall. inversion Hcall; subst.
    rewrite Nat.add_0_r. auto.
  - destruct (CircuitState_eqb (state cb0) CLOSED) eqn:Hst0.
    2:{ exfalso.
        apply (failing_calls_not_closed (c :: calls) cb0);
          [destruct (state cb0); discriminate || (intros H; discriminate)
          | exact Hall | rewrite Hcall; exact Hst]. }
    assert (Hcl : state cb0 = CLOSED)
      by (destruct (state cb0); (reflexivity || discriminate)).
    clear Hst0. inversion Hall as [|c' cs Hc Hrest]; subst.
    cbn [length] in Hroom.
    assert (Hw : 1 <= window_size (stats cb0)) by lia.
    pose proof (failing_call_closed c cb0 Hcl Hw Hc) as Hstep.
    pose proof (call_keeps_config (at_check c) (at_record c) (at_change c)
                  (operation c) (arguments c) cb0) as Hcfg1.
    cbv zeta in Hstep. cbn [call_all] in Hcall.
    destruct (call (at_check c) (at_record c) (at_change c)
                (operation c) (arguments c) cb0) as [[r cb1] ev].
    cbn [fst snd] in Hstep, Hcfg1.
    rewrite <- Hcfg1 in Hrest.
    destruct (call_all calls cb1) as [[rs' cb2] evs'] eqn:Erest.
    inversion Hcall; subst.
    destruct Hstep as [[_ Hopen] | (Hst1 & Hev & Hrec)].
    + exfalso. apply (failing_calls_not_closed calls cb1);
        [rewrite Hopen; discriminate | exact Hrest
        | rewrite Erest; exact Hst].
    + destruct (record_failure_trailing (at_record c) (stats cb0) k
                  Hle Hfc Hpre) as (s1 & E & Hw1 & Hle1 & Hfc1 & Hpre1);
        [lia|].
      rewrite Hrec in E. inversion E as [Hs1]. rewrite <- Hs1 in *.
      destruct (IH cb1 (S k) rs' cb evs' Hle1 Hfc1 Hpre1)
        as (Hcfg & Hinv & Hfc' & Hpre'); auto.
      { rewrite Hw1. lia. }
      subst ev. split; [congruence|]. split.
      { unfold invocations in *. cbn [app filter is_EvFunc length]. lia. }
      split; [exact Hfc'|]. cbn [length].
      replace (k + S (length calls))%nat with (S k + length calls)%nat
        by lia.
      exact Hpre'.
Qed.

(** Failing calls on a CLOSED breaker leave it CLOSED as long as the
    failures counted before each of them are below the threshold. *)
Lemma failing_run_stays_closed (calls : list (a_call A V)) :
  forall cb0 : CircuitBreaker A V,
  state cb0 = CLOSED ->
  failure_threshold (config cb0) <= window_size (stats cb0) ->
  0 <= failure_count (stats cb0) ->
  failure_count (stats cb0) + len calls <= failure_threshold (config cb0) ->
  Forall (classified_failure (config cb0)) calls ->
  state (snd (fst (call_all calls cb0))) = CLOSED.
Proof.
  induction calls as [|c calls IH]; intros cb0 Hst HFW H0 Hthr Hall.
  - exact Hst.
  - inversion Hall as [|c' cs Hc Hrest]; subst.
    unfold len in Hthr. cbn [length] in Hthr.
    assert (Hw : 1 <= window_size (stats cb0)) by lia.
    pose proof (failing_call_closed c cb0 Hst Hw Hc) as Hstep.
    pose proof (call_keeps_config (at_check c) (at_record c) (at_change c)
                  (operation c) (arguments c) cb0) as Hcfg1.
    cbv zeta in Hstep. cbn [call_all].
    destruct (call (at_check c) (at_record c) (at_change c)
                (operation c) (arguments c) cb0) as [[r cb1] ev].
    cbn [fst snd] in Hstep, Hcfg1.
    destruct Hstep as [[Hf _] | (Hst1 & _ & Hrec)]; [lia|].
    destruct (record_failure_count_le (at_record c) (stats cb0) Hw)
      as (s1 & E & Hw1 & Hlo & Hhi).
    rewrite Hrec in E. inversion E as [Hs1]. rewrite <- Hs1 in *.
    rewrite <- Hcfg1 in Hrest.
    specialize (IH cb1 Hst1).
    destruct (call_all calls cb1) as [[rs cb2] evs].
    cbn [fst snd] in *.
    apply IH; try exact Hrest; rewrite ?Hcfg1; unfold len; lia.
Qed.

(** [failure_threshold] failing calls in a row on a breaker whose
    statistics are as its calls keep them (the window within its capacity,
    [failure_count] the number of failures in it) and whose threshold is
    at most the capacity of the window.  If the window held no failure and
    the circuit was CLOSED before them, the circuit is CLOSED after them;
    and whenever it is CLOSED after them, each of them was let through and
    recorded, both counts have reached the threshold, and the next call
    opens the circuit. *)
Lemma failing_run_opens_circuit
    (cb0 cb : CircuitBreaker A V) (calls later : list (a_call A V))
    (rs : list (result V)) (evs : list event)
    (now t1 t2 : Z) (func : outcome V) (args : A) :
  failure_threshold (config cb0) <= window_size (stats cb0) ->
  total_requests (stats cb0) <= window_size (stats cb0) ->
  failure_count (stats cb0) = count_false (requests (stats cb0)) ->
  length calls = Z.to_nat (failure_threshold (config cb0)) ->
  Forall (classified_failure (config cb0)) calls ->
  call_all calls cb0 = (rs, cb, evs) ->
  Forall (fun c => at_check c - now < recovery_timeout (config cb0)) later ->
  (state cb0 = CLOSED -> failure_count (stats cb0) = 0 ->
   state cb = CLOSED) /\
  (state cb = CLOSED ->
   invocations evs = length calls /\
   failure_threshold (config cb) <= failure_count (stats cb) /\
   failure_threshold (config cb) <= total_requests (stats cb) /\
   let cb1 := _check_state_transition now cb in
   state cb1 = OPEN /\
   last_state_change cb1 = now /\
   call now t1 t2 func args cb
   = (open_answer cb args, cb1, open_events cb) /\
   invocations (open_events cb) = 0%nat /\
   (exists evs',
      call_all later cb1
      = (map (fun c => open_answer cb (arguments c)) later, cb1, evs') /\
      invocations evs' = 0%nat)).
Proof.
  intros HFW Hle Hfc Hlen Hall Hcall Hlater.
  assert (Hroom : Z.of_nat (length calls) <= window_size (stats cb0)).
  { unfold total_requests, len in Hle. rewrite Hlen. lia. }
  split.
  - intros Hst0 Hzero.
    destruct (Z_le_gt_dec 0 (failure_threshold (config cb0))) as [Hpos|Hneg].
    + pose proof (failing_run_stays_closed calls cb0 Hst0 HFW) as Hrun.
      rewrite Hcall in Hrun. apply Hrun; [lia | | exact Hall].
      unfold len. rewrite Hlen. lia.
    + destruct calls as [|c calls]; [|cbn [length] in Hlen; lia].
      cbn [call_all] in Hcall. inversion Hcall; subst. exact Hst0.
  - intros Hst.
    destruct (failing_run_recorded calls cb0 0 rs cb evs Hle Hfc)
      as (Hcfg & Hinv & Hfc' & pre & Hpre); auto.
    { exists (requests (stats cb0)). cbn [repeat]. rewrite app_nil_r.
      reflexivity. }
    cbn [Nat.add] in Hpre.
    destruct (trailing_failures_counted pre (length calls)) as [Hcf Hcl].
    rewrite <- Hpre in Hcf, Hcl. rewrite <- Hfc' in Hcf.
    assert (Hf : failure_threshold (config cb) <= failure_count (stats cb))
      by (rewrite Hcfg, Hlen in *; lia).
    assert (Ht : failure_threshold (config cb) <= total_requests (stats cb))
      by (unfold total_requests; rewrite Hcfg, Hlen in *; lia).
    split; [exact Hinv|]. split; [exact Hf|]. split; [exact Ht|].
    apply threshold_reached_opens_circuit; auto.
    rewrite Hcfg. exact Hlater.
Qed.

(** Recording an outcome keeps the window within its capacity and
    [failure_count] equal to the number of failures in it. *)
Lemma record_keeps_window (t : Z) (s s' : CircuitBreakerStats) :
  1 <= window_size s ->
  total_requests s <= window_size s ->
  failure_count s = count_false (requests s) ->
  record_success s = Ok s' \/ record_failure t s = Ok s' ->
  window_size s' = window_size s /\
  total_requests s' <= window_size s' /\
  failure_count s' = count_false (requests s').
Proof.
  intros Hw Hle Hfc Hrec.
  assert (Hadd : forall (b : bool) (s1 : CircuitBreakerStats),
            _add_request b s = Ok s1 ->
            window_size s1 = window_size s /\
            total_requests s1 <= window_size s1 /\
            failure_count s1 + (if b then 0 else 1)
            = count_false (requests s1)).
  { intros b s1. unfold _add_request, total_requests in *.
    destruct (window_size s <=? len (requests s)) eqn:E.
    - apply Z.leb_le in E.
      destruct (requests s) as [|removed rest] eqn:Hr; [discriminate|].
      intros H; inversion H; subst s1; clear H.
      cbn [window_size requests failure_count].
      split; [reflexivity|]. rewrite count_false_snoc.
      rewrite count_false_cons in Hfc. unfold len in *.
      rewrite length_app. cbn [length] in *.
      split; [lia|]. destruct removed, b; lia.
    - apply Z.leb_gt in E.
      intros H; inversion H; subst s1; clear H.
      cbn [window_size requests failure_count].
      split; [reflexivity|]. rewrite count_false_snoc.
      unfold len in *. rewrite length_app. cbn [length].
      split; [lia|]. destruct b; lia. }
  destruct Hrec as [Hrec|Hrec].
  - unfold record_success in Hrec.
    destruct (_add_request true s) as [s1|] eqn:E; [|discriminate].
    destruct (Hadd true s1 E) as (H1 & H2 & H3).
    inversion Hrec; subst s'; clear Hrec.
    cbn [window_size requests failure_count total_requests] in *.
    repeat split; auto; lia.
  - unfold record_failure in Hrec.
    destruct (_add_request false s) as [s1|] eqn:E; [|discriminate].
    destruct (Hadd false s1 E) as (H1 & H2 & H3).
    inversion Hrec; subst s'; clear Hrec.
    cbn [window_size requests failure_count total_requests] in *.
    repeat split; auto; lia.
Qed.

(** What a call does to the statistics: nothing, or one recording. *)
Lemma call_stats_cases (now t1 t2 : Z) (func : outcome V) (args : A)
    (cb : CircuitBreaker A V) :
  let cb' := snd (fst (call now t1 t2 func args cb)) in
  stats cb' = stats cb \/
  record_success (stats cb) = Ok (stats cb') \/
  record_failure t1 (stats cb) = Ok (stats cb').
Proof.
  cbv zeta.
  assert (Hchk : stats (_check_state_transition now cb) = stats cb).
  { unfold _check_state_transition.
    destruct (state cb); repeat match goal with
      | |- context [if ?c then _ else _] => destruct c end; reflexivity. }
  unfold call. set (cb1 := _check_state_transition now cb) in *.
  rewrite <- Hchk.
  assert (Hfail : forall cb2 : CircuitBreaker A V,
            _on_failure t1 t2 cb1 = Ok cb2 ->
            record_failure t1 (stats cb1) = Ok (stats cb2)).
  { intros cb2. unfold _on_failure.
    destruct (record_failure t1 (stats cb1)) as [s1|]; [|discriminate].
    destruct (state (with_stats cb1 s1)); intros H; inversion H; reflexivity. }
  assert (Hexc : forall e : exn,
            stats (snd (handle_exception t1 t2 e cb1)) = stats cb1 \/
            record_failure t1 (stats cb1)
            = Ok (stats (snd (handle_exception t1 t2 e cb1)))).
  { intros e. unfold handle_exception.
    destruct (expected_exception (config cb1) e).
    - destruct (_on_failure t1 t2 cb1) as [cb2|]; cbn [snd];
        [right; exact (Hfail _ eq_refl) | left; reflexivity].
    - destruct e; try (left; reflexivity).
      destruct (_on_failure t1 t2 cb1) as [cb2|]; cbn [snd];
        [right; exact (Hfail _ eq_refl) | left; reflexivity]. }
  assert (Hok : forall cb2 : CircuitBreaker A V,
            _on_success t1 cb1 = Ok cb2 ->
            record_success (stats cb1) = Ok (stats cb2)).
  { intros cb2. unfold _on_success.
    destruct (record_success (stats cb1)) as [s1|]; [|discriminate].
    cbn [state with_stats config half_open_success_count].
    destruct (state cb1);
      try (intros H; inversion H; reflexivity).
    destruct (success_threshold (config cb1)
              <=? half_open_success_count cb1 + 1);
      intros H; inversion H; reflexivity. }
  assert (Hrun : stats (snd (fst
                   match func with
                   | Returns v =>
                       match _on_success t1 cb1 with
                       | Ok cb2 => (Ok v, cb2, [EvFunc])
                       | Raise e => (handle_exception t1 t2 e cb1, [EvFunc])
                       end
                   | Raises e => (handle_exception t1 t2 e cb1, [EvFunc])
                   | TimesOut =>
                       (handle_exception t1 t2 AsyncioTimeoutError cb1,
                        [EvFunc])
                   end)) = stats cb1 \/
                 record_success (stats cb1)
                 = Ok (stats (snd (fst
                   match func with
                   | Returns v =>
                       match _on_success t1 cb1 with
                       | Ok cb2 => (Ok v, cb2, [EvFunc])
                       | Raise e => (handle_exception t1 t2 e cb1, [EvFunc])
                       end
                   | Raises e => (handle_exception t1 t2 e cb1, [EvFunc])
                   | TimesOut =>
                       (handle_exception t1 t2 AsyncioTimeoutError cb1,
                        [EvFunc])
                   end))) \/
                 record_failure t1 (stats cb1)
                 = Ok (stats (snd (fst
                   match func with
                   | Returns v =>
                       match _on_success t1 cb1 with
                       | Ok cb2 => (Ok v, cb2, [EvFunc])
                       | Raise e => (handle_exception t1 t2 e cb1, [EvFunc])
                       end
                   | Raises e => (handle_exception t1 t2 e cb1, [EvFunc])
                   | TimesOut =>
                       (handle_exception t1 t2 AsyncioTimeoutError cb1,
                        [EvFunc])
                   end)))).
  { destruct func as [v|e|]; cbn [fst snd].
    - destruct (_on_success t1 cb1) as [cb2|e]; cbn [fst snd].
      + right. left. exact (Hok _ eq_refl).
      + destruct (Hexc e) as [H|H]; auto.
    - destruct (Hexc e) as [H|H]; auto.
    - destruct (Hexc AsyncioTimeoutError) as [H|H]; auto. }
  destruct (state cb1); try exact Hrun.
  destruct (fallback cb1); cbn [fst snd]; left; reflexivity.
Qed.

(** Calls keep the configuration and the capacity of the window, fill
    the window within its capacity, and keep [failure_count] equal to the
    number of failures in it. *)
Lemma call_all_keeps_window (calls : list (a_call A V)) :
  forall cb : CircuitBreaker A V,
  1 <= window_size (stats cb) ->
  total_requests (stats cb) <= window_size (stats cb) ->
  failure_count (stats cb) = count_false (requests (stats cb)) ->
  let cb' := snd (fst (call_all calls cb)) in
  config cb' = config cb /\
  window_size (stats cb') = window_size (stats cb) /\
  total_requests (stats cb') <= window_size (stats cb') /\
  failure_count (stats cb') = count_false (requests (stats cb')).
Proof.
  induction calls as [|c calls IH]; intros cb Hw Hle Hfc; cbv zeta.
  - cbn [call_all fst snd]. auto.
  - pose proof (call_stats_cases (at_check c) (at_record c) (at_change c)
                  (operation c) (arguments c) cb) as Hcases.
    pose proof (call_keeps_config (at_check c) (at_record c) (at_change c)
                  (operation c) (arguments c) cb) as Hcfg1.
    cbv zeta in Hcases. cbn [call_all].
    destruct (call (at_check c) (at_record c) (at_change c)
                (operation c) (arguments c) cb) as [[r cb1] ev].
    cbn [fst snd] in Hcases, Hcfg1.
    assert (H1 : window_size (stats cb1) = window_size (stats cb) /\
                 total_requests (stats cb1) <= window_size (stats cb1) /\
                 failure_count (stats cb1)
                 = count_false (requests (stats cb1))).
    { destruct Hcases as [Hsame | Hrec].
      - rewrite Hsame. auto.
      - exact (record_keeps_window (at_record c) _ _ Hw Hle Hfc Hrec). }
    destruct H1 as (Hw1 & Hle1 & Hfc1).
    assert (Hw1' : 1 <= window_size (stats cb1)) by (rewrite Hw1; exact Hw).
    specialize (IH cb1 Hw1' Hle1 Hfc1). cbv zeta in IH.
    destruct (call_all calls cb1) as [[rs cb2] evs].
    cbn [fst snd] in *.
    destruct IH as (Hcfg & Hw2 & Hle2 & Hfc2).
    repeat split; auto; congruence.
Qed.

(** C1, for a threshold that fits in the outcome window.  Take any breaker
    built by the constructor with a [failure_threshold] of at most 100,
    the capacity of its window, after any calls made on it, and make
    [failure_threshold] failing calls in a row on it.  If the circuit was
    CLOSED with no failure in the window before them, it is CLOSED after
    them.  Whenever it is CLOSED after them, each of them invoked the
    operation and was recorded, [failure_count] and [total_requests] have
    reached the threshold, and the state check of the next call opens the
    circuit; that call and every later call made before
    [recovery_timeout] has elapsed return the fallback's result when a
    fallback is configured and raise the open-circuit error otherwise,
    leave the breaker OPEN, and never invoke the wrapped operation. *)
Theorem C1_failures_within_window_open_circuit
    (name : string) (cfg : CircuitBreakerConfig)
    (fb : option (A -> result V)) (t0 : Z)
    (earlier calls later : list (a_call A V))
    (now t1 t2 : Z) (func : outcome V) (args : A) :
  failure_threshold cfg <= 100 ->
  length calls = Z.to_nat (failure_threshold cfg) ->
  Forall (classified_failure cfg) calls ->
  Forall (fun c => at_check c - now < recovery_timeout cfg) later ->
  let cb0 := snd (fst (call_all earlier (new_breaker name cfg fb t0))) in
  let cb := snd (fst (call_all calls cb0)) in
  let evs := snd (call_all calls cb0) in
  (state cb0 = CLOSED -> failure_count (stats cb0) = 0 ->
   state cb = CLOSED) /\
  (state cb = CLOSED ->
   invocations evs = length calls /\
   failure_threshold cfg <= failure_count (stats cb) /\
   failure_threshold cfg <= total_requests (stats cb) /\
   let cb1 := _check_state_transition now cb in
   state cb1 = OPEN /\
   last_state_change cb1 = now /\
   call now t1 t2 func args cb
   = (open_answer cb args, cb1, open_events cb) /\
   invocations (open_events cb) = 0%nat /\
   (exists evs',
      call_all later cb1
      = (map (fun c => open_answer cb (arguments c)) later, cb1, evs') /\
      invocations evs' = 0%nat)).
Proof.
  intros HF Hlen Hall Hlater cb0 cb evs.
  destruct (call_all_keeps_window earlier (new_breaker name cfg fb t0))
    as (Hcfg0 & Hw0 & Hle0 & Hfc0);
    [cbn; lia | unfold total_requests, len; cbn; lia | reflexivity |].
  fold cb0 in Hcfg0, Hw0, Hle0, Hfc0.
  change (config (new_breaker name cfg fb t0)) with cfg in Hcfg0.
  change (window_size (stats (new_breaker name cfg fb t0))) with 100 in Hw0.
  rewrite <- Hcfg0 in HF, Hlen, Hall, Hlater.
  rewrite <- Hw0 in HF.
  assert (Hcall : call_all calls cb0
                  = (fst (fst (call_all calls cb0)), cb, evs)).
  { unfold cb, evs. destruct (call_all calls cb0) as [[rs cb'] evs'].
    reflexivity. }
  destruct (failing_run_opens_circuit cb0 cb calls later _ evs
              now t1 t2 func args HF Hle0 Hfc0 Hlen Hall Hcall Hlater)
    as (Hclosed & Hopen).
  split; [exact Hclosed|]. intros Hst.
  destruct (Hopen Hst) as (Hinv & Hf & Ht & Hrest).
  assert (Hcfg : config cb = cfg).
  { rewrite <- Hcfg0. unfold cb.
    apply (call_all_keeps_window calls cb0); [lia | exact Hle0 | exact Hfc0]. }
  rewrite Hcfg in Hf, Ht. auto.
Qed.

(** X1: consecutive failing calls on a CLOSED breaker whose window holds
    failures only, as long as they fit in the window and do not pass the
    threshold: the circuit is still CLOSED after them, every operation
    was invoked, and both counts have grown by the number of calls. *)
Lemma consecutive_failures_fill_window
    (calls : list (a_call A V)) :
  forall cb : CircuitBreaker A V,
  state cb = CLOSED ->
  failure_count (stats cb) = len (requests (stats cb)) ->
  1 <= window_size (stats cb) ->
  len (requests (stats cb)) + len calls <= window_size (stats cb) ->
  len (requests (stats cb)) + len calls <= failure_threshold (config cb) ->
  Forall (classified_failure (config cb)) calls ->
  exists rs cb' evs,
    call_all calls cb = (rs, cb', evs) /\
    state cb' = CLOSED /\ config cb' = config cb /\
    failure_count (stats cb') = failure_count (stats cb) + len calls /\
    total_requests (stats cb') = total_requests (stats cb) + len calls /\
    invocations evs = length calls.
Proof.
  induction calls as [|[now t1 t2 func args] calls IH];
    intros cb Hst Hfc Hw Hroom Hthr Hall.
  - exists [], cb, []. unfold len; simpl. repeat split; auto; lia.
  - inversion Hall as [|c cs Hc Hrest]; subst.
    assert (Hlen : len (Build_a_call now t1 t2 func args :: calls)
                   = 1 + len calls).
    { unfold len. simpl length. lia. }
    rewrite Hlen in *.
    assert (Hnn : 0 <= len calls) by (unfold len; lia).
    assert (Hcheck : _check_state_transition now cb = cb).
    { unfold _check_state_transition. rewrite Hst.
      replace (failure_threshold (config cb) <=? failure_count (stats cb))
        with false; [reflexivity|].
      symmetry. apply Z.leb_gt. lia. }
    destruct (record_failure_ok t1 (stats cb) Hw)
      as (s1 & Es1 & Hw1 & Hs1).
    destruct Hs1 as (Hr1 & Hf1); [lia|].
    set (cb1 := with_stats cb s1).
    assert (Hfail : _on_failure t1 t2 cb = Ok cb1).
    { unfold _on_failure. rewrite Es1. simpl. rewrite Hst. reflexivity. }
    assert (Hcall : exists r,
               call now t1 t2 func args cb = (r, cb1, [EvFunc])).
    { unfold call. rewrite Hcheck, Hst. unfold classified_failure in Hc.
      simpl in Hc. destruct func as [v|e|]; [contradiction| |].
      - unfold handle_exception. rewrite Hc, Hfail. eexists; reflexivity.
      - unfold handle_exception. rewrite Hfail.
        destruct (expected_exception (config cb) AsyncioTimeoutError);
          eexists; reflexivity. }
    destruct Hcall as (r & Hcall).
    assert (Hlen1 : len (requests s1) = len (requests (stats cb)) + 1).
    { rewrite Hr1. unfold len. rewrite length_app. simpl length. lia. }
    destruct (IH cb1) as (rs & cb' & evs & E & Hst' & Hcfg & Hf' & Ht' & Hinv).
    + exact Hst.
    + simpl. lia.
    + simpl. lia.
    + simpl. lia.
    + simpl. lia.
    + exact Hrest.
    + exists (r :: rs), cb', (EvFunc :: evs).
      simpl call_all. rewrite Hcall, E.
      change (config cb1) with (config cb) in Hcfg.
      change (stats cb1) with s1 in *.
      unfold total_requests in *. rewrite Hf', Ht', Hf1, Hlen1.
      repeat split; auto; try lia.
      unfold invocations in *. cbn [app filter is_EvFunc length]. lia.
Qed.

End BreakerFacts.

(** C1, at the Google Books configuration: three failing calls on a new
    breaker leave it CLOSED; the call at time 4 opens the circuit and is
    answered by the fallback, as is the call at time 10. *)
Lemma C1_failures_within_window_open_circuit_witness :
  let cb0 :=
    Breaker.new_breaker "google_books" Breaker.google_books_config
      (Some (fun isbn : Z => Ok (A := Z) isbn)) 0 in
  let cb := snd (fst (Breaker.call_all Breaker.three_failing_calls cb0)) in
  Breaker.state cb = Breaker.CLOSED /\
  Breaker.state (Breaker._check_state_transition 4 cb) = Breaker.OPEN /\
  fst (Breaker.call 4 5 6 (Returns 7) 9 cb)
  = (Ok 9, Breaker._check_state_transition 4 cb).
Proof.
  cbv zeta.
  destruct (C1_failures_within_window_open_circuit Z Z
              "google_books" Breaker.google_books_config
              (Some (fun isbn : Z => Ok (A := Z) isbn)) 0
              [] Breaker.three_failing_calls
              [Breaker.Build_a_call 10 11 12 (Returns 8) 9]
              4 5 6 (Returns 7) 9)
    as (Hclosed & Hopen).
  - vm_compute. discriminate.
  - reflexivity.
  - repeat constructor.
  - constructor; [vm_compute; reflexivity | constructor].
  - pose proof (Hclosed eq_refl eq_refl) as Hst.
    destruct (Hopen Hst) as (_ & _ & _ & H1 & _ & H3 & _).
    split; [exact Hst|]. split; [exact H1 | exact (f_equal fst H3)].
Defined.

(** C1 as stated fails for a threshold above the 100 outcomes of the
    window.  With [failure_threshold = 101], 101 failing calls in a row
    on a new breaker all invoke the operation and are recorded, yet the
    window holds 100 outcomes, [failure_count] is 100, the state check of
    the next call leaves the circuit CLOSED, and that call invokes the
    operation. *)
Lemma C1_threshold_above_window_counterexample :
  let cb0 := Breaker.breaker_above_window in
  let out := Breaker.call_all Breaker.failing_calls_101 cb0 in
  let cb := snd (fst out) in
  Breaker.failure_threshold (Breaker.config cb0) = 101 /\
  length Breaker.failing_calls_101 = 101%nat /\
  Forall (Breaker.classified_failure (Breaker.config cb0))
    Breaker.failing_calls_101 /\
  invocations (snd out) = 101%nat /\
  Breaker.state cb = Breaker.CLOSED /\
  Breaker.failure_count (Breaker.stats cb) = 100 /\
  Breaker.total_requests (Breaker.stats cb) = 100 /\
  Breaker.state (Breaker._check_state_transition 102 cb) = Breaker.CLOSED /\
  Breaker.state (Breaker._check_state_transition 102 cb) <> Breaker.OPEN /\
  fst (fst (Breaker.call 102 102 102 (Returns 7) 9 cb)) = Ok 7 /\
  snd (Breaker.call 102 102 102 (Returns 7) 9 cb) = [EvFunc].
Proof.
  cbv zeta.
  assert (Hall : Forall (Breaker.classified_failure
                           (Breaker.config Breaker.breaker_above_window))
                   Breaker.failing_calls_101).
  { apply Forall_forall. intros c Hc.
    unfold Breaker.failing_calls_101, Breaker.calls_from in Hc.
    apply in_map_iff in Hc. destruct Hc as (i & <- & _). reflexivity. }
  assert (Hst : Breaker.state
                  (Breaker._check_state_transition 102
                     (snd (fst (Breaker.call_all Breaker.failing_calls_101
                                  Breaker.breaker_above_window))))
                = Breaker.CLOSED) by (vm_compute; reflexivity).
  repeat split; try exact Hall; try (vm_compute; reflexivity).
  rewrite Hst. discriminate.
Qed.

Section BreakerTransitions.
Import Breaker.

Variables A V : Type.

(** When the configured exception class covers [asyncio.TimeoutError], the
    first [except] clause of [call] takes the timeout: the failure is
    recorded and the raw timeout error is raised again. *)
Lemma timeout_caught_by_expected_clause (now t1 t2 : Z) (args : A)
    (cb : CircuitBreaker A V) :
  state (_check_state_transition now cb) <> OPEN ->
  1 <= window_size (stats cb) ->
  expected_exception (config cb) AsyncioTimeoutError = true ->
  exists cb',
    call now t1 t2 TimesOut args cb
    = (Raise AsyncioTimeoutError, cb', [EvFunc]) /\
    _on_failure t1 t2 (_check_state_transition now cb) = Ok cb'.
Proof.
  intros Hst Hw Hexp. unfold call.
  set (cb1 := _check_state_transition now cb) in *.
  assert (Hcfg : config cb1 = config cb /\ stats cb1 = stats cb).
  { unfold cb1, _check_state_transition.
    destruct (state cb); repeat match goal with
      | |- context [if ?c then _ else _] => destruct c end; auto. }
  destruct Hcfg as [Hcfg Hstats].
  destruct (record_failure_ok t1 (stats cb1)) as (s1 & E & _);
    [rewrite Hstats; exact Hw|].
  assert (Hfail : exists cb', _on_failure t1 t2 cb1 = Ok cb').
  { unfold _on_failure. rewrite E.
    destruct (state (with_stats cb1 s1)); eexists; reflexivity. }
  destruct Hfail as (cb' & Hfail). exists cb'.
  unfold handle_exception. rewrite Hcfg, Hexp, Hfail.
  destruct (state cb1); [| exfalso; apply Hst; reflexivity |];
    (split; reflexivity).
Qed.

(** X2: when it does not, the second clause takes it: the failure is
    recorded and the breaker's own timeout exception is raised. *)
Lemma timeout_caught_by_timeout_clause (now t1 t2 : Z) (args : A)
    (cb : CircuitBreaker A V) :
  state (_check_state_transition now cb) <> OPEN ->
  1 <= window_size (stats cb) ->
  expected_exception (config cb) AsyncioTimeoutError = false ->
  exists cb',
    call now t1 t2 TimesOut args cb
    = (Raise (CircuitBreakerTimeoutException (timeout (config cb))),
       cb', [EvFunc]) /\
    _on_failure t1 t2 (_check_state_transition now cb) = Ok cb'.
Proof.
  intros Hst Hw Hexp. unfold call.
  set (cb1 := _check_state_transition now cb) in *.
  assert (Hcfg : config cb1 = config cb /\ stats cb1 = stats cb).
  { unfold cb1, _check_state_transition.
    destruct (state cb); repeat match goal with
      | |- context [if ?c then _ else _] => destruct c end; auto. }
  destruct Hcfg as [Hcfg Hstats].
  destruct (record_failure_ok t1 (stats cb1)) as (s1 & E & _);
    [rewrite Hstats; exact Hw|].
  assert (Hfail : exists cb', _on_failure t1 t2 cb1 = Ok cb').
  { unfold _on_failure. rewrite E.
    destruct (state (with_stats cb1 s1)); eexists; reflexivity. }
  destruct Hfail as (cb' & Hfail). exists cb'.
  unfold handle_exception. rewrite Hcfg, Hexp, Hfail.
  destruct (state cb1); [| exfalso; apply Hst; reflexivity |];
    (split; reflexivity).
Qed.

(** C5, at the default configuration: a new breaker built with
    [CircuitBreakerConfig()] whose operation times out records the failure
    and raises [asyncio.TimeoutError] itself, not
    [CircuitBreakerTimeoutException]; an operation that raises
    [asyncio.TimeoutError] on its own gets the same answer. *)
Theorem C5_timeout_under_default_config (name : string)
    (fb : option (A -> result V)) (t0 now t1 t2 : Z) (args : A) :
  let cb := new_breaker name default_config fb t0 in
  exists cb',
    call now t1 t2 TimesOut args cb
    = (Raise AsyncioTimeoutError, cb', [EvFunc]) /\
    call now t1 t2 (Raises AsyncioTimeoutError) args cb
    = (Raise AsyncioTimeoutError, cb', [EvFunc]) /\
    state cb' = CLOSED /\
    requests (stats cb') = [false] /\
    failure_count (stats cb') = 1 /\
    last_failure_time (stats cb') = Some t1.
Proof.
  intros cb. eexists. split; [reflexivity|].
  repeat split; reflexivity.
Qed.

Lemma on_success_half_open (t : Z) (cb : CircuitBreaker A V) :
  state cb = HALF_OPEN -> 1 <= window_size (stats cb) ->
  exists cb',
    _on_success t cb = Ok cb' /\
    config cb' = config cb /\
    window_size (stats cb') = window_size (stats cb) /\
    (half_open_success_count cb + 1 < success_threshold (config cb) ->
     state cb' = HALF_OPEN /\
     half_open_success_count cb' = half_open_success_count cb + 1) /\
    (success_threshold (config cb) <= half_open_success_count cb + 1 ->
     state cb' = CLOSED /\ half_open_success_count cb' = 0 /\
     last_state_change cb' = t).
Proof.
  intros Hst Hw. unfold _on_success.
  destruct (record_success_ok (stats cb) Hw) as (s1 & E & Hw1).
  rewrite E. cbn [state with_stats config half_open_success_count].
  rewrite Hst.
  destruct (success_threshold (config cb) <=? half_open_success_count cb + 1)
    eqn:Hthr.
  - apply Z.leb_le in Hthr. eexists; split; [reflexivity|].
    cbn. repeat split; auto; lia.
  - apply Z.leb_gt in Hthr. eexists; split; [reflexivity|].
    cbn. repeat split; auto; lia.
Qed.

Lemma on_failure_half_open (t1 t2 : Z) (cb : CircuitBreaker A V) :
  state cb = HALF_OPEN -> 1 <= window_size (stats cb) ->
  exists cb',
    _on_failure t1 t2 cb = Ok cb' /\
    state cb' = OPEN /\ half_open_success_count cb' = 0 /\
    last_state_change cb' = t2.
Proof.
  intros Hst Hw. unfold _on_failure.
  destruct (record_failure_ok t1 (stats cb) Hw) as (s1 & E & _).
  rewrite E. cbn [state with_stats]. rewrite Hst.
  eexists; split; [reflexivity|]. cbn. auto.
Qed.

(** Before the threshold is reached the breaker stays HALF_OPEN and counts
    the successes. *)
Lemma on_success_all_below (ts : list Z) :
  forall cb : CircuitBreaker A V,
  state cb = HALF_OPEN -> 1 <= window_size (stats cb) ->
  half_open_success_count cb + len ts < success_threshold (config cb) ->
  exists cb',
    on_success_all ts cb = Ok cb' /\
    state cb' = HALF_OPEN /\ config cb' = config cb /\
    1 <= window_size (stats cb') /\
    half_open_success_count cb' = half_open_success_count cb + len ts.
Proof.
  induction ts as [|t ts IH]; intros cb Hst Hw Hlt.
  - exists cb. unfold len; simpl. repeat split; auto; lia.
  - assert (Hlen : len (t :: ts) = 1 + len ts)
      by (unfold len; simpl length; lia).
    assert (Hnn : 0 <= len ts) by (unfold len; lia).
    rewrite Hlen in *.
    destruct (on_success_half_open t cb Hst Hw)
      as (cb1 & E1 & Hcfg1 & Hw1 & Hbelow & _).
    destruct Hbelow as [Hst1 Hcnt1]; [lia|].
    destruct (IH cb1) as (cb' & E & Hst' & Hcfg' & Hw' & Hcnt');
      [exact Hst1 | lia | rewrite Hcfg1; lia |].
    exists cb'. cbn [on_success_all]. rewrite E1, E.
    repeat split; auto; try congruence; lia.
Qed.

Lemma on_success_all_snoc (ts : list Z) (t : Z) :
  forall cb cbk cbS : CircuitBreaker A V,
  on_success_all ts cb = Ok cbk -> _on_success t cbk = Ok cbS ->
  on_success_all (ts ++ [t]) cb = Ok cbS.
Proof.
  induction ts as [|t0 ts IH]; intros cb cbk cbS E ES; simpl in *.
  - inversion E; subst. rewrite ES. reflexivity.
  - destruct (_on_success t0 cb) as [cb0|]; [|discriminate].
    exact (IH cb0 cbk cbS E ES).
Qed.

(** C6: an OPEN breaker whose recovery timeout has elapsed is moved to
    HALF_OPEN, with the half-open counter at 0, by the state check of the
    next call; from there, fewer than [success_threshold] successes in a
    row leave it HALF_OPEN, one failure at any such point re-opens it with
    the counter back at 0, and [success_threshold] successes in a row
    close it. *)
Theorem C6_half_open_recovery (cb : CircuitBreaker A V) (now : Z) :
  state cb = OPEN ->
  recovery_timeout (config cb) <= now - last_state_change cb ->
  1 <= window_size (stats cb) ->
  1 <= success_threshold (config cb) ->
  let cb1 := _check_state_transition now cb in
  state cb1 = HALF_OPEN /\
  half_open_success_count cb1 = 0 /\
  last_state_change cb1 = now /\
  (forall ts : list Z,
     len ts < success_threshold (config cb) ->
     exists cbk,
       on_success_all ts cb1 = Ok cbk /\
       state cbk = HALF_OPEN /\
       half_open_success_count cbk = len ts /\
       forall t1 t2 : Z,
       exists cbf,
         _on_failure t1 t2 cbk = Ok cbf /\
         state cbf = OPEN /\ half_open_success_count cbf = 0) /\
  (forall ts : list Z,
     len ts = success_threshold (config cb) ->
     exists cbS,
       on_success_all ts cb1 = Ok cbS /\
       state cbS = CLOSED /\ half_open_success_count cbS = 0).
Proof.
  intros Hst Hrec Hw HS cb1.
  assert (Hcb1 : cb1 = with_state cb HALF_OPEN now 0).
  { unfold cb1, _check_state_transition. rewrite Hst.
    apply Z.leb_le in Hrec. rewrite Hrec. reflexivity. }
  assert (Hst1 : state cb1 = HALF_OPEN) by (rewrite Hcb1; reflexivity).
  assert (Hc1 : half_open_success_count cb1 = 0)
    by (rewrite Hcb1; reflexivity).
  assert (Hcfg1 : config cb1 = config cb) by (rewrite Hcb1; reflexivity).
  assert (Hw1 : 1 <= window_size (stats cb1)) by (rewrite Hcb1; exact Hw).
  split; [exact Hst1|]. split; [exact Hc1|].
  split; [rewrite Hcb1; reflexivity|]. split.
  - intros ts Hlt.
    destruct (on_success_all_below ts cb1 Hst1 Hw1)
      as (cbk & E & Hstk & Hcfgk & Hwk & Hck);
      [rewrite Hc1, Hcfg1; lia|].
    exists cbk. split; [exact E|]. split; [exact Hstk|].
    split; [lia|]. intros t1 t2.
    destruct (on_failure_half_open t1 t2 cbk Hstk Hwk)
      as (cbf & Ef & Hstf & Hcf & _).
    exists cbf. auto.
  - intros ts Hlen.
    destruct (exists_last (l := ts)) as (ts0 & t & Hts).
    { intros ->. unfold len in Hlen; simpl in Hlen. lia. }
    assert (Hlen0 : len ts0 + 1 = success_threshold (config cb)).
    { rewrite <- Hlen, Hts. unfold len. rewrite length_app.
      simpl length. lia. }
    destruct (on_success_all_below ts0 cb1 Hst1 Hw1)
      as (cbk & E & Hstk & Hcfgk & Hwk & Hck);
      [rewrite Hc1, Hcfg1; lia|].
    destruct (on_success_half_open t cbk Hstk Hwk)
      as (cbS & ES & _ & _ & _ & Hclose).
    destruct Hclose as (HstS & HcS & _);
      [rewrite Hcfgk, Hcfg1, Hck, Hc1; lia|].
    exists cbS. split; [|auto].
    rewrite Hts. exact (on_success_all_snoc ts0 t cb1 cbk cbS E ES).
Qed.

End BreakerTransitions.

(** The Google Books breaker, opened at time 4 and called again at time
    40, then three successes. *)
Lemma C6_half_open_recovery_witness :
  Breaker.state (Breaker._check_state_transition 40 Breaker.opened_breaker)
  = Breaker.HALF_OPEN /\
  exists cbS,
    Breaker.on_success_all [41; 42; 43]
      (Breaker._check_state_transition 40 Breaker.opened_breaker)
    = Ok cbS /\ Breaker.state cbS = Breaker.CLOSED.
Proof.
  destruct (C6_half_open_recovery Z Z Breaker.opened_breaker 40)
    as (H1 & _ & _ & _ & H5).
  - reflexivity.
  - vm_compute. discriminate.
  - vm_compute. discriminate.
  - vm_compute. discriminate.
  - split; [exact H1|].
    destruct (H5 [41; 42; 43]) as (cbS & E & HS & _); [reflexivity|].
    exists cbS. split; [exact E | exact HS].
Defined.


(** ** Dictionaries and key lists *)

Section DictFacts.

Context {V : Type}.

Lemma list_mem_In (k : string) (l : list string) :
  list_mem k l = true <-> In k l.
Proof.
  unfold list_mem. rewrite existsb_exists. split.
  - intros (x & Hx & E). apply String.eqb_eq in E. subst. exact Hx.
  - intros H. exists k. split; [exact H | apply String.eqb_refl].
Qed.

Lemma dict_get_None (k : string) (d : dict V) :
  dict_get k d = None <-> ~ In k (keys d).
Proof.
  unfold keys. induction d as [|[k' v] d IH]; simpl.
  - tauto.
  - destruct (String.eqb k' k) eqn:E.
    + apply String.eqb_eq in E. split; [discriminate | tauto].
    + apply String.eqb_neq in E. rewrite IH. tauto.
Qed.

Lemma dict_mem_In (k : string) (d : dict V) :
  dict_mem k d = true <-> In k (keys d).
Proof.
  unfold dict_mem. pose proof (dict_get_None k d) as H.
  destruct (dict_get k d).
  - split; [intros _ | reflexivity].
    destruct (in_dec string_dec k (keys d)) as [Hin|Hn]; [exact Hin|].
    apply H in Hn. discriminate.
  - split; [discriminate|]. intros Hin. destruct H as [H _].
    exfalso. exact (H eq_refl Hin).
Qed.

Lemma dict_mem_false (k : string) (d : dict V) :
  dict_mem k d = false <-> ~ In k (keys d).
Proof.
  rewrite <- dict_mem_In. destruct (dict_mem k d); split; congruence.
Qed.

Lemma dict_get_set_eq (k : string) (v : V) (d : dict V) :
  dict_get k (dict_set k v d) = Some v.
Proof.
  induction d as [|[k' v'] d IH]; simpl.
  - rewrite String.eqb_refl. reflexivity.
  - destruct (String.eqb k' k) eqn:E; simpl.
    + rewrite String.eqb_refl. reflexivity.
    + rewrite E. exact IH.
Qed.

Lemma dict_get_set_ne (k k' : string) (v : V) (d : dict V) :
  k <> k' -> dict_get k' (dict_set k v d) = dict_get k' d.
Proof.
  intros Hne. induction d as [|[k0 v0] d IH]; simpl.
  - apply String.eqb_neq in Hne. rewrite Hne. reflexivity.
  - destruct (String.eqb k0 k) eqn:E; simpl.
    + apply String.eqb_eq in E. subst k0.
      apply String.eqb_neq in Hne. rewrite Hne. reflexivity.
    + rewrite IH. reflexivity.
Qed.

Lemma keys_set (k : string) (v : V) (d : dict V) :
  keys (dict_set k v d) = if dict_mem k d then keys d else keys d ++ [k].
Proof.
  unfold dict_mem, keys. induction d as [|[k' v'] d IH]; simpl.
  - reflexivity.
  - destruct (String.eqb k' k) eqn:E; simpl.
    + apply String.eqb_eq in E. subst. reflexivity.
    + rewrite IH. destruct (dict_get k d); reflexivity.
Qed.

Lemma keys_del (k : string) (d : dict V) :
  keys (dict_del k d) = list_remove k (keys d).
Proof.
  unfold keys. induction d as [|[k' v'] d IH]; simpl.
  - reflexivity.
  - destruct (String.eqb k' k); simpl; [reflexivity | rewrite IH; reflexivity].
Qed.

Lemma length_keys (d : dict V) : length (keys d) = length d.
Proof. apply length_map. Qed.

End DictFacts.

Lemma list_remove_In (k x : string) (l : list string) :
  In x (list_remove k l) -> In x l.
Proof.
  induction l as [|y l IH]; simpl; [tauto|].
  destruct (String.eqb y k); simpl; tauto.
Qed.

Lemma list_remove_NoDup (k : string) (l : list string) :
  NoDup l -> NoDup (list_remove k l).
Proof.
  induction 1 as [|y l Hy Hl IH]; simpl; [constructor|].
  destruct (String.eqb y k); [exact Hl|].
  constructor; [|exact IH]. intros H. apply Hy.
  exact (list_remove_In _ _ _ H).
Qed.

Lemma list_remove_In_iff (k x : string) (l : list string) :
  NoDup l -> In x (list_remove k l) <-> x <> k /\ In x l.
Proof.
  induction 1 as [|y l Hy Hl IH]; simpl; [tauto|].
  destruct (String.eqb y k) eqn:E.
  - apply String.eqb_eq in E. subst y. split.
    + intros H. split; [intros ->; contradiction | tauto].
    + intros [Hne [H|H]]; [congruence | exact H].
  - apply String.eqb_neq in E. simpl. rewrite IH. split.
    + intros [H|H]; [subst; tauto | tauto].
    + intros [Hne [H|H]]; tauto.
Qed.

Lemma list_remove_absent (k : string) (l : list string) :
  ~ In k l -> list_remove k l = l.
Proof.
  induction l as [|y l IH]; simpl; [reflexivity|]. intros H.
  destruct (String.eqb y k) eqn:E.
  - apply String.eqb_eq in E. subst. tauto.
  - rewrite IH; tauto.
Qed.

Lemma list_remove_length (k : string) (l : list string) :
  In k l -> S (length (list_remove k l)) = length l.
Proof.
  induction l as [|y l IH]; simpl; [tauto|]. intros H.
  destruct (String.eqb y k) eqn:E; [reflexivity|].
  apply String.eqb_neq in E. simpl. rewrite IH; [reflexivity|].
  destruct H; [contradiction | assumption].
Qed.

(** ** The merge step *)

Section MergeFacts.
Import Enrichment.

(** The value of field [k] after [d.update(other)]. *)
Lemma dict_get_update (k : string) (other : dict pyval) :
  forall d,
  dict_get k (dict_update d other)
  = match dict_get k (rev other) with
    | Some v => Some v
    | None => dict_get k d
    end.
Proof.
  unfold dict_update.
  induction other as [|[k' v'] other IH]; intros d; simpl.
  - reflexivity.
  - rewrite IH. clear IH.
    assert (Happ : forall l : dict pyval,
      dict_get k (l ++ [(k', v')])
      = match dict_get k l with
        | Some v => Some v
        | None => if String.eqb k' k then Some v' else None
        end).
    { induction l as [|[k0 v0] l IHl]; simpl; [reflexivity|].
      destruct (String.eqb k0 k); [reflexivity | exact IHl]. }
    rewrite Happ. destruct (dict_get k (rev other)); [reflexivity|].
    destruct (String.eqb k' k) eqn:E.
    + apply String.eqb_eq in E. subst. apply dict_get_set_eq.
    + apply String.eqb_neq in E. apply dict_get_set_ne. exact E.
Qed.

(** X8: what the consolidation loop keeps for a field: the value given by
    the last result that has the field, empty or not. *)
Lemma consolidate_last_wins (k : string) (results : list (dict pyval))
    (last : dict pyval) :
  dict_get k (consolidate (results ++ [last]))
  = match dict_get k (rev last) with
    | Some v => Some v
    | None => dict_get k (consolidate results)
    end.
Proof.
  unfold consolidate. rewrite fold_left_app. simpl.
  apply dict_get_update.
Qed.

Lemma merge_item_spec (acc : dict pyval) (k' : string) (v' : pyval) :
  all_truthy acc ->
  all_truthy (merge_item acc (k', v')) /\
  forall k,
    dict_get k (merge_item acc (k', v'))
    = if String.eqb k' k
      then match dict_get k acc with
           | Some v => Some v
           | None => if truthy v' then Some v' else None
           end
      else dict_get k acc.
Proof.
  intros Hacc. unfold merge_item, dict_mem.
  destruct (truthy v') eqn:Hv; cbn [andb].
  - destruct (dict_get k' acc) as [old|] eqn:Hold.
    + rewrite (Hacc _ _ Hold). cbn [negb orb]. split; [exact Hacc|].
      intros k. destruct (String.eqb k' k) eqn:E; [|reflexivity].
      apply String.eqb_eq in E. subst k. rewrite Hold. reflexivity.
    + cbn [negb orb]. split.
      * intros k v. destruct (string_dec k' k) as [->|Hne].
        -- rewrite dict_get_set_eq. intros [= <-]. exact Hv.
        -- rewrite (dict_get_set_ne _ _ _ _ Hne). apply Hacc.
      * intros k. destruct (String.eqb k' k) eqn:E.
        -- apply String.eqb_eq in E. subst k.
           rewrite dict_get_set_eq, Hold. reflexivity.
        -- apply String.eqb_neq in E. apply dict_get_set_ne. exact E.
  - split; [exact Hacc|]. intros k.
    destruct (String.eqb k' k); [|reflexivity].
    destruct (dict_get k acc); reflexivity.
Qed.

Lemma merge_items_spec (r : dict pyval) :
  forall acc, all_truthy acc -> NoDup (keys r) ->
  all_truthy (fold_left merge_item r acc) /\
  forall k,
    dict_get k (fold_left merge_item r acc)
    = match dict_get k acc with
      | Some v => Some v
      | None =>
          match dict_get k r with
          | Some v => if truthy v then Some v else None
          | None => None
          end
      end.
Proof.
  induction r as [|[k' v'] r IH]; intros acc Hacc Hnd; cbn [fold_left].
  - split; [exact Hacc|]. intros k. cbn. destruct (dict_get k acc); reflexivity.
  - unfold keys in Hnd. cbn in Hnd. inversion Hnd as [|x l Hnotin Hnd']; subst.
    destruct (merge_item_spec acc k' v' Hacc) as [Hacc1 Hget1].
    destruct (IH _ Hacc1 Hnd') as [Hacc2 Hget2].
    split; [exact Hacc2|]. intros k. rewrite Hget2, Hget1. cbn [dict_get].
    destruct (String.eqb k' k) eqn:E; [|reflexivity].
    apply String.eqb_eq in E. subst k.
    destruct (dict_get k' acc); [reflexivity|].
    destruct (truthy v'); [reflexivity|].
    assert (Hnone : dict_get k' r = None) by (apply dict_get_None; exact Hnotin).
    rewrite Hnone. reflexivity.
Qed.

(** X9: the merge loop of [BookEnrichmentService] keeps, for every field,
    the first non-empty value of the results. *)
Lemma merge_results_first_non_empty (results : list (dict pyval))
    (k : string) :
  Forall (fun r => NoDup (keys r)) results ->
  dict_get k (merge_results results) = first_non_empty k results.
Proof.
  unfold merge_results. intros Hall.
  assert (H : forall acc, all_truthy acc ->
    dict_get k (fold_left (fun enriched result =>
                             fold_left merge_item result enriched)
                  results acc)
    = match dict_get k acc with
      | Some v => Some v
      | None => first_non_empty k results
      end).
  { induction Hall as [|r results Hr _ IH]; intros acc Hacc; cbn [fold_left].
    - cbn. destruct (dict_get k acc); reflexivity.
    - destruct (merge_items_spec r acc Hacc Hr) as [Hacc1 Hget1].
      rewrite (IH _ Hacc1), Hget1. cbn [first_non_empty].
      destruct (dict_get k acc); [reflexivity|].
      destruct (dict_get k r) as [v|]; [|reflexivity].
      destruct (truthy v); reflexivity. }
  rewrite H; [reflexivity|]. intros k0 v0. discriminate.
Qed.

(** C4, on two answers for one ISBN: both sources succeed, Google Books
    first.  The first non-empty title and publisher are the ones of Google
    Books, but the consolidation of [ResilientBookEnrichmentService]
    returns the empty ones of OpenLibrary, and the source of the last
    result; the merge loop of [BookEnrichmentService] keeps the first
    non-empty values. *)
Theorem C4_update_overwrites_populated_fields (clk : readings) :
  let results := [google_answer; openlibrary_answer] in
  let merged :=
    fst (enrich_book_data clk (Some "9780441013593")
           (Returns google_answer) (Returns openlibrary_answer)
           (new_service 0)) in
  merged = consolidate results /\
  first_non_empty "title" results = Some (VStr "Dune") /\
  dict_get "title" merged = Some VNone /\
  first_non_empty "publisher" results = Some (VStr "Ace") /\
  dict_get "publisher" merged = Some VNone /\
  first_non_empty "source" results = Some (VStr "google_books") /\
  dict_get "source" merged = Some (VStr "openlibrary") /\
  dict_get "title" (merge_results results) = Some (VStr "Dune") /\
  dict_get "publisher" (merge_results results) = Some (VStr "Ace") /\
  dict_get "source" (merge_results results) = Some (VStr "google_books").
Proof.
  cbv zeta. repeat split; vm_compute; reflexivity.
Qed.

End MergeFacts.

(** ** The cache *)

Section CacheFacts.
Import Cache.

Context {serializer : Serializer}.

Lemma NoDup_snoc (x : string) (l : list string) :
  NoDup l -> ~ In x l -> NoDup (l ++ [x]).
Proof.
  induction 1 as [|y l Hy Hl IH]; simpl; intros Hx.
  - constructor; [tauto | constructor].
  - constructor.
    + rewrite in_app_iff. simpl. intros [H|[H|[]]]; [tauto|].
      subst. tauto.
    + apply IH. tauto.
Qed.

Lemma keys_set_In {V : Type} (key k : string) (v : V) (d : dict V) :
  In k (keys (dict_set key v d)) <-> k = key \/ In k (keys d).
Proof.
  rewrite keys_set. destruct (dict_mem key d) eqn:E.
  - apply dict_mem_In in E. split; [tauto|]. intros [->|H]; assumption.
  - rewrite in_app_iff. simpl. split.
    + intros [H|[H|[]]]; [tauto | subst; tauto].
    + intros [->|H]; tauto.
Qed.

Lemma keys_set_NoDup {V : Type} (key : string) (v : V) (d : dict V) :
  NoDup (keys d) -> NoDup (keys (dict_set key v d)).
Proof.
  intros H. rewrite keys_set. destruct (dict_mem key d) eqn:E; [exact H|].
  apply NoDup_snoc; [exact H|]. apply dict_mem_false. exact E.
Qed.

Lemma touch_remove (key : string) (l : list string) :
  (if list_mem key l then list_remove key l else l) = list_remove key l.
Proof.
  destruct (list_mem key l) eqn:E; [reflexivity|].
  symmetry. apply list_remove_absent. rewrite <- list_mem_In. congruence.
Qed.

Lemma same_keys_remove (k : string) (l1 l2 : list string) :
  same_keys l1 l2 -> NoDup l2 ->
  same_keys (list_remove k l1) (list_remove k l2).
Proof.
  intros [Hnd Hiff] Hnd2. split.
  - apply list_remove_NoDup. exact Hnd.
  - intros x. rewrite !list_remove_In_iff by assumption.
    rewrite Hiff. tauto.
Qed.

Lemma same_keys_touch (key : string) (l1 l2 l2' : list string) :
  same_keys l1 l2 ->
  (forall k, In k l2' <-> k = key \/ In k l2) ->
  same_keys (list_remove key l1 ++ [key]) l2'.
Proof.
  intros [Hnd Hiff] H2. split.
  - apply NoDup_snoc; [apply list_remove_NoDup; exact Hnd|].
    rewrite list_remove_In_iff by exact Hnd. tauto.
  - intros x. rewrite in_app_iff, list_remove_In_iff by exact Hnd.
    rewrite H2, Hiff. simpl.
    destruct (string_dec x key) as [->|Hne]; intuition congruence.
Qed.

Lemma same_keys_set {V W : Type} (key : string) (v : V) (w : W)
    (d1 : dict V) (d2 : dict W) :
  same_keys (keys d1) (keys d2) ->
  same_keys (keys (dict_set key v d1)) (keys (dict_set key w d2)).
Proof.
  intros [Hnd Hiff]. split.
  - apply keys_set_NoDup. exact Hnd.
  - intros x. rewrite !keys_set_In, Hiff. tauto.
Qed.

Lemma same_keys_length (l1 l2 : list string) :
  same_keys l1 l2 -> NoDup l2 -> length l1 = length l2.
Proof.
  intros [Hnd Hiff] Hnd2. apply Nat.le_antisymm.
  - apply NoDup_incl_length; [exact Hnd|]. intros x. apply Hiff.
  - apply NoDup_incl_length; [exact Hnd2|]. intros x. apply Hiff.
Qed.

Lemma with_access_order_id (cm : SmartCacheManager) :
  with_access_order cm (access_order cm) = cm.
Proof. destruct cm; reflexivity. Qed.

Lemma with_frequency_counter_id (cm : SmartCacheManager) :
  with_frequency_counter cm (frequency_counter cm) = cm.
Proof. destruct cm; reflexivity. Qed.

Lemma dict_del_absent {V : Type} (k : string) (d : dict V) :
  dict_mem k d = false -> dict_del k d = d.
Proof.
  unfold dict_mem. induction d as [|[k' v'] d IH]; simpl; [reflexivity|].
  destruct (String.eqb k' k); [discriminate|].
  intros H. rewrite IH; [reflexivity | exact H].
Qed.

(** [delete] of a stored key, in one step. *)
Lemma delete_present (key : string) (cm : SmartCacheManager) :
  dict_mem key (cache cm) = true ->
  delete key cm
  = (true,
     with_frequency_counter
       (with_access_order
          (with_cache cm (dict_del key (cache cm)))
          (list_remove key (access_order cm)))
       (dict_del key (frequency_counter cm))).
Proof.
  intros Hm. unfold delete. rewrite Hm. cbn [negb]. f_equal.
  destruct (list_mem key (access_order (with_cache cm (dict_del key (cache cm)))))
    eqn:Eao.
  - destruct (dict_mem key (frequency_counter _)) eqn:Efc; [reflexivity|].
    cbn [frequency_counter with_cache with_access_order] in Efc. rewrite (dict_del_absent _ _ Efc).
    destruct cm; reflexivity.
  - cbn [access_order with_cache] in Eao.
    assert (Hrem : list_remove key (access_order cm) = access_order cm).
    { apply list_remove_absent. rewrite <- list_mem_In. congruence. }
    rewrite Hrem.
    destruct (dict_mem key (frequency_counter _)) eqn:Efc.
    + destruct cm; reflexivity.
    + cbn [frequency_counter with_cache with_access_order] in Efc. rewrite (dict_del_absent _ _ Efc).
      destruct cm; reflexivity.
Qed.

Lemma delete_absent (key : string) (cm : SmartCacheManager) :
  dict_mem key (cache cm) = false -> delete key cm = (false, cm).
Proof. intros Hm. unfold delete. rewrite Hm. reflexivity. Qed.

Lemma delete_spec (key : string) (cm : SmartCacheManager) :
  consistent cm ->
  let cm' := snd (delete key cm) in
  consistent cm' /\ same_config cm cm' /\
  evictions cm' = evictions cm /\
  keys (cache cm') = list_remove key (keys (cache cm)).
Proof.
  intros (Hnd & Hlru & Hlfu). cbv zeta.
  destruct (dict_mem key (cache cm)) eqn:Hm.
  - rewrite (delete_present _ _ Hm). unfold consistent, same_config. cbn.
    rewrite !keys_del. split; [|repeat split; reflexivity].
    split; [apply list_remove_NoDup; exact Hnd|]. split; intros Hs.
    + apply same_keys_remove; auto.
    + apply same_keys_remove; auto.
  - rewrite (delete_absent _ _ Hm). unfold consistent, same_config. cbn.
    split; [tauto|]. split; [repeat split; reflexivity|].
    split; [reflexivity|]. symmetry. apply list_remove_absent.
    apply dict_mem_false. exact Hm.
Qed.

Lemma len_cons {T : Type} (x : T) (l : list T) : len (x :: l) = len l + 1.
Proof. unfold len. simpl length. lia. Qed.

Lemma len_nonneg {T : Type} (l : list T) : 0 <= len l.
Proof. unfold len. lia. Qed.

Lemma len_keys {V : Type} (d : dict V) : len (keys d) = len d.
Proof. unfold len. rewrite length_keys. reflexivity. Qed.

Lemma insert_sorted_In {T : Type} (key : T -> Z) (x y : T) (l : list T) :
  In y (insert_sorted key x l) <-> y = x \/ In y l.
Proof.
  induction l as [|z l IH]; simpl.
  - intuition congruence.
  - destruct (key x <=? key z); simpl; [intuition congruence|].
    rewrite IH. intuition congruence.
Qed.

Lemma sorted_In {T : Type} (key : T -> Z) (y : T) (l : list T) :
  In y (sorted key l) <-> In y l.
Proof.
  induction l as [|x l IH]; simpl; [tauto|].
  rewrite insert_sorted_In, IH. intuition congruence.
Qed.

(** The least element of a non-empty list comes first, and it is one of
    the list. *)
Lemma sorted_head {T : Type} (key : T -> Z) (l : list T) :
  l <> [] -> exists x rest, sorted key l = x :: rest /\ In x l.
Proof.
  intros Hne. destruct (sorted key l) as [|x rest] eqn:E.
  - destruct l as [|a l]; [congruence|]. simpl in E.
    destruct (sorted key l) as [|b r]; simpl in E; [discriminate|].
    destruct (key a <=? key b); discriminate.
  - exists x, rest. split; [reflexivity|].
    apply (sorted_In key). rewrite E. left. reflexivity.
Qed.

Lemma add_eviction_consistent (cm : SmartCacheManager) :
  consistent cm -> consistent (add_eviction cm).
Proof. intros H. exact H. Qed.

(** Evicting one entry from a cache that is not empty, under LRU, LFU or
    TTL, removes exactly one stored key. *)
Lemma slice_to_1_cons {T : Type} (x : T) (l : list T) :
  slice_to 1 (x :: l) = [x].
Proof. reflexivity. Qed.

Lemma slice_to_1_nil {T : Type} : slice_to 1 (@nil T) = [].
Proof. reflexivity. Qed.

Lemma evict_one (now : Z) (cm : SmartCacheManager) :
  consistent cm -> evicting (strategy cm) = true -> cache cm <> [] ->
  exists victim,
    In victim (keys (cache cm)) /\
    consistent (_evict_entries now 1 cm) /\
    same_config cm (_evict_entries now 1 cm) /\
    evictions (_evict_entries now 1 cm) = evictions cm + 1 /\
    keys (cache (_evict_entries now 1 cm))
    = list_remove victim (keys (cache cm)).
Proof.
  intros Hc Hev Hne. pose proof Hc as (Hnd & Hlru & Hlfu).
  assert (Hk : exists k0, In k0 (keys (cache cm))).
  { destruct (cache cm) as [|[k0 v0] c]; [congruence|].
    exists k0. left. reflexivity. }
  destruct Hk as (k0 & Hk0).
  unfold _evict_entries.
  destruct (strategy cm) eqn:Hs; try discriminate.
  - (* LRU *)
    specialize (Hlru eq_refl). destruct Hlru as [Hnda Hiff].
    destruct (access_order cm) as [|k rest] eqn:Hao.
    { apply Hiff in Hk0. destruct Hk0. }
    assert (Hmin : Z.to_nat (Z.min 1 (len (k :: rest))) = 1%nat).
    { rewrite len_cons. pose proof (len_nonneg rest). lia. }
    rewrite Hmin. cbn [Nat.iter nat_rect]. unfold evict_lru_step.
    rewrite Hao. cbn [cache with_access_order].
    assert (Hin : In k (keys (cache cm))) by (apply Hiff; left; reflexivity).
    apply dict_mem_In in Hin as Hmem. rewrite Hmem.
    exists k. split; [exact Hin|].
    unfold consistent, same_config. cbn. rewrite Hs, keys_del.
    split; [|repeat split; reflexivity]. split; [|split].
    + apply list_remove_NoDup. exact Hnd.
    + intros _.
      replace rest with (list_remove k (k :: rest))
        by (simpl; rewrite String.eqb_refl; reflexivity).
      apply same_keys_remove; [split; assumption | exact Hnd].
    + discriminate.
  - (* LFU *)
    specialize (Hlfu eq_refl). pose proof Hlfu as [Hndf Hiff].
    destruct (frequency_counter cm) as [|kf fc] eqn:Hfc.
    { apply Hiff in Hk0. destruct Hk0. }
    destruct (sorted_head snd (kf :: fc)) as (x & rest & Hsort & Hx);
      [discriminate|].
    rewrite Hsort, slice_to_1_cons. cbn [map fold_left].
    unfold evict_lfu_step.
    assert (Hin : In (fst x) (keys (cache cm))).
    { apply Hiff. unfold keys. apply in_map. exact Hx. }
    apply dict_mem_In in Hin as Hmem. rewrite Hmem.
    exists (fst x). split; [exact Hin|].
    unfold consistent, same_config. cbn. rewrite Hs, Hfc, !keys_del.
    split; [|repeat split; reflexivity]. split; [|split].
    + apply list_remove_NoDup. exact Hnd.
    + discriminate.
    + intros _. apply same_keys_remove; [exact Hlfu | exact Hnd].
  - (* TTL *)
    assert (Hstep : forall victim, In victim (keys (cache cm)) ->
      consistent (evict_ttl_step cm victim) /\
      same_config cm (evict_ttl_step cm victim) /\
      evictions (evict_ttl_step cm victim) = evictions cm + 1 /\
      keys (cache (evict_ttl_step cm victim))
      = list_remove victim (keys (cache cm))).
    { intros victim Hin. unfold evict_ttl_step.
      destruct (delete_spec victim cm Hc) as (H1 & H2 & H3 & H4).
      split; [exact H1|]. split; [exact H2|]. split; [|exact H4].
      cbn. rewrite H3. reflexivity. }
    destruct (map fst (filter (fun kv => is_expired now (snd kv)) (cache cm)))
      as [|k rest] eqn:Hexp.
    + rewrite slice_to_1_nil. cbn [fold_left].
      change (0 <? 1 - len (@nil string)) with true. cbv iota.
      destruct (sorted_head (fun kv => created_at (snd kv)) (cache cm) Hne)
        as (x & r & Hsort & Hx).
      rewrite Hsort, slice_to_1_cons. cbn [map fold_left].
      exists (fst x).
      assert (Hin : In (fst x) (keys (cache cm)))
        by (unfold keys; apply in_map; exact Hx).
      split; [exact Hin | exact (Hstep _ Hin)].
    + rewrite slice_to_1_cons. cbn [fold_left].
      assert (Hrem : (0 <? 1 - len (k :: rest)) = false).
      { apply Z.ltb_ge. rewrite len_cons. pose proof (len_nonneg rest). lia. }
      rewrite Hrem. exists k.
      assert (Hin : In k (keys (cache cm))).
      { assert (H : In k (k :: rest)) by (left; reflexivity).
        rewrite <- Hexp in H. apply in_map_iff in H.
        destruct H as ([k' e] & Hk & Hf). apply filter_In in Hf.
        simpl in Hk. subst k'. destruct Hf as [Hf _].
        unfold keys. apply (in_map fst) in Hf. exact Hf. }
      split; [exact Hin | exact (Hstep _ Hin)].
Qed.

Lemma len_dict_set {V : Type} (key : string) (v : V) (d : dict V) :
  len (dict_set key v d) = if dict_mem key d then len d else len d + 1.
Proof.
  rewrite <- !len_keys, keys_set. destruct (dict_mem key d); [reflexivity|].
  unfold len. rewrite length_app. simpl length. lia.
Qed.

Lemma len_list_remove (k : string) (l : list string) :
  In k l -> len (list_remove k l) = len l - 1.
Proof.
  intros H. unfold len. rewrite <- (list_remove_length k l H). lia.
Qed.

(** [_compress_if_needed] only counts the compressions. *)
Lemma compress_state (v : pyval) (cm : SmartCacheManager) :
  snd (_compress_if_needed v cm) = cm \/
  snd (_compress_if_needed v cm) = add_compression cm.
Proof.
  unfold _compress_if_needed. destruct (enable_compression cm); cbn [negb].
  - destruct (1024 <? len (pickle_dumps v)); [right | left]; reflexivity.
  - left. reflexivity.
Qed.

Lemma set_fields (now : Z) (key : string) (v : pyval) (ttl : option Z)
    (force : bool) (cm : SmartCacheManager) :
  let cm0 := before_store now key cm in
  let cm' := snd (set now key v ttl force cm) in
  cache cm' = dict_set key (stored_entry now v ttl cm0) (cache cm0) /\
  access_order cm'
  = (if is_LRU (strategy cm0)
     then list_remove key (access_order cm0) ++ [key]
     else access_order cm0) /\
  frequency_counter cm'
  = (if is_LFU (strategy cm0) && negb (dict_mem key (cache cm0))
     then dict_set key 1 (frequency_counter cm0)
     else frequency_counter cm0) /\
  evictions cm' = evictions cm0 /\
  hits cm' = hits cm0 /\ misses cm' = misses cm0 /\
  same_config cm0 cm'.
Proof.
  cbv zeta. unfold set, stored_entry.
  replace (if negb force then _evict_entries now 1 cm
           else _evict_entries now 1 cm)
    with (_evict_entries now 1 cm) by (destruct force; reflexivity).
  fold (before_store now key cm). generalize (before_store now key cm).
  intros cm0. unfold same_config.
  destruct (_compress_if_needed v cm0) as [cv cm1] eqn:Ec.
  pose proof (compress_state v cm0) as Hst. rewrite Ec in Hst.
  cbn [fst snd] in *.
  rewrite <- (touch_remove key (access_order cm0)).
  destruct Hst as [-> | ->];
    destruct cm0 as [ms dt st ec c ao fc h m e cp]; cbn;
    destruct st; cbn; destruct (dict_mem key c); cbn;
    repeat split; reflexivity.
Qed.

Lemma get_miss (now : Z) (key : string) (cm : SmartCacheManager) :
  dict_get key (cache cm) = None ->
  get now key cm = (Ok VNone, add_miss cm).
Proof. intros H. unfold get. rewrite H. reflexivity. Qed.

Lemma get_expired (now : Z) (key : string) (cm : SmartCacheManager)
    (entry : CacheEntry) :
  dict_get key (cache cm) = Some entry -> is_expired now entry = true ->
  get now key cm = (Ok VNone, add_miss (snd (delete key cm))).
Proof. intros H He. unfold get. rewrite H, He. reflexivity. Qed.

Lemma get_hit (now : Z) (key : string) (cm : SmartCacheManager)
    (entry : CacheEntry) :
  dict_get key (cache cm) = Some entry -> is_expired now entry = false ->
  let cm' := snd (get now key cm) in
  fst (get now key cm) = _decompress_if_needed (value entry) /\
  keys (cache cm') = keys (cache cm) /\
  access_order cm'
  = (if is_LRU (strategy cm)
     then list_remove key (access_order cm) ++ [key]
     else access_order cm) /\
  keys (frequency_counter cm')
  = (if is_LFU (strategy cm)
     then keys (dict_set key 0 (frequency_counter cm))
     else keys (frequency_counter cm)) /\
  evictions cm' = evictions cm /\
  hits cm' = hits cm + 1 /\ misses cm' = misses cm /\
  same_config cm cm'.
Proof.
  intros H He. cbv zeta. unfold get. rewrite H, He. unfold same_config.
  rewrite <- (touch_remove key (access_order cm)).
  assert (Hm : dict_mem key (cache cm) = true)
    by (unfold dict_mem; rewrite H; reflexivity).
  assert (Hk : forall e, keys (dict_set key e (cache cm)) = keys (cache cm))
    by (intros e; rewrite keys_set, Hm; reflexivity).
  assert (Hf : forall (a b : Z) (d : dict Z),
             keys (dict_set key a d) = keys (dict_set key b d))
    by (intros a b d; rewrite !keys_set; reflexivity).
  destruct cm as [ms dt st ec c ao fc h m e cp]; cbn in *.
  destruct st; cbn; rewrite ?Hk;
    repeat split; try reflexivity; apply Hf.
Qed.

(** Storing the entry keeps the bookkeeping consistent and adds the key
    when it is new. *)
Lemma set_after_store (now : Z) (key : string) (v : pyval) (ttl : option Z)
    (force : bool) (cm : SmartCacheManager) :
  consistent (before_store now key cm) ->
  let cm0 := before_store now key cm in
  let cm' := snd (set now key v ttl force cm) in
  consistent cm' /\
  keys (cache cm')
  = (if dict_mem key (cache cm0) then keys (cache cm0)
     else keys (cache cm0) ++ [key]) /\
  evictions cm' = evictions cm0 /\
  same_config cm0 cm'.
Proof.
  cbv zeta. intros (Hnd & Hlru & Hlfu).
  destruct (set_fields now key v ttl force cm)
    as (Hc & Hao & Hfc & He & _ & _ & Hcfg).
  pose proof Hcfg as (_ & _ & Hstr & _).
  split; [|split; [rewrite Hc; apply keys_set | split; assumption]].
  unfold consistent. rewrite Hc, Hao, Hfc, Hstr.
  split; [apply keys_set_NoDup; exact Hnd|]. split; intros Hs.
  - rewrite Hs. cbn [is_LRU].
    apply same_keys_touch with (l2 := keys (cache (before_store now key cm))).
    + apply Hlru. exact Hs.
    + intros k. apply keys_set_In.
  - rewrite Hs. cbn [is_LFU andb]. specialize (Hlfu Hs).
    destruct (dict_mem key (cache (before_store now key cm))) eqn:Hm;
      cbn [negb].
    + rewrite keys_set, Hm. exact Hlfu.
    + apply same_keys_set. exact Hlfu.
Qed.

Lemma before_store_cases (now : Z) (key : string) (cm : SmartCacheManager) :
  (before_store now key cm = cm /\
   (size cm < max_size cm \/ dict_mem key (cache cm) = true)) \/
  (before_store now key cm = _evict_entries now 1 cm /\
   max_size cm <= size cm /\ dict_mem key (cache cm) = false).
Proof.
  unfold before_store, size.
  destruct (max_size cm <=? len (cache cm)) eqn:E;
    destruct (dict_mem key (cache cm)); cbn [andb negb].
  - left. auto.
  - right. apply Z.leb_le in E. auto.
  - left. apply Z.leb_gt in E. auto.
  - left. apply Z.leb_gt in E. auto.
Qed.

Lemma size_keys (cm : SmartCacheManager) : size cm = len (keys (cache cm)).
Proof. unfold size. rewrite len_keys. reflexivity. Qed.

Lemma same_config_trans (a b c : SmartCacheManager) :
  same_config a b -> same_config b c -> same_config a c.
Proof. unfold same_config. intuition congruence. Qed.

Lemma same_config_refl (a : SmartCacheManager) : same_config a a.
Proof. unfold same_config. auto. Qed.

(** [set] of a key that is stored never evicts and keeps the stored
    keys. *)
Lemma set_existing_key (now : Z) (key : string) (v : pyval)
    (ttl : option Z) (force : bool) (cm : SmartCacheManager) :
  dict_mem key (cache cm) = true ->
  let cm' := snd (set now key v ttl force cm) in
  before_store now key cm = cm /\
  evictions cm' = evictions cm /\
  keys (cache cm') = keys (cache cm) /\
  dict_get key (cache cm') = Some (stored_entry now v ttl cm).
Proof.
  intros Hm. cbv zeta.
  assert (Hb : before_store now key cm = cm).
  { unfold before_store. rewrite Hm. rewrite andb_false_r. reflexivity. }
  destruct (set_fields now key v ttl force cm) as (Hc & _ & _ & He & _).
  rewrite Hb in *. split; [reflexivity|]. split; [exact He|].
  rewrite Hc. split; [rewrite keys_set, Hm; reflexivity|].
  apply dict_get_set_eq.
Qed.

(** [set] of a new key into a cache that holds [max_size >= 1] entries
    evicts one of them first. *)
Lemma set_new_key_full (now : Z) (key : string) (v : pyval)
    (ttl : option Z) (force : bool) (cm : SmartCacheManager) :
  1 <= max_size cm -> evicting (strategy cm) = true ->
  consistent cm -> max_size cm <= size cm ->
  dict_mem key (cache cm) = false ->
  let cm' := snd (set now key v ttl force cm) in
  consistent cm' /\ same_config cm cm' /\
  evictions cm' = evictions cm + 1 /\
  size cm' = size cm /\
  exists victim,
    In victim (keys (cache cm)) /\
    keys (cache cm') = list_remove victim (keys (cache cm)) ++ [key].
Proof.
  intros HC Hev Hc Hfull Hnew. cbv zeta.
  assert (Hb : before_store now key cm = _evict_entries now 1 cm).
  { unfold before_store. apply Z.leb_le in Hfull. unfold size in Hfull.
    rewrite Hfull, Hnew. reflexivity. }
  assert (Hne : cache cm <> []).
  { intros E. unfold size in Hfull. rewrite E in Hfull.
    change (len (@nil (string * CacheEntry))) with 0 in Hfull. lia. }
  destruct (evict_one now cm Hc Hev Hne)
    as (victim & Hin & Hc0 & Hcfg0 & He0 & Hk0).
  pose proof (set_after_store now key v ttl force cm) as Hst.
  rewrite Hb in Hst. destruct (Hst Hc0) as (Hc' & Hk' & He' & Hcfg').
  assert (Hnew0 : dict_mem key (cache (_evict_entries now 1 cm)) = false).
  { apply dict_mem_false. rewrite Hk0. intros Hin0.
    apply list_remove_In in Hin0. apply dict_mem_false in Hnew. tauto. }
  rewrite Hnew0 in Hk'.
  split; [exact Hc'|]. split; [exact (same_config_trans _ _ _ Hcfg0 Hcfg')|].
  split; [congruence|]. split.
  - rewrite !size_keys, Hk', Hk0. unfold len. rewrite length_app.
    simpl length. rewrite <- (list_remove_length victim _ Hin). lia.
  - exists victim. split; [exact Hin|]. rewrite Hk', Hk0. reflexivity.
Qed.

Lemma set_bounded (now : Z) (key : string) (v : pyval) (ttl : option Z)
    (force : bool) (cm : SmartCacheManager) :
  1 <= max_size cm -> evicting (strategy cm) = true -> bounded cm ->
  bounded (snd (set now key v ttl force cm)) /\
  same_config cm (snd (set now key v ttl force cm)).
Proof.
  intros HC Hev [Hc Hsz].
  destruct (before_store_cases now key cm) as [[Hb Hcase] | (Hb & Hfull & Hnew)].
  - pose proof (set_after_store now key v ttl force cm) as Hst.
    rewrite Hb in Hst. destruct (Hst Hc) as (Hc' & Hk' & _ & Hcfg').
    split; [|exact Hcfg']. split; [exact Hc'|].
    destruct Hcfg' as (Hms & _). rewrite Hms, size_keys, Hk'.
    destruct (dict_mem key (cache cm)) eqn:Hm.
    + rewrite <- size_keys. exact Hsz.
    + destruct Hcase as [Hlt|Habs]; [|discriminate].
      unfold len. rewrite length_app. simpl length.
      rewrite size_keys in Hlt. unfold len in Hlt. lia.
  - destruct (set_new_key_full now key v ttl force cm HC Hev Hc Hfull Hnew)
      as (Hc' & Hcfg' & _ & Hsz' & _).
    split; [|exact Hcfg']. split; [exact Hc'|].
    destruct Hcfg' as (Hms & _). rewrite Hms, Hsz'. exact Hsz.
Qed.

Lemma delete_bounded (key : string) (cm : SmartCacheManager) :
  bounded cm ->
  bounded (snd (delete key cm)) /\ same_config cm (snd (delete key cm)).
Proof.
  intros [Hc Hsz].
  destruct (delete_spec key cm Hc) as (Hc' & Hcfg & _ & Hk).
  split; [|exact Hcfg]. split; [exact Hc'|].
  destruct Hcfg as (Hms & _). rewrite Hms, size_keys, Hk.
  rewrite size_keys in Hsz.
  destruct (in_dec string_dec key (keys (cache cm))) as [Hin|Hn].
  - rewrite (len_list_remove _ _ Hin). lia.
  - rewrite (list_remove_absent _ _ Hn). exact Hsz.
Qed.

Lemma get_bounded (now : Z) (key : string) (cm : SmartCacheManager) :
  bounded cm ->
  bounded (snd (get now key cm)) /\ same_config cm (snd (get now key cm)).
Proof.
  intros Hb. destruct (dict_get key (cache cm)) as [entry|] eqn:Hg.
  - destruct (is_expired now entry) eqn:He.
    + rewrite (get_expired now key cm entry Hg He). cbn [snd].
      exact (delete_bounded key cm Hb).
    + destruct Hb as [(Hnd & Hlru & Hlfu) Hsz].
      destruct (get_hit now key cm entry Hg He)
        as (_ & Hk & Hao & Hfc & _ & _ & _ & Hcfg).
      split; [|exact Hcfg]. pose proof Hcfg as (Hms & _ & Hstr & _).
      assert (Hin : In key (keys (cache cm))).
      { apply dict_mem_In. unfold dict_mem. rewrite Hg. reflexivity. }
      split.
      * unfold consistent. rewrite Hk, Hao, Hfc, Hstr.
        split; [exact Hnd|]. split; intros Hs; rewrite Hs.
        -- cbn [is_LRU]. apply same_keys_touch with (l2 := keys (cache cm)).
           ++ apply Hlru. exact Hs.
           ++ intros k. split; [tauto|]. intros [->|H]; assumption.
        -- cbn [is_LFU]. destruct (Hlfu Hs) as [Hndf Hiff].
           assert (Hmf : dict_mem key (frequency_counter cm) = true)
             by (apply dict_mem_In, Hiff; exact Hin).
           rewrite keys_set, Hmf. split; assumption.
      * rewrite Hms, size_keys, Hk, <- size_keys. exact Hsz.
  - rewrite (get_miss now key cm Hg). cbn [snd].
    split; [exact Hb | repeat split; reflexivity].
Qed.

Lemma run_op_bounded (op : operation) (cm : SmartCacheManager) :
  1 <= max_size cm -> evicting (strategy cm) = true -> bounded cm ->
  bounded (run_op op cm) /\ same_config cm (run_op op cm).
Proof.
  intros HC Hev Hb. destruct op as [now key v ttl force | now key | key].
  - exact (set_bounded now key v ttl force cm HC Hev Hb).
  - exact (get_bounded now key cm Hb).
  - exact (delete_bounded key cm Hb).
Qed.

Lemma run_ops_bounded (ops : list operation) :
  forall cm,
  1 <= max_size cm -> evicting (strategy cm) = true -> bounded cm ->
  bounded (run_ops ops cm) /\ same_config cm (run_ops ops cm).
Proof.
  induction ops as [|op ops IH]; intros cm HC Hev Hb.
  - split; [exact Hb | apply same_config_refl].
  - destruct (run_op_bounded op cm HC Hev Hb) as [Hb1 Hcfg1].
    pose proof Hcfg1 as (Hms & _ & Hstr & _).
    destruct (IH (run_op op cm)) as [Hb2 Hcfg2];
      [rewrite Hms; exact HC | rewrite Hstr; exact Hev | exact Hb1 |].
    split; [exact Hb2 | exact (same_config_trans _ _ _ Hcfg1 Hcfg2)].
Qed.

Lemma new_cache_bounded (max_size : Z) (default_ttl : option Z)
    (strategy : CacheStrategy) (enable_compression : bool) :
  0 <= max_size ->
  bounded (new_cache max_size default_ttl strategy enable_compression).
Proof.
  intros H. unfold bounded, consistent, same_keys, size. cbn.
  repeat split; try constructor; try tauto.
Qed.

Lemma delete_same_config (key : string) (cm : SmartCacheManager) :
  same_config cm (snd (delete key cm)).
Proof.
  unfold delete, same_config.
  destruct cm as [ms dt st ec c ao fc h m e cp]; cbn.
  destruct (dict_mem key c); cbn; [|auto].
  destruct (list_mem key ao); cbn; destruct (dict_mem key fc); cbn; auto.
Qed.

Lemma fold_left_same_config {T : Type}
    (step : SmartCacheManager -> T -> SmartCacheManager) (l : list T) :
  (forall cm x, same_config cm (step cm x)) ->
  forall cm, same_config cm (fold_left step l cm).
Proof.
  intros Hstep. induction l as [|x l IH]; intros cm; simpl.
  - apply same_config_refl.
  - exact (same_config_trans _ _ _ (Hstep cm x) (IH _)).
Qed.

Lemma evict_ttl_step_same_config (cm : SmartCacheManager) (key : string) :
  same_config cm (evict_ttl_step cm key).
Proof. exact (delete_same_config key cm). Qed.

Lemma evict_lru_step_same_config (cm : SmartCacheManager) :
  same_config cm (evict_lru_step cm).
Proof.
  unfold evict_lru_step, same_config.
  destruct cm as [ms dt st ec ca ao fc h m e cp]; cbn.
  destruct ao as [|k rest]; cbn; [auto|].
  destruct (dict_mem k ca); cbn; auto.
Qed.

(** [_evict_entries] never changes the configuration, whatever the
    strategy and the count. *)
Lemma evict_same_config (now count : Z) (cm : SmartCacheManager) :
  same_config cm (_evict_entries now count cm).
Proof.
  unfold _evict_entries. destruct (strategy cm).
  - generalize (Z.to_nat (Z.min count (len (access_order cm)))). intros n.
    induction n as [|n IH].
    + apply same_config_refl.
    + change (Nat.iter (S n) evict_lru_step cm)
        with (evict_lru_step (Nat.iter n evict_lru_step cm)).
      exact (same_config_trans _ _ _ IH (evict_lru_step_same_config _)).
  - destruct (frequency_counter cm); [apply same_config_refl|].
    apply fold_left_same_config. intros c key.
    unfold evict_lfu_step, same_config.
    destruct (dict_mem key (cache c)); cbn; auto.
  - destruct (0 <? _).
    + eapply same_config_trans;
        apply (fold_left_same_config evict_ttl_step);
        exact evict_ttl_step_same_config.
    + apply (fold_left_same_config evict_ttl_step).
      exact evict_ttl_step_same_config.
  - apply same_config_refl.
  - apply same_config_refl.
Qed.

Lemma before_store_same_config (now : Z) (key : string)
    (cm : SmartCacheManager) :
  same_config cm (before_store now key cm).
Proof.
  unfold before_store. destruct (_ && _).
  - apply evict_same_config.
  - apply same_config_refl.
Qed.

(** Under LRU, evicting one entry removes the key at the front of the
    recency order. *)
Lemma evict_lru_head (now : Z) (cm : SmartCacheManager) (k : string)
    (rest : list string) :
  strategy cm = LRU -> access_order cm = k :: rest ->
  dict_mem k (cache cm) = true ->
  _evict_entries now 1 cm
  = add_eviction
      (with_cache (with_access_order cm rest) (dict_del k (cache cm))).
Proof.
  intros Hs Hao Hm. unfold _evict_entries. rewrite Hs, Hao.
  assert (Hmin : Z.to_nat (Z.min 1 (len (k :: rest))) = 1%nat).
  { rewrite len_cons. pose proof (len_nonneg rest). lia. }
  rewrite Hmin. cbn [Nat.iter nat_rect]. unfold evict_lru_step.
  rewrite Hao. cbn [cache with_access_order]. rewrite Hm. reflexivity.
Qed.

(** C2, for the strategies that evict: on a cache of capacity [C >= 1]
    with strategy LRU, LFU or TTL, after any sequence of [set], [get] and
    [delete] the mapping holds at most [C] entries; in every state so
    reached, a [set] of a stored key evicts nothing and keeps the stored
    keys, and a [set] of a new key when [C] entries are stored evicts
    exactly one of them and then stores the new key. *)
Theorem C2_capacity_bound_evicting (C : Z) (d : option Z)
    (strat : CacheStrategy) (z : bool) (ops : list operation) :
  1 <= C -> evicting strat = true ->
  let cm := run_ops ops (new_cache C d strat z) in
  size cm <= C /\
  forall (now : Z) (key : string) (v : pyval) (ttl : option Z)
         (force : bool),
    let cm' := snd (set now key v ttl force cm) in
    size cm' <= C /\
    (dict_mem key (cache cm) = true ->
     evictions cm' = evictions cm /\
     keys (cache cm') = keys (cache cm)) /\
    (dict_mem key (cache cm) = false -> size cm = C ->
     evictions cm' = evictions cm + 1 /\
     size cm' = C /\
     exists victim,
       In victim (keys (cache cm)) /\
       keys (cache cm') = list_remove victim (keys (cache cm)) ++ [key]).
Proof.
  intros HC Hev cm.
  destruct (run_ops_bounded ops (new_cache C d strat z)) as [Hb Hcfg];
    [exact HC | exact Hev | apply new_cache_bounded; lia |].
  fold cm in Hb, Hcfg. destruct Hcfg as (Hms & _ & Hstr & _).
  cbn in Hms, Hstr. pose proof Hb as [Hc Hsz]. rewrite Hms in Hsz.
  split; [exact Hsz|]. intros now key v ttl force cm'.
  assert (HC' : 1 <= max_size cm) by (rewrite Hms; exact HC).
  assert (Hev' : evicting (strategy cm) = true)
    by (rewrite Hstr; exact Hev).
  split; [|split].
  - destruct (set_bounded now key v ttl force cm HC' Hev' Hb)
      as [[_ Hsz'] (Hms' & _)].
    fold cm' in Hsz', Hms'. rewrite Hms', Hms in Hsz'. exact Hsz'.
  - intros Hm.
    destruct (set_existing_key now key v ttl force cm Hm)
      as (_ & He & Hk & _).
    split; assumption.
  - intros Hnew Hfull.
    destruct (set_new_key_full now key v ttl force cm HC' Hev' Hc)
      as (_ & _ & He & Hsz' & Hvictim); [lia | exact Hnew |].
    fold cm' in He, Hsz', Hvictim.
    split; [exact He|]. split; [congruence | exact Hvictim].
Qed.

(** C9: a [set] with [ttl=0] is the same call as a [set] without [ttl]:
    the entry it stores carries the store-wide [default_ttl], not a zero
    duration. *)
Theorem C9_zero_ttl_is_default (now : Z) (key : string) (v : pyval)
    (force : bool) (cm : SmartCacheManager) :
  set now key v (Some 0) force cm = set now key v None force cm /\
  exists e,
    dict_get key (cache (snd (set now key v (Some 0) force cm))) = Some e /\
    ttl e = default_ttl cm /\ created_at e = now.
Proof.
  split; [reflexivity|].
  destruct (set_fields now key v (Some 0) force cm) as (Hc & _).
  exists (stored_entry now v (Some 0) (before_store now key cm)).
  rewrite Hc. split; [apply dict_get_set_eq|]. split; [|reflexivity].
  destruct (before_store_same_config now key cm) as (_ & Hd & _).
  cbn. exact Hd.
Qed.

Lemma delete_counters (key : string) (cm : SmartCacheManager) :
  hits (snd (delete key cm)) = hits cm /\
  misses (snd (delete key cm)) = misses cm.
Proof.
  unfold delete. destruct cm as [ms dt st ec c ao fc h m e cp]; cbn.
  destruct (dict_mem key c); cbn; [|auto].
  destruct (list_mem key ao); cbn; destruct (dict_mem key fc); cbn; auto.
Qed.

(** C10: [get] answers [None] for an absent key, for an expired entry and
    for a live entry whose value is [None]; the first two count a miss and
    the third a hit.  Whenever [get] answers [None] the wrapper of
    [cached] executes the function (and stores what it returns); on any
    other answer it returns the answer without executing it. *)
Theorem C10_cached_none_is_a_miss (now later : Z) (key : string)
    (ttl : option Z) (func : result pyval) (cm : SmartCacheManager) :
  (dict_get key (cache cm) = None ->
   fst (get now key cm) = Ok VNone /\
   misses (snd (get now key cm)) = misses cm + 1 /\
   hits (snd (get now key cm)) = hits cm) /\
  (forall e, dict_get key (cache cm) = Some e -> is_expired now e = true ->
   fst (get now key cm) = Ok VNone /\
   misses (snd (get now key cm)) = misses cm + 1 /\
   hits (snd (get now key cm)) = hits cm) /\
  (forall e, dict_get key (cache cm) = Some e -> is_expired now e = false ->
   value e = VNone ->
   fst (get now key cm) = Ok VNone /\
   misses (snd (get now key cm)) = misses cm /\
   hits (snd (get now key cm)) = hits cm + 1) /\
  (fst (get now key cm) = Ok VNone ->
   cached_wrapper ttl key now later func cm
   = after_none ttl key later func (snd (get now key cm))) /\
  (forall r, fst (get now key cm) = Ok r -> r <> VNone ->
   cached_wrapper ttl key now later func cm
   = (Ok r, snd (get now key cm), [])).
Proof.
  split; [|split; [|split; [|split]]].
  - intros Hg. rewrite (get_miss now key cm Hg). cbn. auto.
  - intros e Hg He. rewrite (get_expired now key cm e Hg He).
    destruct (delete_counters key cm) as [Hh Hm]. cbn.
    rewrite Hh, Hm. auto.
  - intros e Hg He Hv.
    destruct (get_hit now key cm e Hg He) as (Hr & _ & _ & _ & _ & Hh & Hm & _).
    rewrite Hr, Hv. cbn. auto.
  - intros Hr. unfold cached_wrapper, after_none.
    destruct (get now key cm) as [r cm1]. cbn [fst snd] in *. subst r.
    cbn [is_None negb]. reflexivity.
  - intros r Hr Hne. unfold cached_wrapper.
    destruct (get now key cm) as [r' cm1]. cbn [fst snd] in *. subst r'.
    destruct r; try reflexivity. congruence.
Qed.

Lemma decompress_plain (v : pyval) :
  wrapper_like v = false -> _decompress_if_needed v = Ok v.
Proof.
  intros H. destruct v; try reflexivity.
  unfold wrapper_like in H. unfold _decompress_if_needed. rewrite H.
  reflexivity.
Qed.

(** What [set] compresses, [get] decompresses. *)
Lemma compress_decompress (v : pyval) (cm : SmartCacheManager) :
  wrapper_like v = false ->
  pickle_loads (pickle_dumps v) = Ok v ->
  gzip_decompress (gzip_compress (pickle_dumps v)) = Ok (pickle_dumps v) ->
  _decompress_if_needed (fst (_compress_if_needed v cm)) = Ok v.
Proof.
  intros Hw Hp Hz. unfold _compress_if_needed.
  destruct (enable_compression cm); cbn [negb fst];
    [|exact (decompress_plain v Hw)].
  destruct (1024 <? len (pickle_dumps v)); cbn [fst];
    [|exact (decompress_plain v Hw)].
  cbn. rewrite Hz. exact Hp.
Qed.

Lemma fresh_not_expired (now later : Z) (e : CacheEntry) :
  fresh (ttl e) (created_at e) later -> is_expired later e = false.
Proof.
  unfold fresh, is_expired. destruct (ttl e); [|reflexivity].
  intros H. apply Z.ltb_ge. exact H.
Qed.

(** C3, for values that do not look like the wrapper: when [v] is not a
    dictionary with a true ["_compressed"] entry, [v] survives
    serialization and its serialized form survives compression, and the
    entry has not expired in between, [get] after [set] returns [v],
    compressed in the store or not. *)
Theorem C3_round_trip_unless_wrapper_like (now later : Z) (key : string)
    (v : pyval) (ttl : option Z) (force : bool) (cm : SmartCacheManager) :
  wrapper_like v = false ->
  pickle_loads (pickle_dumps v) = Ok v ->
  gzip_decompress (gzip_compress (pickle_dumps v)) = Ok (pickle_dumps v) ->
  fresh (ttl_or_default ttl (default_ttl cm)) now later ->
  fst (get later key (snd (set now key v ttl force cm))) = Ok v.
Proof.
  intros Hw Hp Hz Hfresh.
  destruct (set_fields now key v ttl force cm) as (Hc & _).
  set (e := stored_entry now v ttl (before_store now key cm)) in *.
  assert (Hg : dict_get key (cache (snd (set now key v ttl force cm)))
               = Some e) by (rewrite Hc; apply dict_get_set_eq).
  assert (He : is_expired later e = false).
  { apply (fresh_not_expired now). unfold e. cbn.
    destruct (before_store_same_config now key cm) as (_ & Hd & _).
    rewrite Hd. exact Hfresh. }
  destruct (get_hit later key _ e Hg He) as (Hr & _).
  rewrite Hr. unfold e. cbn [value stored_entry].
  exact (compress_decompress v _ Hw Hp Hz).
Qed.

(** C8: on an empty LRU cache of capacity 2, [set("a",1); set("b",2);
    get("a"); set("c",3)] leaves exactly the keys "a" and "c", as long as
    "a" has not expired when it is read: the [get] moves "a" behind "b"
    in the recency order and the last [set] evicts "b". *)
Theorem C8_lru_scenario (d : option Z) (z : bool) (t1 t2 t3 t4 : Z) :
  fresh d t1 t3 ->
  let final :=
    run_ops [OpSet t1 "a" (VInt 1) None false;
             OpSet t2 "b" (VInt 2) None false;
             OpGet t3 "a";
             OpSet t4 "c" (VInt 3) None false]
      (new_cache 2 d LRU z) in
  keys (cache final) = ["a"; "c"] /\
  access_order final = ["a"; "c"] /\
  evictions final = 1.
Proof.
  intros Hfresh. cbv zeta. unfold run_ops. cbn [fold_left run_op].
  set (cm0 := new_cache 2 d LRU z).
  (* set("a", 1) *)
  set (cm1 := snd (set t1 "a" (VInt 1) None false cm0)).
  destruct (set_fields t1 "a" (VInt 1) None false cm0)
    as (Hc1 & Ha1 & _ & He1 & _ & _ & Hcfg1).
  fold cm1 in Hc1, Ha1, He1, Hcfg1.
  change (before_store t1 "a" cm0) with cm0 in *.
  destruct Hcfg1 as (Hm1 & Hd1 & Hs1 & _).
  change (cache cm0) with (@nil (string * CacheEntry)) in Hc1.
  cbn in Hc1, Ha1, He1, Hm1, Hd1, Hs1.
  (* set("b", 2) *)
  set (cm2 := snd (set t2 "b" (VInt 2) None false cm1)).
  assert (Hb2 : before_store t2 "b" cm1 = cm1).
  { unfold before_store. rewrite Hm1, Hc1. reflexivity. }
  destruct (set_fields t2 "b" (VInt 2) None false cm1)
    as (Hc2 & Ha2 & _ & He2 & _ & _ & Hcfg2).
  fold cm2 in Hc2, Ha2, He2, Hcfg2. rewrite Hb2 in *.
  destruct Hcfg2 as (Hm2 & Hd2 & Hs2 & _).
  rewrite Hs1, Ha1 in Ha2. rewrite Hc1 in Hc2.
  cbn in Hc2, Ha2.
  (* get("a") *)
  set (cm3 := snd (get t3 "a" cm2)).
  set (e1 := stored_entry t1 (VInt 1) None cm0) in *.
  assert (Hg : dict_get "a" (cache cm2) = Some e1)
    by (rewrite Hc2; reflexivity).
  assert (Hexp : is_expired t3 e1 = false).
  { apply (fresh_not_expired t1). exact Hfresh. }
  destruct (get_hit t3 "a" cm2 e1 Hg Hexp)
    as (_ & Hk3 & Ha3 & _ & He3 & _ & _ & Hcfg3).
  fold cm3 in Hk3, Ha3, He3, Hcfg3.
  destruct Hcfg3 as (Hm3 & Hd3 & Hs3 & _).
  rewrite Hs2, Hs1, Ha2 in Ha3. rewrite Hc2 in Hk3.
  cbn in Ha3. change (keys (cache cm3) = ["a"; "b"]) in Hk3.
  (* set("c", 3) *)
  assert (Hstr3 : strategy cm3 = LRU) by congruence.
  assert (Hmax3 : max_size cm3 = 2) by congruence.
  assert (Hmb : dict_mem "b" (cache cm3) = true).
  { apply dict_mem_In. rewrite Hk3. right. left. reflexivity. }
  assert (Hmc : dict_mem "c" (cache cm3) = false).
  { apply dict_mem_false. rewrite Hk3. intros [H|[H|[]]]; discriminate. }
  assert (Hb4 : before_store t4 "c" cm3
                = add_eviction
                    (with_cache (with_access_order cm3 ["a"])
                       (dict_del "b" (cache cm3)))).
  { unfold before_store. rewrite Hmax3, Hmc, <- len_keys, Hk3.
    cbn [andb negb]. change (2 <=? len ["a"; "b"]) with true. cbv iota.
    exact (evict_lru_head t4 cm3 "b" ["a"] Hstr3 Ha3 Hmb). }
  destruct (set_fields t4 "c" (VInt 3) None false cm3)
    as (Hc4 & Ha4 & _ & He4 & _).
  rewrite Hb4 in Hc4, Ha4, He4.
  cbn [cache access_order strategy evictions add_eviction with_counters
       with_cache with_access_order] in Hc4, Ha4, He4.
  rewrite Hstr3 in Ha4. cbn in Ha4.
  split; [|split].
  - rewrite Hc4, keys_set, keys_del, Hk3.
    replace (dict_mem "c" (dict_del "b" (cache cm3))) with false.
    + reflexivity.
    + symmetry. apply dict_mem_false. rewrite keys_del, Hk3.
      cbn. intros [H|[]]. discriminate.
  - exact Ha4.
  - rewrite He4, He3, He2, He1. reflexivity.
Qed.

End CacheFacts.

(** ** The cache on the sample serializer *)

Section CacheExamples.
Import Cache SampleSerializer.

Local Abbreviation S := SampleSerializer.serializer.

(** An LFU cache of capacity 2 under [sample_ops]. *)
Lemma C2_capacity_bound_evicting_witness :
  size (@run_ops S sample_ops (new_cache 2 (Some 3600) LFU true)) <= 2.
Proof.
  destruct (@C2_capacity_bound_evicting S 2 (Some 3600) LFU true sample_ops)
    as [H _]; [lia | reflexivity | exact H].
Defined.

(** C2 as stated fails for the strategies without an eviction branch and
    for a capacity of 0: a WRITE_THROUGH cache of capacity 1 holds two
    entries after two [set]s and has evicted nothing, and an LRU cache of
    capacity 0 holds one entry after one [set]. *)
Lemma C2_capacity_counterexample :
  let full :=
    @run_ops S [OpSet 0 "a" (VInt 1) None false;
                OpSet 1 "b" (VInt 2) None false]
      (new_cache 1 (Some 3600) WRITE_THROUGH true) in
  let zero :=
    @run_ops S [OpSet 0 "a" (VInt 1) None false]
      (new_cache 0 (Some 3600) LRU true) in
  (max_size full = 1 /\ ~ size full <= 1 /\ evictions full = 0) /\
  (max_size zero = 0 /\ ~ size zero <= 0).
Proof.
  cbv zeta.
  assert (H1 : size (@run_ops S [OpSet 0 "a" (VInt 1) None false;
                                 OpSet 1 "b" (VInt 2) None false]
                       (new_cache 1 (Some 3600) WRITE_THROUGH true)) = 2)
    by (vm_compute; reflexivity).
  assert (H2 : size (@run_ops S [OpSet 0 "a" (VInt 1) None false]
                       (new_cache 0 (Some 3600) LRU true)) = 1)
    by (vm_compute; reflexivity).
  rewrite H1, H2. repeat split; try (vm_compute; reflexivity); lia.
Qed.

(** A value of 2000 bytes, stored compressed, read back 5 units later. *)
Lemma C3_round_trip_unless_wrapper_like_witness :
  fst (@get S 5 "k"
         (snd (@set S 0 "k" large_value None false
                 (new_cache 1000 (Some 3600) LRU true))))
  = Ok large_value.
Proof.
  apply (@C3_round_trip_unless_wrapper_like S).
  - reflexivity.
  - vm_compute. reflexivity.
  - vm_compute. reflexivity.
  - vm_compute. discriminate.
Defined.

(** C3 as stated fails on a serializable value that looks like the
    wrapper: [wrapper_like_value] is stored as it is, and [get]
    decompresses it and returns the number 42. *)
Lemma C3_round_trip_counterexample :
  let cm := new_cache 1000 (Some 3600) LRU true in
  @pickle_loads S (@pickle_dumps S wrapper_like_value)
  = Ok wrapper_like_value /\
  fst (@get S 0 "k" (snd (@set S 0 "k" wrapper_like_value None false cm)))
  = Ok (VInt 42) /\
  fst (@get S 0 "k" (snd (@set S 0 "k" wrapper_like_value None false cm)))
  <> Ok wrapper_like_value.
Proof.
  cbv zeta.
  assert (H : fst (@get S 0 "k"
                     (snd (@set S 0 "k" wrapper_like_value None false
                             (new_cache 1000 (Some 3600) LRU true))))
              = Ok (VInt 42)) by (vm_compute; reflexivity).
  split; [vm_compute; reflexivity|]. split; [exact H|].
  rewrite H. discriminate.
Qed.

(** The scenario with the default [default_ttl] of 3600 at times 0 to 3. *)
Lemma C8_lru_scenario_witness :
  keys (cache (@run_ops S [OpSet 0 "a" (VInt 1) None false;
                           OpSet 1 "b" (VInt 2) None false;
                           OpGet 2 "a";
                           OpSet 3 "c" (VInt 3) None false]
                 (new_cache 2 (Some 3600) LRU true)))
  = ["a"; "c"].
Proof.
  destruct (@C8_lru_scenario S (Some 3600) true 0 1 2 3) as [H _].
  - vm_compute. discriminate.
  - exact H.
Defined.

(** A cached [None]: [get] counts a hit and the wrapper runs the function
    again. *)
Lemma C10_cached_none_is_a_miss_witness :
  hits (snd (@get S 1 "k" cache_with_none)) = 1 /\
  snd (@cached_wrapper S None "k" 1 2 (Ok (VInt 7)) cache_with_none)
  = [EvFunc].
Proof.
  destruct (@C10_cached_none_is_a_miss S 1 2 "k" None (Ok (VInt 7))
              cache_with_none) as (_ & _ & H3 & H4 & _).
  split.
  - destruct (H3 (@stored_entry S 0 VNone None
                    (new_cache 10 (Some 3600) LRU true)))
      as (_ & _ & Hh); [reflexivity | reflexivity | reflexivity |].
    rewrite Hh. reflexivity.
  - rewrite H4; [reflexivity | vm_compute; reflexivity].
Defined.

End CacheExamples.

(** * Further properties *)

(** ** More on the circuit breaker *)

(** X1, at the Google Books configuration: three failing calls on a new
    breaker invoke the operation three times and leave the circuit
    CLOSED with three failures recorded. *)
Lemma consecutive_failures_fill_window_witness :
  exists rs cb' evs,
    Breaker.call_all Breaker.three_failing_calls
      (Breaker.new_breaker "google_books" Breaker.google_books_config
         (Some (fun isbn : Z => Ok isbn)) 0)
    = (rs, cb', evs) /\
    Breaker.state cb' = Breaker.CLOSED /\
    Breaker.failure_count (Breaker.stats cb') = 3 /\
    invocations evs = 3%nat.
Proof.
  destruct (consecutive_failures_fill_window Z Z Breaker.three_failing_calls
              (Breaker.new_breaker "google_books" Breaker.google_books_config
                 (Some (fun isbn : Z => Ok isbn)) 0))
    as (rs & cb' & evs & E & Hst & _ & Hf & _ & Hinv).
  - reflexivity.
  - reflexivity.
  - vm_compute. discriminate.
  - vm_compute. discriminate.
  - vm_compute. discriminate.
  - repeat constructor.
  - exists rs, cb', evs. repeat split; assumption.
Defined.

(** X2, at the Google Books configuration, whose exception classes do not
    cover [asyncio.TimeoutError]. *)
Lemma timeout_caught_by_timeout_clause_witness :
  exists cb',
    Breaker.call 1 2 3 TimesOut 0
      (Breaker.new_breaker "google_books" Breaker.google_books_config
         (Some (fun isbn : Z => Ok (A := Z) isbn)) 0)
    = (Raise (CircuitBreakerTimeoutException 10), cb', [EvFunc]).
Proof.
  destruct (timeout_caught_by_timeout_clause Z Z 1 2 3 0
              (Breaker.new_breaker "google_books" Breaker.google_books_config
                 (Some (fun isbn : Z => Ok isbn)) 0))
    as (cb' & E & _).
  - discriminate.
  - vm_compute. discriminate.
  - reflexivity.
  - exists cb'. exact E.
Defined.

Section BreakerMore.
Import Breaker.

Variables A V : Type.

Lemma check_keeps_config_stats (now : Z) (cb : CircuitBreaker A V) :
  config (_check_state_transition now cb) = config cb /\
  stats (_check_state_transition now cb) = stats cb /\
  fallback (_check_state_transition now cb) = fallback cb /\
  name (_check_state_transition now cb) = name cb.
Proof.
  unfold _check_state_transition.
  destruct (state cb); repeat match goal with
    | |- context [if ?c then _ else _] => destruct c end; auto.
Qed.

(** X3: an exception of the operation that is neither of the configured
    classes nor [asyncio.TimeoutError] goes through [call] unchanged and
    is not recorded: apart from the state check, the breaker and its
    statistics stay as they were. *)
Theorem unexpected_exception_not_recorded (now t1 t2 : Z) (e : exn)
    (args : A) (cb : CircuitBreaker A V) :
  state (_check_state_transition now cb) <> OPEN ->
  expected_exception (config cb) e = false ->
  e <> AsyncioTimeoutError ->
  call now t1 t2 (Raises e) args cb
  = (Raise e, _check_state_transition now cb, [EvFunc]) /\
  stats (_check_state_transition now cb) = stats cb.
Proof.
  intros Hst Hexp Hne.
  destruct (check_keeps_config_stats now cb) as (Hcfg & Hstats & _).
  split; [|exact Hstats]. unfold call, handle_exception.
  rewrite Hcfg, Hexp.
  destruct (state (_check_state_transition now cb));
    [| exfalso; apply Hst; reflexivity |];
    destruct e; try reflexivity; congruence.
Qed.

(** X4: a CLOSED breaker below its threshold passes a successful call
    through: the operation is invoked once, its value is returned, a
    success is recorded and the circuit stays CLOSED. *)
Theorem closed_success_passes_through (now t1 t2 : Z) (v : V) (args : A)
    (cb : CircuitBreaker A V) :
  state cb = CLOSED ->
  failure_count (stats cb) < failure_threshold (config cb) ->
  1 <= window_size (stats cb) ->
  exists cb',
    call now t1 t2 (Returns v) args cb = (Ok v, cb', [EvFunc]) /\
    state cb' = CLOSED /\
    last_state_change cb' = last_state_change cb /\
    record_success (stats cb) = Ok (stats cb').
Proof.
  intros Hst Hlt Hw.
  assert (Hcheck : _check_state_transition now cb = cb).
  { unfold _check_state_transition. rewrite Hst.
    replace (failure_threshold (config cb) <=? failure_count (stats cb))
      with false; [reflexivity|]. symmetry. apply Z.leb_gt. exact Hlt. }
  destruct (record_success_ok (stats cb) Hw) as (s1 & E & _).
  exists (with_stats cb s1). unfold call. rewrite Hcheck, Hst.
  unfold _on_success. rewrite E. cbn [state with_stats]. rewrite Hst.
  repeat split; reflexivity.
Qed.

(** X5: closing from HALF_OPEN does not clear the failure window.  When
    the success that closes the circuit leaves [failure_count] and
    [total_requests] at or above the threshold, whether the window was
    full before it or not, the circuit is CLOSED after that call and the
    state check of the very next call opens it again: that call is
    answered by the fallback or the open-circuit error and the operation
    is not invoked. *)
Theorem closing_with_full_window_reopens (now t1 t2 : Z) (v : V) (args : A)
    (cb : CircuitBreaker A V) (s1 : CircuitBreakerStats) :
  state cb = HALF_OPEN ->
  success_threshold (config cb) <= half_open_success_count cb + 1 ->
  record_success (stats cb) = Ok s1 ->
  failure_threshold (config cb) <= failure_count s1 ->
  failure_threshold (config cb) <= total_requests s1 ->
  exists cb1,
    call now t1 t2 (Returns v) args cb = (Ok v, cb1, [EvFunc]) /\
    state cb1 = CLOSED /\
    stats cb1 = s1 /\
    forall (now' t1' t2' : Z) (func' : outcome V) (args' : A),
      call now' t1' t2' func' args' cb1
      = (open_answer cb args', _check_state_transition now' cb1,
         open_events cb) /\
      state (_check_state_transition now' cb1) = OPEN /\
      invocations (open_events cb) = 0%nat.
Proof.
  intros Hst HS Hrec HF HT.
  set (cb1 := with_state (with_stats cb s1) CLOSED t1 0).
  assert (Hcall : call now t1 t2 (Returns v) args cb = (Ok v, cb1, [EvFunc])).
  { unfold call, _check_state_transition. rewrite Hst. cbn iota. rewrite Hst.
    unfold _on_success. rewrite Hrec. cbn [state with_stats config
      half_open_success_count]. rewrite Hst.
    apply Z.leb_le in HS. rewrite HS. reflexivity. }
  exists cb1. split; [exact Hcall|]. split; [reflexivity|].
  split; [reflexivity|].
  intros now' t1' t2' func' args'.
  assert (Hopen : _check_state_transition now' cb1
                  = with_state cb1 OPEN now' 0).
  { unfold _check_state_transition. cbn [state cb1 with_state with_stats
      config stats half_open_success_count].
    apply Z.leb_le in HF, HT. rewrite HF, HT. reflexivity. }
  split; [|split].
  - unfold call. rewrite Hopen. cbn [state with_state fallback cb1 with_stats
      name]. unfold open_answer, open_events, _execute_fallback.
    destruct (fallback cb); reflexivity.
  - rewrite Hopen. reflexivity.
  - unfold invocations, open_events. destruct (fallback cb); reflexivity.
Qed.

End BreakerMore.

(** X3, at the Google Books configuration and a [ValueError]. *)
Lemma unexpected_exception_not_recorded_witness :
  let cb := Breaker.new_breaker "google_books" Breaker.google_books_config
              (Some (fun isbn : Z => Ok (A := Z) isbn)) 0 in
  Breaker.call 1 2 3 (Raises (UpstreamError "ValueError")) 0 cb
  = (Raise (UpstreamError "ValueError"), cb, [EvFunc]).
Proof.
  cbv zeta.
  destruct (unexpected_exception_not_recorded Z Z 1 2 3
              (UpstreamError "ValueError") 0
              (Breaker.new_breaker "google_books" Breaker.google_books_config
                 (Some (fun isbn : Z => Ok isbn)) 0)) as [H _].
  - discriminate.
  - reflexivity.
  - discriminate.
  - exact H.
Defined.

(** X4, on a new breaker. *)
Lemma closed_success_passes_through_witness :
  exists cb',
    Breaker.call 1 2 3 (Returns 7) 0
      (Breaker.new_breaker "google_books" Breaker.google_books_config
         (Some (fun isbn : Z => Ok isbn)) 0)
    = (Ok 7, cb', [EvFunc]) /\
    Breaker.state cb' = Breaker.CLOSED.
Proof.
  destruct (closed_success_passes_through Z Z 1 2 3 7 0
              (Breaker.new_breaker "google_books" Breaker.google_books_config
                 (Some (fun isbn : Z => Ok isbn)) 0))
    as (cb' & E & Hst & _).
  - reflexivity.
  - reflexivity.
  - vm_compute. discriminate.
  - exists cb'. split; assumption.
Defined.

(** X5, on the Google Books breaker with a full window of 97 successes
    and three failures: HALF_OPEN after two successful probes, the third
    at time 133 closes the circuit, and the call at time 134 finds it open
    again. *)
Lemma closing_with_full_window_reopens_witness :
  Breaker.total_requests (Breaker.stats Breaker.full_window_breaker)
  = Breaker.window_size (Breaker.stats Breaker.full_window_breaker) /\
  exists cb1,
    Breaker.call 133 133 133 (Returns 7) 0 Breaker.full_window_breaker
    = (Ok 7, cb1, [EvFunc]) /\
    Breaker.state cb1 = Breaker.CLOSED /\
    fst (Breaker.call 134 134 134 (Returns 8) 5 cb1)
    = (Ok 5, Breaker._check_state_transition 134 cb1) /\
    Breaker.state (Breaker._check_state_transition 134 cb1) = Breaker.OPEN.
Proof.
  split; [vm_compute; reflexivity|].
  destruct (closing_with_full_window_reopens Z Z 133 133 133 7 0
              Breaker.full_window_breaker
              (match Breaker.record_success
                       (Breaker.stats Breaker.full_window_breaker) with
               | Ok s => s
               | Raise _ => Breaker.stats Breaker.full_window_breaker
               end))
    as (cb1 & E & Hst & _ & Hnext).
  - vm_compute. reflexivity.
  - vm_compute. discriminate.
  - vm_compute. reflexivity.
  - vm_compute. discriminate.
  - vm_compute. discriminate.
  - exists cb1. split; [exact E|]. split; [exact Hst|].
    destruct (Hnext 134 134 134 (Returns 8) 5) as (Hc & Ho & _).
    split; [rewrite Hc; vm_compute; reflexivity | exact Ho].
Defined.

(** ** More on the failure statistics *)

Section WindowMore.
Import Breaker.

(** X6: a window of capacity 0 or less cannot record anything: the first
    [record_success] or [record_failure] raises [IndexError], from
    [pop(0)] on the empty list. *)
Theorem nonpositive_window_raises (N : Z) (op : bool * Z)
    (ops : list (bool * Z)) :
  N <= 0 -> record_all (op :: ops) (new_stats N) = Raise IndexError.
Proof.
  intros HN. cbn [record_all]. unfold record, record_success, record_failure,
    _add_request. cbn [window_size new_stats requests].
  change (len (@nil bool)) with 0. apply Z.leb_le in HN. rewrite HN.
  destruct (fst op); reflexivity.
Qed.

(** X7: in a window of capacity [N >= 1], [total_requests] is the number
    of recorded outcomes until the window is full and [N] from then on,
    and the two counters always add up to it. *)
Theorem window_saturates (N : Z) (ops : list (bool * Z)) :
  1 <= N ->
  exists s,
    record_all ops (new_stats N) = Ok s /\
    window_size s = N /\
    total_requests s = Z.min (len ops) N /\
    success_count s + failure_count s = total_requests s.
Proof.
  intros HN.
  assert (Hinit : window_inv N [] (new_stats N)).
  { unfold window_inv, new_stats; simpl. repeat split; auto. }
  destruct (record_all_preserves N ops HN [] _ Hinit)
    as (s & E & Hw & Hr & Hs & Hf).
  simpl in Hr. exists s. split; [exact E|]. split; [exact Hw|]. split.
  - unfold total_requests, len. rewrite Hr, length_lastn, length_map. lia.
  - rewrite Hs, Hf. apply count_true_false.
Qed.

End WindowMore.

Lemma nonpositive_window_raises_witness :
  Breaker.record_all [(true, 1); (false, 2)] (Breaker.new_stats 0)
  = Raise IndexError.
Proof. apply nonpositive_window_raises. lia. Defined.

Lemma window_saturates_witness :
  exists s,
    Breaker.record_all [(true, 1); (false, 2); (false, 3); (true, 4)]
      (Breaker.new_stats 3) = Ok s /\
    Breaker.total_requests s = 3.
Proof.
  destruct (window_saturates 3 [(true, 1); (false, 2); (false, 3); (true, 4)])
    as (s & E & _ & Ht & _); [lia|].
  exists s. split; [exact E | rewrite Ht; reflexivity].
Defined.

(** ** More on the two merges *)

(** X9, on the two sample answers. *)
Lemma merge_results_first_non_empty_witness :
  dict_get "publisher"
    (Enrichment.merge_results
       [Enrichment.google_answer; Enrichment.openlibrary_answer])
  = Some (VStr "Ace").
Proof.
  rewrite merge_results_first_non_empty.
  - reflexivity.
  - repeat constructor; vm_compute; intuition discriminate.
Defined.

Section EnrichMore.
Import Breaker Enrichment.

Lemma dict_set_absent {V : Type} (k : string) (v : V) (d : dict V) :
  ~ In k (keys d) -> dict_set k v d = d ++ [(k, v)].
Proof.
  unfold keys. induction d as [|[k' v'] d IH]; simpl; intros H.
  - reflexivity.
  - destruct (String.eqb k' k) eqn:E.
    + apply String.eqb_eq in E. subst. tauto.
    + rewrite IH; [reflexivity | tauto].
Qed.

Lemma dict_update_append {V : Type} (other : dict V) :
  forall d, NoDup (keys d ++ keys other) -> dict_update d other = d ++ other.
Proof.
  unfold dict_update.
  induction other as [|[k v] other IH]; intros d Hnd; simpl.
  - rewrite app_nil_r. reflexivity.
  - assert (Hk : ~ In k (keys d)).
    { apply NoDup_remove_2 in Hnd. rewrite in_app_iff in Hnd. tauto. }
    rewrite (dict_set_absent k v d Hk), IH.
    + rewrite <- app_assoc. reflexivity.
    + unfold keys in *. rewrite map_app, <- app_assoc. exact Hnd.
Qed.

(** [d.update(result)] on an empty dictionary copies the result. *)
Lemma dict_update_empty {V : Type} (d : dict V) :
  NoDup (keys d) -> dict_update [] d = d.
Proof. intros H. exact (dict_update_append d [] H). Qed.

(** X10: one failing source does not fail the enrichment.  On a new
    service, when the Google Books fetch raises (any exception) or times
    out and OpenLibrary answers [d], [enrich_book_data] returns [d]. *)
Theorem enrich_survives_one_failure (clk : readings) (isbn : string)
    (google : outcome (dict pyval)) (d : dict pyval) (t0 : Z) :
  isbn <> "" ->
  (forall x, google <> Returns x) ->
  NoDup (keys d) ->
  fst (enrich_book_data clk (Some isbn) google (Returns d) (new_service t0))
  = d.
Proof.
  intros Hisbn Hfail Hnd. unfold enrich_book_data.
  apply String.eqb_neq in Hisbn. rewrite Hisbn.
  assert (H1 : exists e g ev,
    call (g_check clk) (g_record clk) (g_change clk) google isbn
      (google_books_cb (new_service t0)) = (Raise e, g, ev)).
  { destruct google as [x|e|].
    - exfalso. exact (Hfail x eq_refl).
    - unfold call, handle_exception, _on_failure, record_failure,
        _add_request, len. cbn.
      destruct (httpx_errors e); [eauto|]. destruct e; eauto.
    - unfold call, handle_exception, _on_failure, record_failure,
        _add_request, len. cbn. eauto. }
  destruct H1 as (e & g & ev & ->).
  assert (H2 : exists o ev,
    call (o_check clk) (o_record clk) (o_change clk) (Returns d) isbn
      (openlibrary_cb (new_service t0)) = (Ok d, o, ev))
    by (unfold call, _on_success, record_success, _add_request, len; cbn;
        eauto).
  destruct H2 as (o & ev2 & ->). cbn [fst].
  unfold collect, consolidate. cbn [flat_map app].
  destruct d as [|kv d]; [reflexivity|]. cbn [fold_left].
  apply dict_update_empty. exact Hnd.
Qed.

(** X11: while the Google Books circuit is open its fallback stands in
    for the fetch: when OpenLibrary's protected call answers [d], every
    field of the merged result is OpenLibrary's when [d] has the field
    and the fallback's otherwise, and the Google Books breaker is left as
    it was. *)
Theorem enrich_uses_fallback_while_open (clk : readings) (isbn : string)
    (google openlib : outcome (dict pyval)) (d : dict pyval)
    (svc : ResilientBookEnrichmentService) :
  isbn <> "" ->
  state (google_books_cb svc) = OPEN ->
  g_check clk - last_state_change (google_books_cb svc)
  < recovery_timeout (config (google_books_cb svc)) ->
  fallback (google_books_cb svc) = Some _google_books_fallback ->
  fst (fst (call (o_check clk) (o_record clk) (o_change clk) openlib isbn
              (openlibrary_cb svc))) = Ok d ->
  google_books_cb (snd (enrich_book_data clk (Some isbn) google openlib svc))
  = google_books_cb svc /\
  exists fb,
    _google_books_fallback isbn = Ok fb /\
    forall k,
      dict_get k (fst (enrich_book_data clk (Some isbn) google openlib svc))
      = match dict_get k (rev d) with
        | Some v => Some v
        | None => dict_get k fb
        end.
Proof.
  intros Hisbn Hst Hlt Hfb Hol. unfold enrich_book_data.
  apply String.eqb_neq in Hisbn. rewrite Hisbn.
  rewrite (call_while_open _ _ _ _ _ _ _ (google_books_cb svc) Hst Hlt).
  destruct (call (o_check clk) (o_record clk) (o_change clk) openlib isbn
              (openlibrary_cb svc)) as [[r2 o] ev2].
  cbn [fst snd] in *. subst r2. split; [reflexivity|].
  unfold open_answer. rewrite Hfb. unfold _google_books_fallback.
  eexists. split; [reflexivity|]. intros k.
  unfold collect, consolidate. cbn [flat_map app].
  destruct d as [|kv d].
  - cbn [fold_left rev dict_get]. reflexivity.
  - cbn [app fold_left]. rewrite dict_get_update. reflexivity.
Qed.

End EnrichMore.

(** X10, with the sample answer of OpenLibrary. *)
Lemma enrich_survives_one_failure_witness :
  fst (Enrichment.enrich_book_data
         (Enrichment.Build_readings 1 2 3 4 5 6) (Some "9780441013593")
         (Raises (UpstreamError "HTTPError"))
         (Returns Enrichment.openlibrary_answer) (Enrichment.new_service 0))
  = Enrichment.openlibrary_answer.
Proof.
  apply enrich_survives_one_failure.
  - discriminate.
  - discriminate.
  - repeat constructor; vm_compute; intuition discriminate.
Defined.

(** X11, on a service whose Google Books circuit opened at time 4: at
    time 10 the description of the fallback is in the result. *)
Lemma enrich_uses_fallback_while_open_witness :
  dict_get "description"
    (fst (Enrichment.enrich_book_data
            (Enrichment.Build_readings 10 10 10 10 10 10)
            (Some "9780441013593") (Returns Enrichment.google_answer)
            (Returns Enrichment.openlibrary_answer)
            Enrichment.service_with_open_google))
  = Some (VStr "Informações não disponíveis temporariamente").
Proof.
  destruct (enrich_uses_fallback_while_open
              (Enrichment.Build_readings 10 10 10 10 10 10)
              "9780441013593" (Returns Enrichment.google_answer)
              (Returns Enrichment.openlibrary_answer)
              Enrichment.openlibrary_answer
              Enrichment.service_with_open_google)
    as (_ & fb & Hfb & Hget).
  - discriminate.
  - reflexivity.
  - vm_compute. reflexivity.
  - reflexivity.
  - reflexivity.
  - rewrite Hget. injection Hfb as <-. reflexivity.
Defined.

(** ** More on the cache *)

Section CacheMore.
Import Cache.

Context {serializer : Serializer}.

Lemma cache_delete (key : string) (cm : SmartCacheManager) :
  cache (snd (delete key cm)) = dict_del key (cache cm).
Proof.
  destruct (dict_mem key (cache cm)) eqn:Hm.
  - rewrite (delete_present _ _ Hm). reflexivity.
  - rewrite (delete_absent _ _ Hm). cbn [snd].
    symmetry. apply dict_del_absent. exact Hm.
Qed.

Lemma keys_nil_inv {V : Type} (d : dict V) : keys d = [] -> d = [].
Proof. destruct d; [reflexivity | discriminate]. Qed.

(** On an empty cache there is nothing to evict. *)
Lemma evict_empty (now : Z) (cm : SmartCacheManager) :
  consistent cm -> cache cm = [] -> _evict_entries now 1 cm = cm.
Proof.
  intros (_ & Hlru & Hlfu) He. unfold _evict_entries.
  destruct (strategy cm) eqn:Hs; try reflexivity.
  - destruct (Hlru eq_refl) as [_ Hiff]. rewrite He in Hiff.
    destruct (access_order cm) as [|k rest]; [reflexivity|].
    exfalso. apply (proj1 (Hiff k)). left. reflexivity.
  - destruct (Hlfu eq_refl) as [_ Hiff]. rewrite He in Hiff.
    destruct (frequency_counter cm) as [|[k f] rest]; [reflexivity|].
    exfalso. apply (proj1 (Hiff k)). left. reflexivity.
  - rewrite He. cbn [filter map]. rewrite slice_to_1_nil. cbn [fold_left].
    change (0 <? 1 - len (@nil string)) with true. cbv iota.
    change (1 - len (@nil string)) with 1. rewrite He. reflexivity.
Qed.

Lemma evict_consistent (now : Z) (cm : SmartCacheManager) :
  consistent cm -> consistent (_evict_entries now 1 cm).
Proof.
  intros Hc. destruct (cache cm) as [|kv c] eqn:He.
  - rewrite (evict_empty now cm Hc He). exact Hc.
  - destruct (evicting (strategy cm)) eqn:Hev.
    + destruct (evict_one now cm Hc Hev) as (_ & _ & H & _);
        [rewrite He; discriminate | exact H].
    + unfold _evict_entries. destruct (strategy cm); try discriminate;
        exact Hc.
Qed.

Lemma set_consistent (now : Z) (key : string) (v : pyval) (ttl : option Z)
    (force : bool) (cm : SmartCacheManager) :
  consistent cm -> consistent (snd (set now key v ttl force cm)).
Proof.
  intros Hc.
  assert (Hb : consistent (before_store now key cm)).
  { unfold before_store. destruct (_ && _); [|exact Hc].
    apply evict_consistent. exact Hc. }
  exact (proj1 (set_after_store now key v ttl force cm Hb)).
Qed.

Lemma get_same_config (now : Z) (key : string) (cm : SmartCacheManager) :
  same_config cm (snd (get now key cm)).
Proof.
  destruct (dict_get key (cache cm)) as [entry|] eqn:Hg.
  - destruct (is_expired now entry) eqn:He.
    + rewrite (get_expired now key cm entry Hg He).
      exact (delete_same_config key cm).
    + destruct (get_hit now key cm entry Hg He)
        as (_ & _ & _ & _ & _ & _ & _ & H). exact H.
  - rewrite (get_miss now key cm Hg). repeat split; reflexivity.
Qed.

Lemma get_consistent (now : Z) (key : string) (cm : SmartCacheManager) :
  consistent cm -> consistent (snd (get now key cm)).
Proof.
  intros Hc. destruct (dict_get key (cache cm)) as [entry|] eqn:Hg.
  - destruct (is_expired now entry) eqn:He.
    + rewrite (get_expired now key cm entry Hg He).
      exact (proj1 (delete_spec key cm Hc)).
    + destruct Hc as (Hnd & Hlru & Hlfu).
      destruct (get_hit now key cm entry Hg He)
        as (_ & Hk & Hao & Hfc & _ & _ & _ & Hcfg).
      pose proof Hcfg as (_ & _ & Hstr & _).
      assert (Hin : In key (keys (cache cm))).
      { apply dict_mem_In. unfold dict_mem. rewrite Hg. reflexivity. }
      unfold consistent. rewrite Hk, Hao, Hfc, Hstr.
      split; [exact Hnd|]. split; intros Hs; rewrite Hs.
      * cbn [is_LRU]. apply same_keys_touch with (l2 := keys (cache cm)).
        -- apply Hlru. exact Hs.
        -- intros k. split; [tauto|]. intros [->|H]; assumption.
      * cbn [is_LFU]. destruct (Hlfu Hs) as [Hndf Hiff].
        assert (Hmf : dict_mem key (frequency_counter cm) = true)
          by (apply dict_mem_In, Hiff; exact Hin).
        rewrite keys_set, Hmf. split; assumption.
  - rewrite (get_miss now key cm Hg). exact Hc.
Qed.

Lemma run_op_consistent (op : operation) (cm : SmartCacheManager) :
  consistent cm -> consistent (run_op op cm).
Proof.
  intros Hc. destruct op as [now key v ttl force | now key | key].
  - exact (set_consistent now key v ttl force cm Hc).
  - exact (get_consistent now key cm Hc).
  - exact (proj1 (delete_spec key cm Hc)).
Qed.

Lemma run_ops_consistent (ops : list operation) :
  forall cm, consistent cm -> consistent (run_ops ops cm).
Proof.
  induction ops as [|op ops IH]; intros cm Hc; [exact Hc|].
  exact (IH _ (run_op_consistent op cm Hc)).
Qed.

Lemma run_ops_same_config (ops : list operation) :
  forall cm, same_config cm (run_ops ops cm).
Proof.
  induction ops as [|op ops IH]; intros cm; [apply same_config_refl|].
  apply (same_config_trans _ (run_op op cm)); [|apply IH].
  destruct op as [now key v ttl force | now key | key]; cbn [run_op].
  - destruct (set_fields now key v ttl force cm) as (_ & _ & _ & _ & _ & _ & H).
    exact (same_config_trans _ _ _ (before_store_same_config now key cm) H).
  - apply get_same_config.
  - apply delete_same_config.
Qed.

(** X12: whatever the capacity and the strategy, after any sequence of
    [set], [get] and [delete] on a new cache no key is stored twice, under
    LRU the recency order lists exactly the stored keys, each once, and
    under LFU the frequency counter has exactly the stored keys. *)
Theorem bookkeeping_agrees_with_cache (C : Z) (d : option Z)
    (strat : CacheStrategy) (z : bool) (ops : list operation) :
  let cm := run_ops ops (new_cache C d strat z) in
  strategy cm = strat /\ max_size cm = C /\
  NoDup (keys (cache cm)) /\
  (strat = LRU ->
   NoDup (access_order cm) /\
   forall k, In k (access_order cm) <-> dict_mem k (cache cm) = true) /\
  (strat = LFU ->
   NoDup (keys (frequency_counter cm)) /\
   forall k, dict_mem k (frequency_counter cm) = true
             <-> dict_mem k (cache cm) = true).
Proof.
  cbv zeta.
  assert (Hinit : consistent (new_cache C d strat z)).
  { unfold consistent, same_keys. cbn.
    repeat split; try constructor; try tauto. }
  pose proof (run_ops_consistent ops _ Hinit) as (Hnd & Hlru & Hlfu).
  destruct (run_ops_same_config ops (new_cache C d strat z))
    as (Hms & _ & Hstr & _).
  cbn in Hms, Hstr. split; [exact Hstr|]. split; [exact Hms|].
  split; [exact Hnd|]. split; intros Hs.
  - destruct Hlru as [H1 H2]; [congruence|]. split; [exact H1|].
    intros k. rewrite dict_mem_In. apply H2.
  - destruct Hlfu as [H1 H2]; [congruence|]. split; [exact H1|].
    intros k. rewrite !dict_mem_In. apply H2.
Qed.

Lemma lastn_In {T : Type} (n : nat) (l : list T) (x : T) :
  In x (lastn n l) -> In x l.
Proof.
  unfold lastn. intros H.
  rewrite <- (firstn_skipn (length l - n) l). apply in_or_app. right. exact H.
Qed.

(** One [set] of a key that is not stored, on an LRU cache whose stored
    keys and recency order are both [L]. *)
Lemma lru_set_new_key (now : Z) (key : string) (v : pyval) (ttl : option Z)
    (force : bool) (cm : SmartCacheManager) (L : list string) :
  strategy cm = LRU -> 1 <= max_size cm ->
  keys (cache cm) = L -> access_order cm = L -> ~ In key L ->
  let cm' := snd (set now key v ttl force cm) in
  strategy cm' = LRU /\ max_size cm' = max_size cm /\
  keys (cache cm') = access_order cm' /\
  (len L < max_size cm ->
   access_order cm' = L ++ [key] /\ evictions cm' = evictions cm) /\
  (max_size cm <= len L ->
   access_order cm' = tl L ++ [key] /\ evictions cm' = evictions cm + 1).
Proof.
  intros Hs HC Hk Hao Hnew. cbv zeta.
  destruct (set_fields now key v ttl force cm)
    as (Hc' & Hao' & _ & He' & _ & _ & Hcfg').
  pose proof (before_store_same_config now key cm) as Hcfg0.
  pose proof (same_config_trans _ _ _ Hcfg0 Hcfg') as (Hms & _ & Hstr & _).
  destruct Hcfg0 as (_ & _ & Hstr0 & _).
  rewrite Hstr0, Hs in Hao'. cbn [is_LRU] in Hao'.
  assert (Hmem : dict_mem key (cache cm) = false)
    by (apply dict_mem_false; rewrite Hk; exact Hnew).
  split; [congruence|]. split; [exact Hms|].
  unfold before_store in *. rewrite Hmem in *. cbn [negb] in *.
  rewrite andb_true_r in *. rewrite <- len_keys, Hk in *.
  destruct (max_size cm <=? len L) eqn:Hfull.
  - apply Z.leb_le in Hfull.
    destruct L as [|h rest].
    { change (len (@nil string)) with 0 in Hfull. lia. }
    assert (Hmh : dict_mem h (cache cm) = true)
      by (apply dict_mem_In; rewrite Hk; left; reflexivity).
    rewrite (evict_lru_head now cm h rest Hs Hao Hmh) in *.
    cbn [cache access_order evictions add_eviction with_counters with_cache
         with_access_order] in *.
    assert (Hrest : ~ In key rest) by (intros H; apply Hnew; right; exact H).
    assert (Hkd : keys (dict_del h (cache cm)) = rest).
    { rewrite keys_del, Hk. simpl. rewrite String.eqb_refl. reflexivity. }
    rewrite (list_remove_absent key rest Hrest) in Hao'.
    split.
    + rewrite Hc', keys_set, Hao'.
      replace (dict_mem key (dict_del h (cache cm))) with false
        by (symmetry; apply dict_mem_false; rewrite Hkd; exact Hrest).
      rewrite Hkd. reflexivity.
    + split; [intros Hlt; lia|]. intros _. split; [exact Hao' | exact He'].
  - apply Z.leb_gt in Hfull.
    rewrite Hao, (list_remove_absent key L Hnew) in Hao'.
    split.
    + rewrite Hc', keys_set, Hmem, Hk, Hao'. reflexivity.
    + split; [|intros Hge; lia]. intros _. split; [exact Hao' | exact He'].
Qed.

Lemma lru_sets_invariant (C : Z) (ops : list operation) :
  1 <= C ->
  forall (cm : SmartCacheManager) (p : list string),
  strategy cm = LRU -> max_size cm = C ->
  keys (cache cm) = lastn (Z.to_nat C) p ->
  access_order cm = lastn (Z.to_nat C) p ->
  evictions cm = len p - len (lastn (Z.to_nat C) p) ->
  forallb is_set ops = true ->
  NoDup (p ++ map op_key ops) ->
  let cm' := run_ops ops cm in
  let all := p ++ map op_key ops in
  keys (cache cm') = lastn (Z.to_nat C) all /\
  access_order cm' = lastn (Z.to_nat C) all /\
  evictions cm' = len all - len (lastn (Z.to_nat C) all).
Proof.
  intros HC. induction ops as [|op ops IH];
    intros cm p Hs Hms Hk Hao Hev Hsets Hnd; cbv zeta.
  - cbn [map run_ops fold_left]. rewrite app_nil_r. auto.
  - cbn [forallb] in Hsets. apply andb_prop in Hsets as [Hset Hsets].
    destruct op as [now key v ttl force | |]; try discriminate.
    cbn [map op_key] in *.
    assert (Hnew : ~ In key (lastn (Z.to_nat C) p)).
    { intros Hin. apply lastn_In in Hin. apply NoDup_remove_2 in Hnd.
      apply Hnd. apply in_or_app. left. exact Hin. }
    destruct (lru_set_new_key now key v ttl force cm _ Hs
                ltac:(rewrite Hms; exact HC) Hk Hao Hnew)
      as (Hs1 & Hms1 & Hk1 & Hroom & Hfull).
    rewrite Hms in *.
    set (cm1 := snd (set now key v ttl force cm)) in *.
    assert (Hstep : access_order cm1 = lastn (Z.to_nat C) (p ++ [key]) /\
                    evictions cm1
                    = len (p ++ [key])
                      - len (lastn (Z.to_nat C) (p ++ [key]))).
    { assert (Hlp : len (p ++ [key]) = len p + 1)
        by (unfold len; rewrite length_app; simpl length; lia).
      assert (Hll := length_lastn (Z.to_nat C) p).
      destruct (Z_lt_le_dec (len (lastn (Z.to_nat C) p)) C) as [Hlt|Hge].
      - destruct (Hroom Hlt) as [Ha He].
        rewrite (lastn_snoc_room (Z.to_nat C) p key)
          by (unfold len in Hlt; lia).
        split; [exact Ha|]. rewrite He, Hev, Hlp.
        unfold len. rewrite length_app. simpl length. lia.
      - destruct (Hfull Hge) as [Ha He].
        rewrite (lastn_snoc_full (Z.to_nat C) p key)
          by (unfold len in Hge; lia).
        split; [exact Ha|]. rewrite He, Hev, Hlp.
        unfold len in *. rewrite length_app. simpl length.
        destruct (lastn (Z.to_nat C) p) as [|h rest];
          simpl length in *; simpl tl; lia. }
    destruct Hstep as [Ha1 He1].
    assert (Hnd1 : NoDup ((p ++ [key]) ++ map op_key ops))
      by (rewrite <- app_assoc; exact Hnd).
    destruct (IH cm1 (p ++ [key]) Hs1 ltac:(congruence)
                ltac:(congruence) Ha1 He1 Hsets Hnd1) as (H1 & H2 & H3).
    rewrite <- app_assoc in H1, H2, H3. cbn [app] in H1, H2, H3.
    change (run_ops (OpSet now key v ttl force :: ops) cm)
      with (run_ops ops cm1).
    auto.
Qed.

(** X13: after [set]s of distinct keys on a new LRU cache of capacity
    [C >= 1], with no reads in between, exactly the last [C] keys are
    stored, in the order of their insertion, and one eviction was counted
    for every key that is gone. *)
Theorem lru_keeps_last_inserted (C : Z) (d : option Z) (z : bool)
    (ops : list operation) :
  1 <= C -> forallb is_set ops = true -> NoDup (map op_key ops) ->
  let cm := run_ops ops (new_cache C d LRU z) in
  keys (cache cm) = lastn (Z.to_nat C) (map op_key ops) /\
  evictions cm = len ops - size cm.
Proof.
  intros HC Hsets Hnd. cbv zeta.
  destruct (lru_sets_invariant C ops HC (new_cache C d LRU z) [])
    as (H1 & _ & H3); try reflexivity; try assumption.
  cbn [app] in H1, H3. split; [exact H1|].
  rewrite H3, size_keys, H1. unfold len. rewrite length_map. reflexivity.
Qed.

Lemma sorted_head_least {T : Type} (key : T -> Z) (l : list T) :
  match sorted key l with
  | [] => True
  | h :: _ => forall y, In y l -> key h <= key y
  end.
Proof.
  induction l as [|a l IH]; [exact I|].
  cbn [sorted fold_right]. fold (sorted key l).
  pose proof (sorted_In key) as Hin.
  destruct (sorted key l) as [|h r] eqn:E; cbn [insert_sorted].
  - intros y [<-|Hy]; [lia|]. apply (Hin y l) in Hy. rewrite E in Hy.
    destruct Hy.
  - destruct (key a <=? key h) eqn:Hle.
    + apply Z.leb_le in Hle. intros y [<-|Hy]; [lia|].
      specialize (IH y Hy). lia.
    + apply Z.leb_gt in Hle. intros y [<-|Hy]; [lia|]. exact (IH y Hy).
Qed.

Lemma dict_get_In {V : Type} (k : string) (v : V) (d : dict V) :
  dict_get k d = Some v -> In (k, v) d.
Proof.
  induction d as [|[k' v'] d IH]; simpl; [discriminate|].
  destruct (String.eqb k' k) eqn:E.
  - apply String.eqb_eq in E. intros [= <-]. subst. left. reflexivity.
  - intros H. right. exact (IH H).
Qed.

Lemma In_dict_get {V : Type} (k : string) (v : V) (d : dict V) :
  NoDup (keys d) -> In (k, v) d -> dict_get k d = Some v.
Proof.
  unfold keys. induction d as [|[k' v'] d IH]; simpl; intros Hnd Hin;
    [destruct Hin|].
  inversion Hnd as [|x l Hnotin Hnd']; subst.
  destruct Hin as [[= -> ->]|Hin].
  - rewrite String.eqb_refl. reflexivity.
  - destruct (String.eqb k' k) eqn:E; [|exact (IH Hnd' Hin)].
    apply String.eqb_eq in E. subst k'. exfalso. apply Hnotin.
    apply (in_map fst) in Hin. exact Hin.
Qed.

(** X14: under LFU, evicting one entry from a cache that is not empty
    removes a key whose frequency is the least of all the counters, from
    the mapping and from the frequency counter, and counts one
    eviction. *)
Theorem lfu_evicts_least_frequent (now : Z) (cm : SmartCacheManager) :
  consistent cm -> strategy cm = LFU -> cache cm <> [] ->
  let cm' := _evict_entries now 1 cm in
  exists victim f,
    dict_get victim (frequency_counter cm) = Some f /\
    (forall k f', dict_get k (frequency_counter cm) = Some f' -> f <= f') /\
    dict_mem victim (cache cm) = true /\
    keys (cache cm') = list_remove victim (keys (cache cm)) /\
    keys (frequency_counter cm')
    = list_remove victim (keys (frequency_counter cm)) /\
    evictions cm' = evictions cm + 1.
Proof.
  intros (Hnd & _ & Hlfu) Hs Hne. cbv zeta.
  destruct (Hlfu Hs) as [Hndf Hiff].
  assert (Hfc : frequency_counter cm <> []).
  { intros E. destruct (cache cm) as [|[k0 v0] c]; [congruence|].
    assert (H : In k0 (keys (frequency_counter cm)))
      by (apply Hiff; left; reflexivity).
    rewrite E in H. destruct H. }
  unfold _evict_entries. rewrite Hs.
  destruct (frequency_counter cm) as [|kf fc] eqn:Efc; [congruence|].
  rewrite <- Efc in *.
  destruct (sorted_head snd (frequency_counter cm) Hfc)
    as (x & rest & Hsort & Hx).
  pose proof (sorted_head_least snd (frequency_counter cm)) as Hleast.
  rewrite Hsort in Hleast. rewrite Hsort, slice_to_1_cons.
  cbn [map fold_left]. unfold evict_lfu_step.
  assert (Hin : In (fst x) (keys (cache cm))).
  { apply Hiff. unfold keys. apply in_map. exact Hx. }
  apply dict_mem_In in Hin as Hmem. rewrite Hmem.
  exists (fst x), (snd x). split.
  { apply In_dict_get; [exact Hndf|]. destruct x; exact Hx. }
  split.
  { intros k f' Hg. apply dict_get_In in Hg.
    exact (Hleast (k, f') Hg). }
  split; [exact Hmem|]. cbn. rewrite !keys_del. auto.
Qed.

Lemma filter_nil_inv {T : Type} (f : T -> bool) (l : list T) :
  filter f l = [] -> forall x, In x l -> f x = false.
Proof.
  intros E x Hx. destruct (f x) eqn:Hf; [|reflexivity].
  assert (H : In x (filter f l)) by (apply filter_In; auto).
  rewrite E in H. destruct H.
Qed.

(** X15: under TTL, evicting one entry from a cache that is not empty
    removes an expired entry when there is one, and otherwise the entry
    with the oldest [created_at]. *)
Theorem ttl_evicts_expired_then_oldest (now : Z) (cm : SmartCacheManager) :
  consistent cm -> strategy cm = TTL -> cache cm <> [] ->
  let cm' := _evict_entries now 1 cm in
  exists victim e,
    dict_get victim (cache cm) = Some e /\
    keys (cache cm') = list_remove victim (keys (cache cm)) /\
    evictions cm' = evictions cm + 1 /\
    (is_expired now e = true \/
     forall k e', dict_get k (cache cm) = Some e' ->
                  is_expired now e' = false /\
                  created_at e <= created_at e').
Proof.
  intros Hc Hs Hne. cbv zeta. pose proof Hc as (Hnd & _).
  assert (Hstep : forall victim,
    keys (cache (evict_ttl_step cm victim))
    = list_remove victim (keys (cache cm)) /\
    evictions (evict_ttl_step cm victim) = evictions cm + 1).
  { intros victim. unfold evict_ttl_step.
    destruct (delete_spec victim cm Hc) as (_ & _ & H3 & H4).
    split; [exact H4|]. cbn. rewrite H3. reflexivity. }
  unfold _evict_entries. rewrite Hs.
  destruct (filter (fun kv => is_expired now (snd kv)) (cache cm))
    as [|kv rest] eqn:Hexp; cbn [map].
  - rewrite slice_to_1_nil. cbn [fold_left].
    change (0 <? 1 - len (@nil string)) with true. cbv iota.
    change (1 - len (@nil string)) with 1.
    destruct (sorted_head (fun kv => created_at (snd kv)) (cache cm) Hne)
      as (x & r & Hsort & Hx).
    pose proof (sorted_head_least (fun kv => created_at (snd kv)) (cache cm))
      as Hleast.
    rewrite Hsort in Hleast. rewrite Hsort, slice_to_1_cons.
    cbn [map fold_left]. exists (fst x), (snd x).
    split; [apply In_dict_get; [exact Hnd | destruct x; exact Hx]|].
    destruct (Hstep (fst x)) as [H1 H2]. split; [exact H1|].
    split; [exact H2|]. right. intros k e' Hg. apply dict_get_In in Hg.
    split.
    + exact (filter_nil_inv _ _ Hexp (k, e') Hg).
    + exact (Hleast (k, e') Hg).
  - rewrite slice_to_1_cons. cbn [fold_left].
    assert (Hrem : (0 <? 1 - len (fst kv :: map fst rest)) = false).
    { apply Z.ltb_ge. rewrite len_cons.
      pose proof (len_nonneg (map fst rest)). lia. }
    rewrite Hrem.
    assert (Hin : In kv (filter (fun kv => is_expired now (snd kv))
                           (cache cm)))
      by (rewrite Hexp; left; reflexivity).
    apply filter_In in Hin as [Hin Hx].
    exists (fst kv), (snd kv).
    split; [apply In_dict_get; [exact Hnd | destruct kv; exact Hin]|].
    destruct (Hstep (fst kv)) as [H1 H2]. auto.
Qed.

Lemma dict_del_filter {V : Type} (k : string) (d : dict V) :
  NoDup (keys d) ->
  dict_del k d = filter (fun kv => negb (String.eqb (fst kv) k)) d.
Proof.
  unfold keys. induction d as [|[k' v'] d IH]; simpl; intros Hnd;
    [reflexivity|].
  inversion Hnd as [|x l Hnotin Hnd']; subst.
  destruct (String.eqb k' k) eqn:E; cbn [negb].
  - apply String.eqb_eq in E. subst k'. symmetry.
    rewrite <- (IH Hnd'). 
    assert (Hm : dict_mem k d = false) by (apply dict_mem_false; exact Hnotin).
    exact (dict_del_absent k d Hm).
  - rewrite (IH Hnd'). reflexivity.
Qed.

Lemma delete_all_spec (ks : list string) :
  forall cm, consistent cm ->
  let cm' := fold_left (fun c key => snd (delete key c)) ks cm in
  consistent cm' /\
  cache cm' = filter (fun kv => negb (list_mem (fst kv) ks)) (cache cm) /\
  evictions cm' = evictions cm /\
  hits cm' = hits cm /\ misses cm' = misses cm.
Proof.
  induction ks as [|k ks IH]; intros cm Hc; cbv zeta; cbn [fold_left].
  - split; [exact Hc|]. split; [|auto].
    symmetry. apply forallb_filter_id. apply forallb_forall. reflexivity.
  - destruct (delete_spec k cm Hc) as (Hc1 & _ & He1 & _).
    destruct (delete_counters k cm) as [Hh1 Hm1].
    destruct (IH _ Hc1) as (Hc2 & Hk2 & He2 & Hh2 & Hm2).
    split; [exact Hc2|]. split; [|repeat split; congruence].
    rewrite Hk2, cache_delete, dict_del_filter by (apply Hc).
    clear. induction (cache cm) as [|kv c IHc]; [reflexivity|].
    cbn [filter]. unfold list_mem at 2. cbn [existsb].
    fold (list_mem (fst kv) ks).
    destruct (String.eqb (fst kv) k); cbn [negb orb filter];
      [exact IHc|].
    destruct (list_mem (fst kv) ks); cbn [negb]; rewrite IHc; reflexivity.
Qed.

(** X16: [cleanup_expired] deletes exactly the entries that have expired:
    the others stay, in their order, the bookkeeping stays consistent,
    and no hit, miss or eviction is counted. *)
Theorem cleanup_removes_exactly_expired (now : Z) (cm : SmartCacheManager) :
  consistent cm ->
  let cm' := cleanup_expired now cm in
  cache cm'
  = filter (fun kv => negb (is_expired now (snd kv))) (cache cm) /\
  consistent cm' /\
  evictions cm' = evictions cm /\
  hits cm' = hits cm /\ misses cm' = misses cm.
Proof.
  intros Hc. cbv zeta. unfold cleanup_expired.
  destruct (delete_all_spec
              (map fst (filter (fun kv => is_expired now (snd kv)) (cache cm)))
              cm Hc) as (Hc' & Hk & He & Hh & Hm).
  split; [|auto]. rewrite Hk. apply filter_ext_in. intros kv Hin.
  f_equal. destruct Hc as (Hnd & _).
  destruct (is_expired now (snd kv)) eqn:Hx.
  - apply list_mem_In. apply in_map. apply filter_In. auto.
  - destruct (list_mem (fst kv) _) eqn:Hmem; [|reflexivity].
    apply list_mem_In in Hmem. apply in_map_iff in Hmem.
    destruct Hmem as (kv' & Hfst & Hf). apply filter_In in Hf as [Hin' Hx'].
    assert (Hsame : snd kv' = snd kv).
    { assert (H1 : dict_get (fst kv) (cache cm) = Some (snd kv))
        by (apply In_dict_get; [exact Hnd | destruct kv; exact Hin]).
      assert (H2 : dict_get (fst kv) (cache cm) = Some (snd kv')).
      { rewrite <- Hfst. apply In_dict_get; [exact Hnd|].
        destruct kv'; exact Hin'. }
      congruence. }
    congruence.
Qed.

Lemma delete_evictions (key : string) (cm : SmartCacheManager) :
  evictions (snd (delete key cm)) = evictions cm.
Proof.
  unfold delete. destruct cm as [ms dt st ec c ao fc h m e cp]; cbn.
  destruct (dict_mem key c); cbn; [|auto].
  destruct (list_mem key ao); cbn; destruct (dict_mem key fc); cbn; auto.
Qed.

(** Evicting one entry counts no hit and no miss, and at most one
    eviction, in every state. *)
Lemma evict_counters (now : Z) (cm : SmartCacheManager) :
  hits (_evict_entries now 1 cm) = hits cm /\
  misses (_evict_entries now 1 cm) = misses cm /\
  evictions cm <= evictions (_evict_entries now 1 cm) <= evictions cm + 1.
Proof.
  assert (Httl : forall k,
    hits (evict_ttl_step cm k) = hits cm /\
    misses (evict_ttl_step cm k) = misses cm /\
    evictions cm <= evictions (evict_ttl_step cm k) <= evictions cm + 1).
  { intros k. unfold evict_ttl_step.
    destruct (delete_counters k cm) as [Hh Hm].
    pose proof (delete_evictions k cm) as He. cbn.
    rewrite Hh, Hm, He. lia. }
  unfold _evict_entries. destruct (strategy cm).
  - destruct (access_order cm) as [|k rest] eqn:Hao.
    + change (Z.to_nat (Z.min 1 (len (@nil string)))) with 0%nat.
      cbn [Nat.iter nat_rect]. lia.
    + assert (Hmin : Z.to_nat (Z.min 1 (len (k :: rest))) = 1%nat).
      { rewrite len_cons. pose proof (len_nonneg rest). lia. }
      rewrite Hmin. cbn [Nat.iter nat_rect]. unfold evict_lru_step.
      rewrite Hao. destruct (dict_mem k _); cbn; lia.
  - destruct (frequency_counter cm) as [|kf fc] eqn:Hfc; [lia|].
    destruct (sorted_head snd (kf :: fc)) as (x & rest & Hsort & _);
      [discriminate|].
    rewrite Hsort, slice_to_1_cons. cbn [map fold_left].
    unfold evict_lfu_step. destruct (dict_mem (fst x) (cache cm)); cbn; lia.
  - destruct (filter (fun kv => is_expired now (snd kv)) (cache cm))
      as [|kv rest] eqn:Hexp; cbn [map].
    + rewrite slice_to_1_nil. cbn [fold_left].
      change (0 <? 1 - len (@nil string)) with true. cbv iota.
      change (1 - len (@nil string)) with 1.
      destruct (sorted (fun kv => created_at (snd kv)) (cache cm))
        as [|x r].
      * rewrite slice_to_1_nil. cbn [map fold_left]. lia.
      * rewrite slice_to_1_cons. cbn [map fold_left]. apply Httl.
    + rewrite slice_to_1_cons. cbn [fold_left].
      assert (Hrem : (0 <? 1 - len (fst kv :: map fst rest)) = false).
      { apply Z.ltb_ge. rewrite len_cons.
        pose proof (len_nonneg (map fst rest)). lia. }
      rewrite Hrem. apply Httl.
  - lia.
  - lia.
Qed.

(** What one operation does to the counters. *)
Lemma run_op_counters (op : operation) (cm : SmartCacheManager) :
  hits cm <= hits (run_op op cm) /\
  misses cm <= misses (run_op op cm) /\
  hits (run_op op cm) + misses (run_op op cm)
  = hits cm + misses cm + (if is_get op then 1 else 0) /\
  evictions cm <= evictions (run_op op cm)
  <= evictions cm + (if is_set op then 1 else 0).
Proof.
  destruct op as [now key v ttl force | now key | key];
    cbn [run_op is_get is_set].
  - destruct (set_fields now key v ttl force cm)
      as (_ & _ & _ & He & Hh & Hm & _).
    rewrite He, Hh, Hm. unfold before_store.
    destruct (_ && _); [|lia].
    destruct (evict_counters now cm) as (H1 & H2 & H3). lia.
  - destruct (dict_get key (cache cm)) as [entry|] eqn:Hg.
    + destruct (is_expired now entry) eqn:Hx.
      * rewrite (get_expired now key cm entry Hg Hx).
        destruct (delete_counters key cm) as [Hh Hm].
        pose proof (delete_evictions key cm) as He. cbn.
        rewrite Hh, Hm, He. lia.
      * destruct (get_hit now key cm entry Hg Hx)
          as (_ & _ & _ & _ & He & Hh & Hm & _). lia.
    + rewrite (get_miss now key cm Hg). cbn. lia.
  - destruct (delete_counters key cm) as [Hh Hm].
    pose proof (delete_evictions key cm) as He. lia.
Qed.

Lemma run_ops_counters (ops : list operation) :
  forall cm,
  hits cm <= hits (run_ops ops cm) /\
  misses cm <= misses (run_ops ops cm) /\
  hits (run_ops ops cm) + misses (run_ops ops cm)
  = hits cm + misses cm + len (filter is_get ops) /\
  evictions cm <= evictions (run_ops ops cm)
  <= evictions cm + len (filter is_set ops).
Proof.
  induction ops as [|op ops IH]; intros cm.
  - cbn [run_ops fold_left filter]. change (len (@nil operation)) with 0. lia.
  - change (run_ops (op :: ops) cm) with (run_ops ops (run_op op cm)).
    destruct (run_op_counters op cm) as (H1 & H2 & H3 & H4).
    destruct (IH (run_op op cm)) as (I1 & I2 & I3 & I4).
    cbn [filter]. destruct (is_get op), (is_set op);
      rewrite ?len_cons; lia.
Qed.

(** X17: every [get] counts exactly one hit or one miss and nothing else
    does: after any sequence of operations on a new cache, [hits] plus
    [misses] is the number of [get]s. *)
Theorem hits_and_misses_count_the_gets (C : Z) (d : option Z)
    (strat : CacheStrategy) (z : bool) (ops : list operation) :
  let cm := run_ops ops (new_cache C d strat z) in
  0 <= hits cm /\ 0 <= misses cm /\
  hits cm + misses cm = len (filter is_get ops).
Proof.
  cbv zeta.
  destruct (run_ops_counters ops (new_cache C d strat z))
    as (H1 & H2 & H3 & _).
  cbn [hits misses new_cache] in *. lia.
Qed.


Lemma dict_get_del_ne {V : Type} (k key : string) (d : dict V) :
  k <> key -> dict_get k (dict_del key d) = dict_get k d.
Proof.
  intros Hne. induction d as [|[k' v'] d IH]; simpl; [reflexivity|].
  destruct (String.eqb k' key) eqn:E; simpl.
  - apply String.eqb_eq in E. subst k'.
    assert (E' : String.eqb key k = false)
      by (apply String.eqb_neq; congruence).
    rewrite E'. reflexivity.
  - rewrite IH. reflexivity.
Qed.

(** X19: [delete] of a key that is not stored answers [False] and changes
    nothing; [delete] of a stored key answers [True], takes the key out
    of the mapping, of the recency order and of the frequency counter,
    leaves every other entry as it was, and a [get] of the key right
    after it misses. *)
Theorem delete_removes_the_key (key : string) (cm : SmartCacheManager) :
  consistent cm ->
  (dict_mem key (cache cm) = false -> delete key cm = (false, cm)) /\
  (dict_mem key (cache cm) = true ->
   let cm' := snd (delete key cm) in
   fst (delete key cm) = true /\
   dict_mem key (cache cm') = false /\
   size cm' = size cm - 1 /\
   (strategy cm = LRU -> ~ In key (access_order cm')) /\
   (strategy cm = LFU -> dict_mem key (frequency_counter cm') = false) /\
   (forall k, k <> key ->
              dict_get k (cache cm') = dict_get k (cache cm)) /\
   forall now, get now key cm' = (Ok VNone, add_miss cm')).
Proof.
  intros Hc. split; [apply delete_absent|]. intros Hm. cbv zeta.
  destruct (delete_spec key cm Hc) as ((Hnd' & Hlru' & Hlfu') & Hcfg & _ & Hk).
  destruct Hcfg as (_ & _ & Hstr & _). destruct Hc as (Hnd & _).
  assert (Hgone : ~ In key (keys (cache (snd (delete key cm))))).
  { rewrite Hk, list_remove_In_iff by exact Hnd. tauto. }
  split; [rewrite (delete_present _ _ Hm); reflexivity|].
  split; [apply dict_mem_false; exact Hgone|]. split.
  { rewrite !size_keys, Hk. apply len_list_remove. apply dict_mem_In.
    exact Hm. }
  split.
  { intros Hs. rewrite <- Hstr in Hs. destruct (Hlru' Hs) as [_ Hiff].
    intros Hin. apply Hgone, Hiff. exact Hin. }
  split.
  { intros Hs. rewrite <- Hstr in Hs. destruct (Hlfu' Hs) as [_ Hiff].
    apply dict_mem_false. intros Hin. apply Hgone, Hiff. exact Hin. }
  split.
  { intros k Hne. rewrite cache_delete. apply dict_get_del_ne. exact Hne. }
  intros now. apply get_miss. apply dict_get_None. exact Hgone.
Qed.

(** A stored value comes back from the next [get]. *)
Lemma get_after_set (now later : Z) (key : string) (v : pyval)
    (ttl : option Z) (force : bool) (cm : SmartCacheManager) :
  wrapper_like v = false ->
  pickle_loads (pickle_dumps v) = Ok v ->
  gzip_decompress (gzip_compress (pickle_dumps v)) = Ok (pickle_dumps v) ->
  fresh (ttl_or_default ttl (default_ttl cm)) now later ->
  fst (get later key (snd (set now key v ttl force cm))) = Ok v.
Proof.
  intros Hw Hp Hz Hfresh.
  destruct (set_fields now key v ttl force cm) as (Hc & _).
  assert (Hg : dict_get key (cache (snd (set now key v ttl force cm)))
               = Some (stored_entry now v ttl (before_store now key cm)))
    by (rewrite Hc; apply dict_get_set_eq).
  assert (He : is_expired later
                 (stored_entry now v ttl (before_store now key cm)) = false).
  { apply (fresh_not_expired now). cbn.
    destruct (before_store_same_config now key cm) as (_ & Hd & _).
    rewrite Hd. exact Hfresh. }
  destruct (get_hit later key _ _ Hg He) as (Hr & _).
  rewrite Hr. exact (compress_decompress v _ Hw Hp Hz).
Qed.

(** X20: the wrapper of [cached] memoizes.  When the first call finds
    nothing, executes the function and gets a result that is not [None]
    (and that the store can hold), a second call for the same key before
    the entry expires returns that result without executing the
    function. *)
Theorem cached_second_call_is_served (ttl : option Z) (key : string)
    (now later now2 later2 : Z) (r : pyval) (func2 : result pyval)
    (cm : SmartCacheManager) :
  fst (get now key cm) = Ok VNone ->
  r <> VNone ->
  wrapper_like r = false ->
  pickle_loads (pickle_dumps r) = Ok r ->
  gzip_decompress (gzip_compress (pickle_dumps r)) = Ok (pickle_dumps r) ->
  fresh (ttl_or_default ttl (default_ttl cm)) later now2 ->
  exists cm1 cm2,
    cached_wrapper ttl key now later (Ok r) cm = (Ok r, cm1, [EvFunc]) /\
    cached_wrapper ttl key now2 later2 func2 cm1 = (Ok r, cm2, []).
Proof.
  intros Hmiss Hr Hw Hp Hz Hfresh.
  set (cm0 := snd (get now key cm)).
  set (cm1 := snd (set later key r ttl false cm0)).
  exists cm1, (snd (get now2 key cm1)).
  assert (Hd : default_ttl cm0 = default_ttl cm)
    by (destruct (get_same_config now key cm) as (_ & H & _); exact H).
  split.
  - unfold cached_wrapper. fold cm0 in Hmiss |- *.
    destruct (get now key cm) as [r0 c0]. cbn [fst snd] in *.
    subst r0. reflexivity.
  - assert (Hget : fst (get now2 key cm1) = Ok r).
    { apply get_after_set; try assumption. rewrite Hd. exact Hfresh. }
    unfold cached_wrapper. destruct (get now2 key cm1) as [r2 c2].
    cbn [fst snd] in *. subst r2.
    destruct r; try reflexivity. congruence.
Qed.

(** X21: an entry is gone once its time to live has run out.  When the
    stored ttl is [d] and more than [d] has passed since the [set], the
    next [get] counts a miss, answers [None] and deletes the entry. *)
Theorem entry_expires_after_ttl (now later d : Z) (key : string) (v : pyval)
    (ttl : option Z) (force : bool) (cm : SmartCacheManager) :
  consistent cm ->
  ttl_or_default ttl (default_ttl cm) = Some d ->
  d < later - now ->
  let cm1 := snd (set now key v ttl force cm) in
  fst (get later key cm1) = Ok VNone /\
  dict_mem key (cache cm1) = true /\
  dict_mem key (cache (snd (get later key cm1))) = false /\
  size (snd (get later key cm1)) = size cm1 - 1 /\
  misses (snd (get later key cm1)) = misses cm1 + 1.
Proof.
  intros Hc Httl Hlate. cbv zeta.
  destruct (set_fields now key v ttl force cm) as (Hcache & _).
  set (cm1 := snd (set now key v ttl force cm)) in *.
  set (e := stored_entry now v ttl (before_store now key cm)) in *.
  assert (Hg : dict_get key (cache cm1) = Some e)
    by (rewrite Hcache; apply dict_get_set_eq).
  assert (Hx : is_expired later e = true).
  { unfold is_expired, e. cbn.
    destruct (before_store_same_config now key cm) as (_ & Hd & _).
    rewrite Hd, Httl. apply Z.ltb_lt. exact Hlate. }
  assert (Hc1 : consistent cm1) by (apply set_consistent; exact Hc).
  assert (Hm : dict_mem key (cache cm1) = true)
    by (unfold dict_mem; rewrite Hg; reflexivity).
  rewrite (get_expired later key cm1 e Hg Hx). cbn [fst snd].
  destruct (delete_spec key cm1 Hc1) as (_ & _ & _ & Hk).
  destruct (delete_counters key cm1) as [_ Hmiss].
  destruct Hc1 as (Hnd & _).
  split; [reflexivity|]. split; [exact Hm|]. split.
  { apply dict_mem_false. change (cache (add_miss ?c)) with (cache c).
    rewrite Hk, list_remove_In_iff by exact Hnd. tauto. }
  split.
  { change (size (add_miss ?c)) with (size c). rewrite !size_keys, Hk.
    apply len_list_remove. apply dict_mem_In. exact Hm. }
  cbn. rewrite Hmiss. reflexivity.
Qed.

(** X22: a stored dictionary with a true ["_compressed"] entry and no
    ["_data"] cannot be read back.  With compression switched off it is
    stored as it is, and the next [get] counts a hit and raises
    [KeyError]. *)
Theorem marked_dict_without_data_raises (now later : Z) (key : string)
    (dct : dict pyval) (flag : pyval) (ttl : option Z) (force : bool)
    (cm : SmartCacheManager) :
  enable_compression cm = false ->
  dict_get "_compressed" dct = Some flag -> truthy flag = true ->
  dict_get "_data" dct = None ->
  fresh (ttl_or_default ttl (default_ttl cm)) now later ->
  let cm1 := snd (set now key (VDict dct) ttl force cm) in
  fst (get later key cm1) = Raise (KeyError "_data") /\
  hits (snd (get later key cm1)) = hits cm1 + 1.
Proof.
  intros Hoff Hflag Htrue Hdata Hfresh. cbv zeta.
  destruct (set_fields now key (VDict dct) ttl force cm) as (Hcache & _).
  set (cm1 := snd (set now key (VDict dct) ttl force cm)) in *.
  set (e := stored_entry now (VDict dct) ttl (before_store now key cm)) in *.
  destruct (before_store_same_config now key cm) as (_ & Hd & _ & Hec).
  assert (Hg : dict_get key (cache cm1) = Some e)
    by (rewrite Hcache; apply dict_get_set_eq).
  assert (Hx : is_expired later e = false).
  { apply (fresh_not_expired now). unfold e. cbn. rewrite Hd. exact Hfresh. }
  assert (Hv : value e = VDict dct).
  { unfold e, stored_entry, _compress_if_needed. cbn [value].
    rewrite Hec, Hoff. reflexivity. }
  destruct (get_hit later key cm1 e Hg Hx) as (Hr & _ & _ & _ & _ & Hh & _).
  split; [|exact Hh]. rewrite Hr, Hv. unfold _decompress_if_needed.
  rewrite Hflag, Htrue, Hdata. reflexivity.
Qed.

(** X24: the same with a ["_data"] entry that is not bytes.  The next
    [get] counts a hit and raises [EOFError] when the entry is [None],
    which [gzip.decompress] reads as no data and [pickle.loads] cannot
    load, and [TypeError] for any other value. *)
Theorem marked_dict_with_other_data_raises (now later : Z) (key : string)
    (dct : dict pyval) (flag data : pyval) (ttl : option Z) (force : bool)
    (cm : SmartCacheManager) :
  enable_compression cm = false ->
  dict_get "_compressed" dct = Some flag -> truthy flag = true ->
  dict_get "_data" dct = Some data ->
  (forall b, data <> VBytes b) ->
  fresh (ttl_or_default ttl (default_ttl cm)) now later ->
  let cm1 := snd (set now key (VDict dct) ttl force cm) in
  fst (get later key cm1)
  = Raise (if is_None data then EOFError else TypeError) /\
  hits (snd (get later key cm1)) = hits cm1 + 1.
Proof.
  intros Hoff Hflag Htrue Hdata Hnb Hfresh. cbv zeta.
  destruct (set_fields now key (VDict dct) ttl force cm) as (Hcache & _).
  set (cm1 := snd (set now key (VDict dct) ttl force cm)) in *.
  set (e := stored_entry now (VDict dct) ttl (before_store now key cm)) in *.
  destruct (before_store_same_config now key cm) as (_ & Hd & _ & Hec).
  assert (Hg : dict_get key (cache cm1) = Some e)
    by (rewrite Hcache; apply dict_get_set_eq).
  assert (Hx : is_expired later e = false).
  { apply (fresh_not_expired now). unfold e. cbn. rewrite Hd. exact Hfresh. }
  assert (Hv : value e = VDict dct).
  { unfold e, stored_entry, _compress_if_needed. cbn [value].
    rewrite Hec, Hoff. reflexivity. }
  destruct (get_hit later key cm1 e Hg Hx) as (Hr & _ & _ & _ & _ & Hh & _).
  split; [|exact Hh]. rewrite Hr, Hv. unfold _decompress_if_needed.
  rewrite Hflag, Htrue, Hdata.
  destruct data; try reflexivity. exfalso. exact (Hnb _ eq_refl).
Qed.

End CacheMore.

(** ** More of the cache on the sample serializer *)

Section CacheMoreExamples.
Import Cache SampleSerializer.

Local Abbreviation S := SampleSerializer.serializer.

Lemma new_cache_consistent (C : Z) (d : option Z) (strat : CacheStrategy)
    (z : bool) : consistent (new_cache C d strat z).
Proof.
  unfold consistent, same_keys. cbn.
  repeat split; try constructor; try tauto.
Qed.

Lemma lfu_sample_consistent : consistent lfu_sample.
Proof. apply run_ops_consistent, new_cache_consistent. Qed.

Lemma ttl_sample_consistent : consistent ttl_sample.
Proof. apply run_ops_consistent, new_cache_consistent. Qed.

(** X12, on [sample_ops] under LRU. *)
Lemma bookkeeping_agrees_with_cache_witness :
  access_order (@run_ops S sample_ops (new_cache 2 (Some 3600) LRU true))
  = keys (cache (@run_ops S sample_ops (new_cache 2 (Some 3600) LRU true)))
  /\ NoDup (access_order
              (@run_ops S sample_ops (new_cache 2 (Some 3600) LRU true))).
Proof.
  destruct (@bookkeeping_agrees_with_cache S 2 (Some 3600) LRU true
              sample_ops) as (_ & _ & _ & Hlru & _).
  destruct (Hlru eq_refl) as [Hnd _].
  split; [vm_compute; reflexivity | exact Hnd].
Defined.

(** X13, four distinct keys into a capacity of 2. *)
Lemma lru_keeps_last_inserted_witness :
  keys (cache (@run_ops S four_sets (new_cache 2 (Some 3600) LRU true)))
  = ["c"; "d"] /\
  evictions (@run_ops S four_sets (new_cache 2 (Some 3600) LRU true)) = 2.
Proof.
  destruct (@lru_keeps_last_inserted S 2 (Some 3600) true four_sets)
    as [Hk He].
  - lia.
  - reflexivity.
  - repeat constructor; vm_compute; intuition discriminate.
  - split; [rewrite Hk; reflexivity | rewrite He; vm_compute; reflexivity].
Defined.

(** X14: in [lfu_sample] the counter of "a" is 3 and that of "b" is 2. *)
Lemma lfu_evicts_least_frequent_witness :
  keys (cache (_evict_entries 5 1 lfu_sample)) = ["a"].
Proof.
  destruct (lfu_evicts_least_frequent 5 lfu_sample)
    as (victim & f & _ & _ & _ & Hk & _).
  - exact lfu_sample_consistent.
  - reflexivity.
  - discriminate.
  - vm_compute. reflexivity.
Defined.

(** X15: in [ttl_sample] at time 10 only "b" has expired. *)
Lemma ttl_evicts_expired_then_oldest_witness :
  keys (cache (_evict_entries 10 1 ttl_sample)) = ["a"; "c"].
Proof.
  destruct (ttl_evicts_expired_then_oldest 10 ttl_sample)
    as (victim & e & _ & Hk & _).
  - exact ttl_sample_consistent.
  - reflexivity.
  - discriminate.
  - vm_compute. reflexivity.
Defined.

(** X16, on [ttl_sample] at time 10. *)
Lemma cleanup_removes_exactly_expired_witness :
  keys (cache (cleanup_expired 10 ttl_sample)) = ["a"; "c"].
Proof.
  destruct (cleanup_removes_exactly_expired 10 ttl_sample
              ttl_sample_consistent) as (Hc & _).
  rewrite Hc. vm_compute. reflexivity.
Defined.

(** X19, deleting "a" from [lfu_sample]. *)
Lemma delete_removes_the_key_witness :
  dict_mem "a" (cache (snd (delete "a" lfu_sample))) = false /\
  dict_mem "a" (frequency_counter (snd (delete "a" lfu_sample))) = false.
Proof.
  destruct (@delete_removes_the_key S "a" lfu_sample lfu_sample_consistent)
    as [_ H].
  destruct (H eq_refl) as (_ & H1 & _ & _ & H2 & _).
  split; [exact H1 | exact (H2 eq_refl)].
Defined.

(** X20, on a new cache: the function returns 7 at the first call. *)
Lemma cached_second_call_is_served_witness :
  exists cm1 cm2,
    @cached_wrapper S None "k" 0 1 (Ok (VInt 7))
      (new_cache 10 (Some 3600) LRU true)
    = (Ok (VInt 7), cm1, [EvFunc]) /\
    @cached_wrapper S None "k" 2 3 (Ok (VInt 8)) cm1
    = (Ok (VInt 7), cm2, []).
Proof.
  apply (@cached_second_call_is_served S).
  - reflexivity.
  - discriminate.
  - reflexivity.
  - vm_compute. reflexivity.
  - vm_compute. reflexivity.
  - vm_compute. discriminate.
Defined.

(** X21: a ttl of 5, read 10 units later. *)
Lemma entry_expires_after_ttl_witness :
  fst (@get S 10 "k"
         (snd (@set S 0 "k" (VInt 1) (Some 5) false
                 (new_cache 10 (Some 3600) LRU true))))
  = Ok VNone.
Proof.
  destruct (@entry_expires_after_ttl S 0 10 5 "k" (VInt 1) (Some 5) false
              (new_cache 10 (Some 3600) LRU true)) as (H & _).
  - apply new_cache_consistent.
  - reflexivity.
  - lia.
  - exact H.
Defined.

(** X22, with compression switched off. *)
Lemma marked_dict_without_data_raises_witness :
  fst (@get S 1 "k"
         (snd (@set S 0 "k" (VDict [("_compressed", VBool true)]) None false
                 (new_cache 10 (Some 3600) LRU false))))
  = Raise (KeyError "_data").
Proof.
  destruct (@marked_dict_without_data_raises S 0 1 "k"
              [("_compressed", VBool true)] (VBool true) None false
              (new_cache 10 (Some 3600) LRU false)) as (H & _).
  - reflexivity.
  - reflexivity.
  - reflexivity.
  - reflexivity.
  - vm_compute. discriminate.
  - exact H.
Defined.

(** X24, with [None] for the data. *)
Lemma marked_dict_with_other_data_raises_witness :
  fst (@get S 1 "k"
         (snd (@set S 0 "k"
                 (VDict [("_compressed", VBool true); ("_data", VNone)])
                 None false (new_cache 10 (Some 3600) LRU false))))
  = Raise EOFError.
Proof.
  destruct (@marked_dict_with_other_data_raises S 0 1 "k"
              [("_compressed", VBool true); ("_data", VNone)]
              (VBool true) VNone None false
              (new_cache 10 (Some 3600) LRU false)) as (H & _).
  - reflexivity.
  - reflexivity.
  - reflexivity.
  - reflexivity.
  - discriminate.
  - vm_compute. discriminate.
  - exact H.
Defined.

End CacheMoreExamples.

(** ** The probe after the recovery timeout *)

Section BreakerProbe.
Import Breaker.

Variables A V : Type.

(** X23: the first call after [recovery_timeout] has elapsed is let
    through as a probe.  The operation is invoked; if it succeeds (and
    more than one success is asked for) the breaker is HALF_OPEN with one
    success counted, and if it fails with a classified exception the
    exception is raised again and the circuit is OPEN once more, its
    timer restarted at the time of the failure. *)
Theorem probe_after_recovery_timeout (now t1 t2 : Z) (args : A)
    (cb : CircuitBreaker A V) :
  state cb = OPEN ->
  recovery_timeout (config cb) <= now - last_state_change cb ->
  1 <= window_size (stats cb) ->
  (forall v, 1 < success_threshold (config cb) ->
     exists cb',
       call now t1 t2 (Returns v) args cb = (Ok v, cb', [EvFunc]) /\
       state cb' = HALF_OPEN /\ half_open_success_count cb' = 1 /\
       last_state_change cb' = now) /\
  (forall e, expected_exception (config cb) e = true ->
     exists cb',
       call now t1 t2 (Raises e) args cb = (Raise e, cb', [EvFunc]) /\
       state cb' = OPEN /\ half_open_success_count cb' = 0 /\
       last_state_change cb' = t2).
Proof.
  intros Hst Hrec Hw.
  assert (Hcheck : _check_state_transition now cb
                   = with_state cb HALF_OPEN now 0).
  { unfold _check_state_transition. rewrite Hst.
    apply Z.leb_le in Hrec. rewrite Hrec. reflexivity. }
  split.
  - intros v HS.
    destruct (record_success_ok (stats cb) Hw) as (s1 & E & _).
    unfold call. rewrite Hcheck. cbn [state with_state].
    unfold _on_success. cbn [stats with_state]. rewrite E.
    cbn [state with_stats with_state config half_open_success_count].
    replace (success_threshold (config cb) <=? 0 + 1) with false
      by (symmetry; apply Z.leb_gt; lia).
    eexists. split; [reflexivity|]. cbn. auto.
  - intros e He.
    destruct (record_failure_ok t1 (stats cb) Hw) as (s1 & E & _).
    unfold call. rewrite Hcheck. cbn [state with_state].
    unfold handle_exception. cbn [config with_state]. rewrite He.
    unfold _on_failure. cbn [stats with_state]. rewrite E.
    cbn [state with_stats with_state].
    eexists. split; [reflexivity|]. cbn. auto.
Qed.

End BreakerProbe.

(** X23, on the Google Books breaker opened at time 4, called at
    time 40. *)
Lemma probe_after_recovery_timeout_witness :
  exists cb',
    Breaker.call 40 41 42 (Raises (UpstreamError "HTTPError")) 0
      Breaker.opened_breaker
    = (Raise (UpstreamError "HTTPError"), cb', [EvFunc]) /\
    Breaker.state cb' = Breaker.OPEN /\
    Breaker.last_state_change cb' = 42.
Proof.
  destruct (probe_after_recovery_timeout Z Z 40 41 42 0
              Breaker.opened_breaker) as [_ H].
  - reflexivity.
  - vm_compute. discriminate.
  - vm_compute. discriminate.
  - destruct (H (UpstreamError "HTTPError") eq_refl)
      as (cb' & E & Hst & _ & Ht).
    exists cb'. auto.
Defined.
